(** * TradeSim: the order matching engine of [main.cpp]

    A shallow embedding of the C++ program: the [Order] record and its two
    comparators, [std::priority_queue] over a [std::vector] as the C++
    standard defines it (a vector kept as a heap by [push_heap] and
    [pop_heap]), the [OrderBook], the [TradeLogger], the [MatchingEngine]
    with its two matching loops, and the order-entry branch of [main].
    The display of the book, the generator of random orders and the menu
    loop of [main] follow, on what they read from [cin], from the random
    generator and from the clock; the formatting of numbers and of times is
    left out.

    Conventions.
    - [int] and [long] values are integers of [Z]; the one arithmetic
      operation of the engine, [-=] on [int], is written with its 32-bit
      two's complement wrap-around.
    - [double] values are IEEE 754 values ([spec_float]); the engine only
      compares and copies them, and the generator rounds a price to cents.
      The comparisons and the arithmetic are those of the standard library's
      specification of floating-point numbers, NaN included.
    - Member functions are state transformers in a small monad whose
      failures are [Undefined] (a call the C++ standard gives no meaning,
      such as [top] on an empty queue) and [OutOfFuel] (a [while] loop cut
      off by the bound given to it).
    - The heap algorithms of the C++ library are a parameter of the engine,
      constrained by the contract the standard gives them; every property is
      proved for every implementation that meets the contract, and concrete
      runs are computed with one such implementation. *)

From Stdlib Require Import ZArith Arith List String Bool Lia Permutation Sorted.
From Stdlib Require Import Floats.SpecFloat.
Import ListNotations.

Local Open Scope Z_scope.

(** ** Machine integers *)

Module CInt.

Definition int_min : Z := - 2 ^ 31.
Definition int_max : Z := 2 ^ 31 - 1.

Definition in_range (x : Z) : Prop := int_min <= x <= int_max.

(** The value of a mathematical result once stored in an [int]. *)
Definition wrap (x : Z) : Z := (x + 2 ^ 31) mod 2 ^ 32 - 2 ^ 31.

(** [a - b] on [int]. *)
Definition sub (a b : Z) : Z := wrap (a - b).

(** [std::min] on [int]. *)
Definition min (a b : Z) : Z := if b <? a then b else a.

End CInt.

(** ** Doubles: comparison operators *)

Module Double.

Definition double : Type := spec_float.

Definition is_nan (x : double) : bool :=
  match x with S754_nan => true | _ => false end.

(** [a < b], [a > b], [a <= b], [a >= b], [a != b] of C++ on doubles: every
    ordered comparison with a NaN is false, and [!=] with a NaN is true. *)
Definition lt (a b : double) : bool := SFltb a b.
Definition gt (a b : double) : bool := SFltb b a.
Definition le (a b : double) : bool := SFleb a b.
Definition ge (a b : double) : bool := SFleb b a.
Definition ne (a b : double) : bool := negb (SFeqb a b).

(** The double nearest to [m * 2^e] (binary64: 53 bits of precision,
    exponent of the infinities 1024). *)
Definition of_scaled (m e : Z) : double := binary_normalize 53 1024 m e false.

Definition zero : double := S754_zero false.

(** The position of a double that is not a NaN on the number line, as a
    lexicographically ordered triple. *)
Definition key (x : double) : Z * Z * Z :=
  match x with
  | S754_nan => (0, 0, 0)
  | S754_zero _ => (0, 0, 0)
  | S754_infinity true => (-2, 0, 0)
  | S754_infinity false => (2, 0, 0)
  | S754_finite true m e => (-1, - e, - Zpos m)
  | S754_finite false m e => (1, e, Zpos m)
  end.

Definition key_lt (a b : Z * Z * Z) : Prop :=
  let '(a1, a2, a3) := a in
  let '(b1, b2, b3) := b in
  a1 < b1 \/ (a1 = b1 /\ (a2 < b2 \/ (a2 = b2 /\ a3 < b3))).

End Double.

Import Double.

(** ** Orders *)

Record Order : Type := mkOrder {
  orderID : Z;
  type : string;
  price : double;
  quantity : Z;
  timestamp : Z
}.

(** The assignment [order.quantity = q]. *)
Definition set_quantity (q : Z) (o : Order) : Order :=
  {| orderID := orderID o; type := type o; price := price o;
     quantity := q; timestamp := timestamp o |}.

(** Comparator for buy orders: [a] is below [b] when its price is lower, or,
    at the same price, when its timestamp is later. *)
Definition BuyOrderComparator (a b : Order) : bool :=
  if ne (price a) (price b) then lt (price a) (price b)
  else timestamp a >? timestamp b.

(** Comparator for sell orders: [a] is below [b] when its price is higher,
    or, at the same price, when its timestamp is later. *)
Definition SellOrderComparator (a b : Order) : bool :=
  if ne (price a) (price b) then gt (price a) (price b)
  else timestamp a >? timestamp b.

(** ** [std::priority_queue<T, std::vector<T>, Compare>]

    The C++ standard defines the adaptor by its effects on the underlying
    vector [c]: [push(x)] is [c.push_back(x); push_heap(c.begin(), c.end(),
    comp)], [pop()] is [pop_heap(c.begin(), c.end(), comp); c.pop_back()],
    [top()] is [c.front()], [empty()] is [c.empty()], [size()] is
    [c.size()]. The heap algorithms are the library's; they enter the model
    through their contract. *)

Section PriorityQueue.

Context {A : Type}.

(** [std::is_heap]: no element is above its parent. *)
Definition is_heap (comp : A -> A -> bool) (c : list A) : Prop :=
  forall (i : nat) (p x : A),
    (0 < i)%nat ->
    nth_error c ((i - 1) / 2)%nat = Some p ->
    nth_error c i = Some x ->
    comp p x = false.

(** [comp] is a strict weak ordering on the values that satisfy [P]: the
    requirement of the standard on [Compare]. *)
Definition strict_weak_on (comp : A -> A -> bool) (P : A -> Prop) : Prop :=
  (forall x, P x -> comp x x = false) /\
  (forall x y z, P x -> P y -> P z ->
     comp x y = true -> comp y z = true -> comp x z = true) /\
  (forall x y z, P x -> P y -> P z ->
     comp x y = false -> comp y z = false -> comp x z = false).

End PriorityQueue.

(** The heap algorithms of [<algorithm>], with the contract the standard
    gives them: both only rearrange the range; [push_heap] turns a heap
    followed by one more element into a heap; [pop_heap] moves the first
    element to the last position and leaves a heap in front of it. *)
Class HeapAlgorithms (A : Type) : Type := {
  push_heap : (A -> A -> bool) -> list A -> list A;
  pop_heap : (A -> A -> bool) -> list A -> list A;
  push_heap_Permutation :
    forall comp c, Permutation (push_heap comp c) c;
  pop_heap_Permutation :
    forall comp x c,
      exists c', pop_heap comp (x :: c) = c' ++ [x] /\ Permutation c' c;
  push_heap_is_heap :
    forall comp (P : A -> Prop) c x,
      strict_weak_on comp P -> Forall P (c ++ [x]) ->
      is_heap comp c -> is_heap comp (push_heap comp (c ++ [x]));
  pop_heap_is_heap :
    forall comp (P : A -> Prop) c,
      strict_weak_on comp P -> Forall P c ->
      is_heap comp c -> is_heap comp (removelast (pop_heap comp c))
}.

Module priority_queue.
Section Members.

Context {A : Type} `{HeapAlgorithms A}.
Variable comp : A -> A -> bool.

(** A default-constructed queue. *)
Definition new : list A := [].

Definition empty (c : list A) : bool :=
  match c with [] => true | _ :: _ => false end.

Definition size (c : list A) : nat := List.length c.

(** [c.front()]; [None] where the call is undefined (empty queue). *)
Definition top (c : list A) : option A := hd_error c.

Definition push (x : A) (c : list A) : list A :=
  push_heap comp (c ++ [x]).

(** [None] where the call is undefined (empty queue). *)
Definition pop (c : list A) : option (list A) :=
  match c with
  | [] => None
  | _ :: _ => Some (removelast (pop_heap comp c))
  end.

End Members.
End priority_queue.

(** ** Stateful member functions *)

Inductive result (A : Type) : Type :=
| Ok (a : A)
| Undefined
| OutOfFuel.

Arguments Ok {A} a.
Arguments Undefined {A}.
Arguments OutOfFuel {A}.

(** A member function of a class with state [S] returning an [A]. *)
Definition M (S A : Type) : Type := S -> result (A * S).

Definition ret {S A : Type} (a : A) : M S A := fun s => Ok (a, s).

Definition bind {S A B : Type} (m : M S A) (k : A -> M S B) : M S B :=
  fun s =>
    match m s with
    | Ok (a, s') => k a s'
    | Undefined => Undefined
    | OutOfFuel => OutOfFuel
    end.

Declare Scope cpp_scope.
Delimit Scope cpp_scope with cpp.
Notation "x <- m ;; k" := (bind m (fun x => k))
  (at level 61, m at next level, right associativity) : cpp_scope.
Notation "m ;; k" := (bind m (fun _ => k))
  (at level 61, right associativity) : cpp_scope.
Local Open Scope cpp_scope.

(** The type [void]. *)
Definition void : Type := unit.

(** What one pass through a loop body decides. *)
Inductive loop_ctl (L : Type) : Type :=
| Continue (l : L)
| Break (l : L).

Arguments Continue {L} l.
Arguments Break {L} l.

(** [while]: [body] tests the loop condition and runs the body once on the
    loop's local variables [l]; [Break] stands for both the condition being
    false and a [break] statement. At most [fuel] passes are made. *)
Fixpoint while_do {S L : Type} (fuel : nat) (body : L -> M S (loop_ctl L))
    (l : L) : M S L :=
  match fuel with
  | O => fun _ => OutOfFuel
  | Datatypes.S fuel' =>
      r <- body l ;;
      match r with
      | Continue l' => while_do fuel' body l'
      | Break l' => ret l'
      end
  end.

(** ** OrderBook *)

Record OrderBook : Type := mkOrderBook {
  buyOrders : list Order;
  sellOrders : list Order
}.

Module Book.
Section Members.

Context `{HeapAlgorithms Order}.

Definition new : OrderBook :=
  {| buyOrders := priority_queue.new; sellOrders := priority_queue.new |}.

Definition addBuyOrder (order : Order) : M OrderBook void :=
  fun b =>
    Ok (tt, {| buyOrders := priority_queue.push BuyOrderComparator order (buyOrders b);
               sellOrders := sellOrders b |}).

Definition addSellOrder (order : Order) : M OrderBook void :=
  fun b =>
    Ok (tt, {| buyOrders := buyOrders b;
               sellOrders := priority_queue.push SellOrderComparator order (sellOrders b) |}).

Definition hasBuyOrders : M OrderBook bool :=
  fun b => Ok (negb (priority_queue.empty (buyOrders b)), b).

Definition hasSellOrders : M OrderBook bool :=
  fun b => Ok (negb (priority_queue.empty (sellOrders b)), b).

Definition getTopBuyOrder : M OrderBook Order :=
  fun b =>
    match priority_queue.top (buyOrders b),
          priority_queue.pop BuyOrderComparator (buyOrders b) with
    | Some order, Some c => Ok (order, {| buyOrders := c; sellOrders := sellOrders b |})
    | _, _ => Undefined
    end.

Definition getTopSellOrder : M OrderBook Order :=
  fun b =>
    match priority_queue.top (sellOrders b),
          priority_queue.pop SellOrderComparator (sellOrders b) with
    | Some order, Some c => Ok (order, {| buyOrders := buyOrders b; sellOrders := c |})
    | _, _ => Undefined
    end.

Definition peekTopBuyOrder : M OrderBook Order :=
  fun b =>
    match priority_queue.top (buyOrders b) with
    | Some order => Ok (order, b)
    | None => Undefined
    end.

Definition peekTopSellOrder : M OrderBook Order :=
  fun b =>
    match priority_queue.top (sellOrders b) with
    | Some order => Ok (order, b)
    | None => Undefined
    end.

Definition getBuyOrderCount : M OrderBook nat :=
  fun b => Ok (priority_queue.size (buyOrders b), b).

Definition getSellOrderCount : M OrderBook nat :=
  fun b => Ok (priority_queue.size (sellOrders b), b).

End Members.
End Book.

(** ** TradeLogger and the console *)

(** The four values [logTrade] is called with. *)
Record Trade : Type := mkTrade {
  buyOrderID : Z;
  sellOrderID : Z;
  tradePrice : double;
  tradeQuantity : Z
}.

(** [is_open]: whether [trades.log] could be opened; [logFile]: the trade
    lines written to it, oldest first (the session markers and the clock
    prefix of each line are left out). *)
Record TradeLogger : Type := mkTradeLogger {
  is_open : bool;
  logFile : list Trade
}.

(** The lines the engine and the order-entry branch of [main] write to
    [std::cout], one constructor per message (menus and prompts are left
    out). *)
Inductive Output : Type :=
| OrderRejected (quantity : Z)
| ProcessingNewOrder (newOrder : Order)
| TradeExecuted (t : Trade)
| InvalidOrderType
| InvalidPrice
| InvalidQuantity.

(** ** MatchingEngine *)

(** The engine's two members, and the standard output it writes to. *)
Record MatchingEngine : Type := mkMatchingEngine {
  orderBook : OrderBook;
  tradeLogger : TradeLogger;
  cout : list Output
}.

(** The trades written to the console, oldest first: every call of
    [logTrade] writes one. *)
Fixpoint trades_of (out : list Output) : list Trade :=
  match out with
  | [] => []
  | TradeExecuted t :: out' => t :: trades_of out'
  | _ :: out' => trades_of out'
  end.

Definition trades (e : MatchingEngine) : list Trade := trades_of (cout e).

Module Engine.
Section Members.

Context `{HeapAlgorithms Order}.

(** [MatchingEngine()]: an empty book, and a logger on [trades.log], which
    may ([opened]) or may not have been opened. *)
Definition new (opened : bool) : MatchingEngine :=
  {| orderBook := Book.new;
     tradeLogger := {| is_open := opened; logFile := [] |};
     cout := [] |}.

(** A call [orderBook.f(...)]. *)
Definition onBook {A : Type} (m : M OrderBook A) : M MatchingEngine A :=
  fun e =>
    match m (orderBook e) with
    | Ok (a, b) =>
        Ok (a, {| orderBook := b; tradeLogger := tradeLogger e; cout := cout e |})
    | Undefined => Undefined
    | OutOfFuel => OutOfFuel
    end.

(** [cout << ...]. *)
Definition print (line : Output) : M MatchingEngine void :=
  fun e =>
    Ok (tt, {| orderBook := orderBook e; tradeLogger := tradeLogger e;
               cout := cout e ++ [line] |}).

(** [tradeLogger.logTrade(...)]: the message goes to the console, and to the
    file when it is open. *)
Definition logTrade (buyOrderID sellOrderID : Z) (price : double) (quantity : Z)
  : M MatchingEngine void :=
  let t := mkTrade buyOrderID sellOrderID price quantity in
  print (TradeExecuted t) ;;
  fun e =>
    if is_open (tradeLogger e) then
      Ok (tt, {| orderBook := orderBook e;
                 tradeLogger := {| is_open := true;
                                   logFile := logFile (tradeLogger e) ++ [t] |};
                 cout := cout e |})
    else Ok (tt, e).

(** One evaluation of the loop condition of [processBuyOrder] and, when it
    holds, one pass through the loop body. *)
Definition processBuyOrder_body (buyOrder : Order)
  : M MatchingEngine (loop_ctl Order) :=
  (* [hasSellOrders] is [const]: evaluating it ahead of [&&] changes nothing *)
  hasSell <- onBook Book.hasSellOrders ;;
  if (0 <? quantity buyOrder) && hasSell then
    topSellOrder <- onBook Book.peekTopSellOrder ;;
    if ge (price buyOrder) (price topSellOrder) then
      onBook Book.getTopSellOrder ;;
      let tradeQuantity := CInt.min (quantity buyOrder) (quantity topSellOrder) in
      let tradePrice := price topSellOrder in
      logTrade (orderID buyOrder) (orderID topSellOrder) tradePrice tradeQuantity ;;
      let buyOrder :=
        set_quantity (CInt.sub (quantity buyOrder) tradeQuantity) buyOrder in
      let topSellOrder :=
        set_quantity (CInt.sub (quantity topSellOrder) tradeQuantity) topSellOrder in
      (if 0 <? quantity topSellOrder
       then onBook (Book.addSellOrder topSellOrder)
       else ret tt) ;;
      ret (Continue buyOrder)
    else ret (Break buyOrder)
  else ret (Break buyOrder).

Definition processBuyOrder (fuel : nat) (buyOrder : Order)
  : M MatchingEngine void :=
  buyOrder <- while_do fuel processBuyOrder_body buyOrder ;;
  if 0 <? quantity buyOrder
  then onBook (Book.addBuyOrder buyOrder)
  else ret tt.

(** One evaluation of the loop condition of [processSellOrder] and, when it
    holds, one pass through the loop body. *)
Definition processSellOrder_body (sellOrder : Order)
  : M MatchingEngine (loop_ctl Order) :=
  (* [hasBuyOrders] is [const]: evaluating it ahead of [&&] changes nothing *)
  hasBuy <- onBook Book.hasBuyOrders ;;
  if (0 <? quantity sellOrder) && hasBuy then
    topBuyOrder <- onBook Book.peekTopBuyOrder ;;
    if le (price sellOrder) (price topBuyOrder) then
      onBook Book.getTopBuyOrder ;;
      let tradeQuantity := CInt.min (quantity sellOrder) (quantity topBuyOrder) in
      let tradePrice := price topBuyOrder in
      logTrade (orderID topBuyOrder) (orderID sellOrder) tradePrice tradeQuantity ;;
      let sellOrder :=
        set_quantity (CInt.sub (quantity sellOrder) tradeQuantity) sellOrder in
      let topBuyOrder :=
        set_quantity (CInt.sub (quantity topBuyOrder) tradeQuantity) topBuyOrder in
      (if 0 <? quantity topBuyOrder
       then onBook (Book.addBuyOrder topBuyOrder)
       else ret tt) ;;
      ret (Continue sellOrder)
    else ret (Break sellOrder)
  else ret (Break sellOrder).

Definition processSellOrder (fuel : nat) (sellOrder : Order)
  : M MatchingEngine void :=
  sellOrder <- while_do fuel processSellOrder_body sellOrder ;;
  if 0 <? quantity sellOrder
  then onBook (Book.addSellOrder sellOrder)
  else ret tt.

(** The risk limit written in [processOrder]. *)
Definition MAX_QTY : Z := 1000.

Definition processOrder (fuel : nat) (newOrder : Order)
  : M MatchingEngine void :=
  if MAX_QTY <? quantity newOrder then
    print (OrderRejected (quantity newOrder))
  else
    print (ProcessingNewOrder newOrder) ;;
    if String.eqb (type newOrder) "buy"
    then processBuyOrder fuel newOrder
    else processSellOrder fuel newOrder.

(** A stream of submissions, each processed to the end before the next. *)
Fixpoint processOrders (fuel : nat) (orders : list Order)
  : M MatchingEngine void :=
  match orders with
  | [] => ret tt
  | newOrder :: rest =>
      processOrder fuel newOrder ;; processOrders fuel rest
  end.

End Members.
End Engine.

(** ** The order-entry branch of [main] (menu choice 1) *)

Record Main : Type := mkMain {
  engine : MatchingEngine;
  orderCounter : Z
}.

Module MainLoop.
Section Members.

Context `{HeapAlgorithms Order}.

(** [main] before its first menu: a fresh engine, [orderCounter = 1]. *)
Definition new (opened : bool) : Main :=
  {| engine := Engine.new opened; orderCounter := 1 |}.

(** A call [engine.f(...)]. *)
Definition onEngine {A : Type} (m : M MatchingEngine A) : M Main A :=
  fun s =>
    match m (engine s) with
    | Ok (a, e) => Ok (a, {| engine := e; orderCounter := orderCounter s |})
    | Undefined => Undefined
    | OutOfFuel => OutOfFuel
    end.

(** [orderCounter++]: the old value is returned. *)
Definition next_orderCounter : M Main Z :=
  fun s =>
    Ok (orderCounter s,
        {| engine := engine s; orderCounter := CInt.wrap (orderCounter s + 1) |}).

(** [case 1] of [main], on what the three reads of [cin] gave ([type],
    [price], [quantity]; a read that is not reached is ignored) and on
    the clock ([now], the result of [Utils::getCurrentTimestamp]). *)
Definition placeOrder (fuel : nat) (type : string) (price : double)
    (quantity : Z) (now : Z) : M Main void :=
  if negb (String.eqb type "buy") && negb (String.eqb type "sell") then
    onEngine (Engine.print InvalidOrderType)
  else if le price Double.zero then
    onEngine (Engine.print InvalidPrice)
  else if quantity <=? 0 then
    onEngine (Engine.print InvalidQuantity)
  else
    id <- next_orderCounter ;;
    let newOrder := mkOrder id type price quantity now in
    onEngine (Engine.processOrder fuel newOrder).

End Members.
End MainLoop.

(** ** Doubles: the arithmetic of [generateRandomOrder] *)

Module DoubleArith.

(** [a * b] and [a / b] of C++ on doubles: the IEEE 754 operations of
    binary64, rounding to nearest, ties to even. *)
Definition mul (a b : double) : double := SFmul 53 1024 a b.
Definition div (a b : double) : double := SFdiv 53 1024 a b.

(** [round] of [<cmath>]: the nearest integral value, halfway cases away
    from zero; zeros, infinities and NaN are returned as they are, and the
    sign is kept. *)
Definition round (x : double) : double :=
  match x with
  | S754_finite s m e =>
      if 0 <=? e then x
      else
        let d := 2 ^ (- e) in
        let n := (2 * Zpos m + d) / (2 * d) in
        binary_normalize 53 1024 (if s then - n else n) 0 s
  | _ => x
  end.

(** The literal [100.0]. *)
Definition hundred : double := S754_finite false 7036874417766400 (-46).

End DoubleArith.

(** ** Utils *)

(** What one call of [generateRandomOrder] takes from the random generator
    and from the clock: the results of [typeDist(gen)], [priceDist(gen)],
    [quantityDist(gen)] and [getCurrentTimestamp()]. *)
Record Draw : Type := mkDraw {
  typeDraw : Z;
  priceDraw : double;
  quantityDraw : Z;
  clock : Z
}.

Module Utils.

Definition generateRandomOrder (orderID : Z) (d : Draw) : Order :=
  let type := if typeDraw d =? 0 then "buy"%string else "sell"%string in
  let price :=
    DoubleArith.div (DoubleArith.round (DoubleArith.mul (priceDraw d) DoubleArith.hundred))
      DoubleArith.hundred in
  let quantity := quantityDraw d in
  let timestamp := clock d in
  mkOrder orderID type price quantity timestamp.

End Utils.

(** ** The display of the book, the generator of random orders, the menu *)

(** The lines that [displayOrderBook], [generateRandomOrders] and the menu of
    [main] write to [std::cout], one constructor per message (the menu itself
    and the prompts are left out). They are collected apart from the lines
    of [Output]. *)
Inductive ScreenLine : Type :=
| OrderBookHeader
| BuyOrdersHeader
| NoBuyOrders
| SellOrdersHeader
| NoSellOrders
| DisplayedOrder (order : Order)
| MoreBuyOrders (n : nat)
| MoreSellOrders (n : nat)
| OrderBookFooter
| GeneratingRandomOrders (count : Z)
| NumberBetween1And100
| InvalidChoice
| ThankYou.

(** The program: the locals of [main], the [static int orderCounter] of
    [generateRandomOrders], and the screen. *)
Record Program : Type := mkProgram {
  locals : Main;
  randomOrderCounter : Z;
  screen : list ScreenLine
}.

(** What one pass of the menu loop reads: the menu choice, the three reads
    of [case 1], the read of [case 3], the clock, and the random draws of the
    orders to generate, numbered from 0 (a read that is not reached is
    ignored). *)
Record Input : Type := mkInput {
  choice : Z;
  typed_type : string;
  typed_price : double;
  typed_quantity : Z;
  typed_count : Z;
  now : Z;
  draws : Z -> Draw
}.

Module Display.
Section Members.

Context `{HeapAlgorithms Order}.

(** [cout << ...] of a line of the display. *)
Definition show (line : ScreenLine) : M (list ScreenLine) void :=
  fun out => Ok (tt, out ++ [line]).

(** One evaluation of the condition of a display loop and, when it holds,
    one pass through its body; the loop is written once for each side, on
    [tempBuyQueue] and on [tempSellQueue]. *)
Definition display_body (comp : Order -> Order -> bool) (l : list Order * Z)
  : M (list ScreenLine) (loop_ctl (list Order * Z)) :=
  let '(tempQueue, count) := l in
  if negb (priority_queue.empty tempQueue) && (count <? 5) then
    match priority_queue.top tempQueue, priority_queue.pop comp tempQueue with
    | Some order, Some tempQueue =>
        show (DisplayedOrder order) ;;
        ret (Continue (tempQueue, CInt.wrap (count + 1)))
    | _, _ => fun _ => Undefined
    end
  else ret (Break l).

(** [OrderBook::displayOrderBook() const]: the book is only read. *)
Definition displayOrderBook (fuel : nat) (book : OrderBook)
  : M (list ScreenLine) void :=
  show OrderBookHeader ;;
  show BuyOrdersHeader ;;
  (if priority_queue.empty (buyOrders book) then show NoBuyOrders
   else
     let tempBuyQueue := buyOrders book in
     while_do fuel (display_body BuyOrderComparator) (tempBuyQueue, 0) ;;
     if (5 <? priority_queue.size (buyOrders book))%nat
     then show (MoreBuyOrders (priority_queue.size (buyOrders book) - 5))
     else ret tt) ;;
  show SellOrdersHeader ;;
  (if priority_queue.empty (sellOrders book) then show NoSellOrders
   else
     let tempSellQueue := sellOrders book in
     while_do fuel (display_body SellOrderComparator) (tempSellQueue, 0) ;;
     if (5 <? priority_queue.size (sellOrders book))%nat
     then show (MoreSellOrders (priority_queue.size (sellOrders book) - 5))
     else ret tt) ;;
  show OrderBookFooter.

End Members.
End Display.

Module Menu.
Section Members.

Context `{HeapAlgorithms Order}.

(** [main] before its first menu; the counter of random orders starts from
    10000. *)
Definition new (opened : bool) : Program :=
  {| locals := MainLoop.new opened; randomOrderCounter := 10000; screen := [] |}.

(** A statement of [main] on its locals. *)
Definition onLocals {A : Type} (m : M Main A) : M Program A :=
  fun p =>
    match m (locals p) with
    | Ok (a, s) =>
        Ok (a, {| locals := s; randomOrderCounter := randomOrderCounter p;
                  screen := screen p |})
    | Undefined => Undefined
    | OutOfFuel => OutOfFuel
    end.

(** [cout << ...]. *)
Definition onScreen {A : Type} (m : M (list ScreenLine) A) : M Program A :=
  fun p =>
    match m (screen p) with
    | Ok (a, out) =>
        Ok (a, {| locals := locals p; randomOrderCounter := randomOrderCounter p;
                  screen := out |})
    | Undefined => Undefined
    | OutOfFuel => OutOfFuel
    end.

(** [MatchingEngine::displayOrderBook]. *)
Definition displayOrderBook (fuel : nat) : M Program void :=
  fun p =>
    onScreen (Display.displayOrderBook fuel (orderBook (engine (locals p)))) p.

(** [orderCounter++] on the counter of random orders: the old value is
    returned. *)
Definition next_randomOrderCounter : M Program Z :=
  fun p =>
    Ok (randomOrderCounter p,
        {| locals := locals p;
           randomOrderCounter := CInt.wrap (randomOrderCounter p + 1);
           screen := screen p |}).

(** One evaluation of [i < count] and, when it holds, one pass through the
    body of the [for] loop and its [i++]. *)
Definition generateRandomOrders_body (fuel : nat) (count : Z)
    (draws : Z -> Draw) (i : Z) : M Program (loop_ctl Z) :=
  if i <? count then
    orderID <- next_randomOrderCounter ;;
    let randomOrder := Utils.generateRandomOrder orderID (draws i) in
    onLocals (MainLoop.onEngine (Engine.processOrder fuel randomOrder)) ;;
    ret (Continue (CInt.wrap (i + 1)))
  else ret (Break i).

(** [MatchingEngine::generateRandomOrders]. *)
Definition generateRandomOrders (fuel : nat) (count : Z) (draws : Z -> Draw)
  : M Program void :=
  onScreen (Display.show (GeneratingRandomOrders count)) ;;
  while_do fuel (generateRandomOrders_body fuel count draws) 0 ;;
  ret tt.

(** One pass of the menu loop of [main]: [Break] is [return 0]. *)
Definition menu (fuel : nat) (input : Input) : M Program (loop_ctl void) :=
  if choice input =? 1 then
    onLocals (MainLoop.placeOrder fuel (typed_type input) (typed_price input)
                (typed_quantity input) (now input)) ;;
    ret (Continue tt)
  else if choice input =? 2 then
    displayOrderBook fuel ;;
    ret (Continue tt)
  else if choice input =? 3 then
    let count := typed_count input in
    if (count <=? 0) || (100 <? count) then
      onScreen (Display.show NumberBetween1And100) ;;
      ret (Continue tt)
    else
      generateRandomOrders fuel count (draws input) ;;
      ret (Continue tt)
  else if choice input =? 4 then
    onScreen (Display.show ThankYou) ;;
    ret (Break tt)
  else
    onScreen (Display.show InvalidChoice) ;;
    ret (Continue tt).

(** The menu loop on the inputs read so far: [true] when [main] has
    returned. *)
Fixpoint main (fuel : nat) (inputs : list Input) : M Program bool :=
  match inputs with
  | [] => ret false
  | input :: rest =>
      r <- menu fuel input ;;
      match r with
      | Continue _ => main fuel rest
      | Break _ => ret true
      end
  end.

End Members.
End Menu.

(** ** A reference implementation of the heap algorithms

    The contract of [HeapAlgorithms] leaves the layout of the heap open. This
    implementation keeps the vector in decreasing order of [comp], equal
    elements in the order they were pushed; it is what concrete runs of the
    engine are computed with. *)

Module SortedHeap.
Section Algorithms.

Context {A : Type}.
Variable comp : A -> A -> bool.

(** [x] goes in front of the first element that is below it. *)
Fixpoint insert (x : A) (c : list A) : list A :=
  match c with
  | [] => [x]
  | y :: c' => if comp y x then x :: y :: c' else y :: insert x c'
  end.

Fixpoint insert_all (acc c : list A) : list A :=
  match c with
  | [] => acc
  | x :: c' => insert_all (insert x acc) c'
  end.

Definition push_heap (c : list A) : list A := insert_all [] c.

Definition pop_heap (c : list A) : list A :=
  match c with
  | [] => []
  | x :: c' => insert_all [] c' ++ [x]
  end.

(** No element is below a later one. *)
Fixpoint descending (c : list A) : Prop :=
  match c with
  | [] => True
  | x :: c' => Forall (fun y => comp x y = false) c' /\ descending c'
  end.

End Algorithms.
End SortedHeap.

(** ** Vocabulary of the properties *)

(** The price of [o] is a number. *)
Definition priced (o : Order) : Prop := is_nan (price o) = false.

(** A submission as the submission interface expects it: a side that is
    [buy] or [sell], a price above zero, a quantity above zero. *)
Definition valid_submission (o : Order) : bool :=
  (String.eqb (type o) "buy" || String.eqb (type o) "sell")
  && lt Double.zero (price o)
  && (0 <? quantity o).

(** Both vectors are heaps for their comparators, over priced orders. *)
Definition heap_ok (b : OrderBook) : Prop :=
  is_heap BuyOrderComparator (buyOrders b) /\
  is_heap SellOrderComparator (sellOrders b) /\
  Forall priced (buyOrders b) /\ Forall priced (sellOrders b).

(** Every resting buy order is priced below every resting sell order. *)
Definition cross_free (b : OrderBook) : Prop :=
  forall x y, In x (buyOrders b) -> In y (sellOrders b) ->
    lt (price x) (price y) = true.

(** One side is empty, or the best bid is priced below the best ask. *)
Definition uncrossed (b : OrderBook) : Prop :=
  buyOrders b = [] \/ sellOrders b = [] \/
  exists best_bid best_ask,
    priority_queue.top (buyOrders b) = Some best_bid /\
    priority_queue.top (sellOrders b) = Some best_ask /\
    lt (price best_bid) (price best_ask) = true.

(** The working quantity of every resting order is a positive [int]. *)
Definition resting_ok (c : list Order) : Prop :=
  Forall (fun o => 0 < quantity o <= CInt.int_max) c.

Definition quantities_ok (b : OrderBook) : Prop :=
  resting_ok (buyOrders b) /\ resting_ok (sellOrders b).

(** Total quantity resting in one side of the book. *)
Definition resting_quantity (c : list Order) : Z :=
  fold_right (fun o acc => quantity o + acc) 0 c.

(** Total quantity of a list of trades. *)
Definition filled_quantity (ts : list Trade) : Z :=
  fold_right (fun t acc => tradeQuantity t + acc) 0 ts.

(** The side [processOrder] dispatches [o] to. *)
Definition is_buy (o : Order) : bool := String.eqb (type o) "buy".

(** [o] passes the risk check. *)
Definition admitted (o : Order) : bool := negb (Engine.MAX_QTY <? quantity o).

(** Total quantity of the admitted submissions of one side. *)
Definition admitted_quantity (buy_side : bool) (orders : list Order) : Z :=
  fold_right
    (fun o acc =>
       if admitted o && Bool.eqb (is_buy o) buy_side then quantity o + acc else acc)
    0 orders.

(** The quantity a submission brings to the side it is dispatched to: its
    quantity when it passes the risk check and has any, and nothing
    otherwise. *)
Definition brought (buy_side : bool) (o : Order) : Z :=
  if admitted o && Bool.eqb (is_buy o) buy_side then Z.max 0 (quantity o) else 0.

(** The quantity of the trade between an incoming and a resting order, and
    an order after that trade. *)
Definition traded (incoming resting : Order) : Z :=
  CInt.min (quantity incoming) (quantity resting).

Definition after_trade (incoming resting o : Order) : Order :=
  set_quantity (CInt.sub (quantity o) (traded incoming resting)) o.

(** The opposite side after a trade: the vector [popped] that [pop] left,
    with the resting order pushed back when quantity remains. *)
Definition requeue `{HeapAlgorithms Order} (comp : Order -> Order -> bool)
    (resting : Order) (popped : list Order) : list Order :=
  if 0 <? quantity resting then push_heap comp (popped ++ [resting]) else popped.

(** The logger after [logTrade]. *)
Definition logged (t : Trade) (lg : TradeLogger) : TradeLogger :=
  if is_open lg then {| is_open := true; logFile := logFile lg ++ [t] |} else lg.

(** The engine once [line] is on the console. *)
Definition printed (line : Output) (e : MatchingEngine) : MatchingEngine :=
  {| orderBook := orderBook e; tradeLogger := tradeLogger e;
     cout := cout e ++ [line] |}.

(** The engine after the residual [b] of a buy order was rested, or not. *)
Definition rest_buy `{HeapAlgorithms Order} (b : Order) (s : MatchingEngine)
  : MatchingEngine :=
  if 0 <? quantity b then
    {| orderBook :=
         {| buyOrders := priority_queue.push BuyOrderComparator b
                           (buyOrders (orderBook s));
            sellOrders := sellOrders (orderBook s) |};
       tradeLogger := tradeLogger s;
       cout := cout s |}
  else s.

Definition rest_sell `{HeapAlgorithms Order} (b : Order) (s : MatchingEngine)
  : MatchingEngine :=
  if 0 <? quantity b then
    {| orderBook :=
         {| buyOrders := buyOrders (orderBook s);
            sellOrders := priority_queue.push SellOrderComparator b
                            (sellOrders (orderBook s)) |};
       tradeLogger := tradeLogger s;
       cout := cout s |}
  else s.

(** The trades of one call for a buy order [o] from the engine [e]: each is
    between [o] and a sell order that rested in [e], at that order's price,
    which is within the limit of [o]. *)
Definition buy_trade_ok (o : Order) (e : MatchingEngine) (t : Trade) : Prop :=
  buyOrderID t = orderID o /\
  le (tradePrice t) (price o) = true /\
  exists resting, In resting (sellOrders (orderBook e)) /\
    sellOrderID t = orderID resting /\ tradePrice t = price resting.

Definition sell_trade_ok (o : Order) (e : MatchingEngine) (t : Trade) : Prop :=
  sellOrderID t = orderID o /\
  ge (tradePrice t) (price o) = true /\
  exists resting, In resting (buyOrders (orderBook e)) /\
    buyOrderID t = orderID resting /\ tradePrice t = price resting.

(** What bounds the passes of the buy loop from a given state: two for each
    resting sell order, and one more while the incoming order has quantity. *)
Definition buy_measure (b : Order) (s : MatchingEngine) : nat :=
  2 * List.length (sellOrders (orderBook s)) + (if 0 <? quantity b then 1 else 0).

Definition sell_measure (b : Order) (s : MatchingEngine) : nat :=
  2 * List.length (buyOrders (orderBook s)) + (if 0 <? quantity b then 1 else 0).

(** Fuel that is enough for any call of [processOrder] on a book. *)
Definition passes_bound (book : OrderBook) : nat :=
  2 * (List.length (buyOrders book) + List.length (sellOrders book)) + 2.

(** What a caller gets back from a call: the returned value, if any. *)
Definition returned {S A : Type} (r : result (A * S)) : option A :=
  match r with
  | Ok (a, _) => Some a
  | Undefined | OutOfFuel => None
  end.

(** The book and the trades a run ended with. *)
Definition book_and_trades (r : result (void * MatchingEngine))
  : option (OrderBook * list Trade) :=
  match r with
  | Ok (_, e) => Some (orderBook e, trades e)
  | Undefined | OutOfFuel => None
  end.

(** What the order-entry branch of [main] checks before it builds an order:
    [None] when the order goes on to the engine, and otherwise the message
    of the check that failed. *)
Definition entry_check (type : string) (price : double) (quantity : Z)
  : option Output :=
  if negb (String.eqb type "buy") && negb (String.eqb type "sell")
  then Some InvalidOrderType
  else if le price Double.zero then Some InvalidPrice
  else if quantity <=? 0 then Some InvalidQuantity
  else None.




(** The trades of a buy order in the order they are made: no trade is priced
    above a later one; and the mirror image for a sell order. *)
Definition ascending_prices (ts : list Trade) : Prop :=
  StronglySorted (fun t t' => le (tradePrice t) (tradePrice t') = true) ts.

Definition descending_prices (ts : list Trade) : Prop :=
  StronglySorted (fun t t' => ge (tradePrice t) (tradePrice t') = true) ts.

(** Every resting order of the book has a quantity from 1 to the risk
    limit. *)
Definition limit_ok (c : list Order) : Prop :=
  Forall (fun o => 0 < quantity o <= Engine.MAX_QTY) c.

Definition within_limit (b : OrderBook) : Prop :=
  limit_ok (buyOrders b) /\ limit_ok (sellOrders b).

(** Every trade is for a quantity from 1 to the risk limit. *)
Definition trade_within_limit (t : Trade) : Prop :=
  0 < tradeQuantity t <= Engine.MAX_QTY.

(** [x] is the order [o] with the quantity that is left of it. *)
Definition remainder_of (o x : Order) : Prop := x = set_quantity (quantity x) o.

(** Every resting order is what is left of a submission among [seen] that
    passed the risk check and was dispatched to the side it rests on. *)
Definition book_from (seen : list Order) (b : OrderBook) : Prop :=
  (forall x, In x (buyOrders b) ->
     exists o, In o seen /\ admitted o = true /\ is_buy o = true /\ remainder_of o x) /\
  (forall x, In x (sellOrders b) ->
     exists o, In o seen /\ admitted o = true /\ is_buy o = false /\ remainder_of o x).

(** The trade [t] is between a submission among [seen] dispatched to the buy
    side and one dispatched to the sell side, both within the risk limit, at
    the price of one of the two. *)
Definition trade_between (seen : list Order) (t : Trade) : Prop :=
  exists b s,
    In b seen /\ In s seen /\
    admitted b = true /\ admitted s = true /\
    is_buy b = true /\ is_buy s = false /\
    buyOrderID t = orderID b /\ sellOrderID t = orderID s /\
    (tradePrice t = price b \/ tradePrice t = price s).

(** The double that is not a number. *)
Definition nan : double := S754_nan.

(** The trades [new] of a call, the length [before] of the opposite side
    when it started and the length [after] it has: every trade took a
    resting order out of the book, or every trade but the last did, and then
    the incoming order [b] is exhausted. *)
Definition one_order_per_trade (new : list Trade) (before after : nat)
    (b : Order) : Prop :=
  (List.length new + after = before)%nat \/
  ((List.length new + after = before + 1)%nat /\
   (1 <= List.length new)%nat /\ (1 <= after)%nat /\ quantity b <= 0).

(** [x] is served no later than [y] on the buy side: its price is not lower
    and, at the same price, its timestamp is not later. On the sell side its
    price is not higher. *)
Definition buy_priority (x y : Order) : Prop :=
  ge (price x) (price y) = true /\
  (ne (price y) (price x) = false -> timestamp x <= timestamp y).

Definition sell_priority (x y : Order) : Prop :=
  le (price x) (price y) = true /\
  (ne (price y) (price x) = false -> timestamp x <= timestamp y).

(** The lines of the display for one side [c] of the book when the orders
    [shown] are displayed: the message for an empty side, or one line for
    each order shown and, when the side has more than five orders, the
    number of the others. *)
Definition side_lines (none : ScreenLine) (more : nat -> ScreenLine)
    (c shown : list Order) : list ScreenLine :=
  match c with
  | [] => [none]
  | _ :: _ =>
      map DisplayedOrder shown ++
      (if (5 <? List.length c)%nat then [more (List.length c - 5)%nat] else [])
  end.

(** The orders that [n] rounds of [top] and [pop] take from the queue [c],
    and the queue that is left. *)
Fixpoint drain `{HeapAlgorithms Order} (comp : Order -> Order -> bool)
    (n : nat) (c : list Order) : list Order * list Order :=
  match n, c with
  | S n', t :: _ =>
      let '(shown, remaining) := drain comp n' (removelast (pop_heap comp c)) in
      (t :: shown, remaining)
  | _, _ => ([], c)
  end.

(** [x] is a positive double, infinite or with a magnitude of at least
    [2^(k-1)] and an exponent that binary64 has. *)
Definition at_least (k : Z) (x : double) : Prop :=
  match x with
  | S754_finite false m e => k <= Zpos (digits2_pos m) + e /\ -1074 <= e
  | S754_infinity false => True
  | _ => False
  end.

(** The doubles 50.0 and 150.0. *)
Definition fifty : double := S754_finite false 7036874417766400 (-47).
Definition hundred_fifty : double := S754_finite false 5277655813324800 (-45).

(** The draw is one that the distributions of [generateRandomOrder] give:
    [typeDist(0, 1)], [priceDist(50.0, 150.0)], [quantityDist(10, 500)]; the
    price is a double of binary64. *)
Definition in_distribution (d : Draw) : bool :=
  ((typeDraw d =? 0) || (typeDraw d =? 1))
  && valid_binary 53 1024 (priceDraw d)
  && le fifty (priceDraw d) && lt (priceDraw d) hundred_fifty
  && (10 <=? quantityDraw d) && (quantityDraw d <=? 500).

(** The orders that [generateRandomOrders] builds for [n] passes of its
    loop: identifiers from [c] on, draws from the one numbered [i] on. *)
Fixpoint random_orders (draws : Z -> Draw) (c i : Z) (n : nat) : list Order :=
  match n with
  | O => []
  | S n' =>
      Utils.generateRandomOrder c (draws i) :: random_orders draws (c + 1) (i + 1) n'
  end.

(** The program after [generateRandomOrders] brought the engine to [e] and
    the counter of random orders to [c]. *)
Definition generated (e : MatchingEngine) (c : Z) (p : Program) : Program :=
  {| locals := {| engine := e; orderCounter := orderCounter (locals p) |};
     randomOrderCounter := c;
     screen := screen p |}.

(** What is read in one pass of the menu is what [cin] and the random
    generator can give: a price that is a number, and draws in the ranges of
    the distributions. *)
Definition input_ok (input : Input) : Prop :=
  is_nan (typed_price input) = false /\
  forall k, in_distribution (draws input k) = true.

(** Fuel that is enough for every loop of a session on [inputs]. *)
Definition session_bound (inputs : list Input) : nat :=
  200 * List.length inputs + 102.

(** The engine is in order: the sides of the book are heaps, resting bids
    are below resting asks, quantities are within the risk limit, and
    [bound] is enough fuel for a call. *)
Definition engine_ok (bound : nat) (e : MatchingEngine) : Prop :=
  heap_ok (orderBook e) /\ cross_free (orderBook e) /\
  within_limit (orderBook e) /\ Forall trade_within_limit (trades e) /\
  (passes_bound (orderBook e) <= bound)%nat.

(** The identifiers of the orders resting in the book. *)
Definition resting_ids (b : OrderBook) : list Z :=
  map orderID (buyOrders b) ++ map orderID (sellOrders b).

(** The identifiers are those that [main] gives, from 1 to below its counter
    [typed], or those that [generateRandomOrders] gives, from 10000 to below
    its counter [random]. *)
Definition ids_given (typed random : Z) (ids : list Z) : Prop :=
  forall id, In id ids -> 1 <= id < typed \/ 10000 <= id < random.

(** After [passes] passes of the menu: the identifiers in the book are
    distinct and are those the two counters gave, and the counters have
    advanced by what that many passes can ask for. *)
Definition ids_ok (passes : Z) (p : Program) : Prop :=
  NoDup (resting_ids (orderBook (engine (locals p)))) /\
  ids_given (orderCounter (locals p)) (randomOrderCounter p)
    (resting_ids (orderBook (engine (locals p)))) /\
  1 <= orderCounter (locals p) <= 1 + passes /\
  10000 <= randomOrderCounter p <= 10000 + 100 * passes.


(** ** Concrete orders and engines *)

(** Prices of the concrete runs: the doubles 99.0, 100.0, 100.5 and 101.0. *)
Definition p99 : double := S754_finite false 6966505673588736 (-46).
Definition p100 : double := S754_finite false 7036874417766400 (-46).
Definition p100_50 : double := S754_finite false 7072058789855232 (-46).
Definition p101 : double := S754_finite false 7107243161944064 (-46).

(** The double -1.0. *)
Definition minus_one : double := S754_finite true 4503599627370496 (-52).

(** Scenario S3 mirrored (partial fill and rest): a resting buy order of 30
    at 100.00 and a sell order of 50 at 99.00; the engine after it. *)
Definition s3_book : MatchingEngine :=
  {| orderBook :=
       {| buyOrders := [mkOrder 1 "buy" p100 30 1]; sellOrders := [] |};
     tradeLogger := {| is_open := false; logFile := [] |};
     cout := [] |}.

Definition s3_sell : Order := mkOrder 2 "sell" p99 50 2.

Definition s3_after : MatchingEngine :=
  {| orderBook :=
       {| buyOrders := []; sellOrders := [mkOrder 2 "sell" p99 20 2] |};
     tradeLogger := {| is_open := false; logFile := [] |};
     cout := [ProcessingNewOrder s3_sell; TradeExecuted (mkTrade 1 2 p100 30)] |}.

(** Scenario S4 (time priority at one price): two resting sell orders at
    100.00, submitted at times 1 and 2, a buy order of 15 at 100.00, and the
    engine after the first pass of the loop. *)
Definition s4_book : MatchingEngine :=
  {| orderBook :=
       {| buyOrders := [];
          sellOrders := [mkOrder 1 "sell" p100 10 1; mkOrder 2 "sell" p100 10 2] |};
     tradeLogger := {| is_open := true; logFile := [] |};
     cout := [] |}.



(** Scenario S5 (walk the book): three resting sell orders at 99.00, 100.00
    and 101.00, and a buy order of 25 at 100.50; the engine after it. *)
Definition s5_book : MatchingEngine :=
  {| orderBook :=
       {| buyOrders := [];
          sellOrders := [mkOrder 1 "sell" p99 10 1; mkOrder 2 "sell" p100 10 2;
                         mkOrder 3 "sell" p101 10 3] |};
     tradeLogger := {| is_open := true; logFile := [] |};
     cout := [] |}.

Definition s5_buy : Order := mkOrder 4 "buy" p100_50 25 4.

Definition s5_after : MatchingEngine :=
  {| orderBook :=
       {| buyOrders := [mkOrder 4 "buy" p100_50 5 4];
          sellOrders := [mkOrder 3 "sell" p101 10 3] |};
     tradeLogger :=
       {| is_open := true;
          logFile := [mkTrade 4 1 p99 10; mkTrade 4 2 p100 10] |};
     cout := [ProcessingNewOrder s5_buy;
              TradeExecuted (mkTrade 4 1 p99 10);
              TradeExecuted (mkTrade 4 2 p100 10)] |}.

(** Scenario S5 from an empty book, followed by the over-limit order of
    scenario S6; the engine after the five submissions. *)
Definition s5_stream : list Order :=
  [mkOrder 1 "sell" p99 10 1; mkOrder 2 "sell" p100 10 2;
   mkOrder 3 "sell" p101 10 3; s5_buy; mkOrder 5 "buy" p100 1500 5].

Definition s5_stream_after : MatchingEngine :=
  {| orderBook := orderBook s5_after;
     tradeLogger := tradeLogger s5_after;
     cout := [ProcessingNewOrder (mkOrder 1 "sell" p99 10 1);
              ProcessingNewOrder (mkOrder 2 "sell" p100 10 2);
              ProcessingNewOrder (mkOrder 3 "sell" p101 10 3)]
             ++ cout s5_after ++ [OrderRejected 1500] |}.




(** A book with an order resting on each side, a buy order of 10 at 99.00
    and a sell order of 10 at 101.00; a buy order of 15 at 101.00 and a sell
    order of 15 at 99.00, and the engine after each of them: the order
    trades 10 and rests 5 beside the order of its side. *)
Definition frame_book : MatchingEngine :=
  {| orderBook :=
       {| buyOrders := [mkOrder 1 "buy" p99 10 1];
          sellOrders := [mkOrder 2 "sell" p101 10 2] |};
     tradeLogger := {| is_open := true; logFile := [] |};
     cout := [] |}.

Definition frame_buy : Order := mkOrder 3 "buy" p101 15 3.

Definition frame_sell : Order := mkOrder 4 "sell" p99 15 4.

Definition frame_after_buy : MatchingEngine :=
  {| orderBook :=
       {| buyOrders := [mkOrder 3 "buy" p101 5 3; mkOrder 1 "buy" p99 10 1];
          sellOrders := [] |};
     tradeLogger := {| is_open := true; logFile := [mkTrade 3 2 p101 10] |};
     cout := [ProcessingNewOrder frame_buy; TradeExecuted (mkTrade 3 2 p101 10)] |}.

Definition frame_after_sell : MatchingEngine :=
  {| orderBook :=
       {| buyOrders := [];
          sellOrders := [mkOrder 4 "sell" p99 5 4; mkOrder 2 "sell" p101 10 2] |};
     tradeLogger := {| is_open := true; logFile := [mkTrade 1 4 p99 10] |};
     cout := [ProcessingNewOrder frame_sell; TradeExecuted (mkTrade 1 4 p99 10)] |}.

(** Draws of the random generator: a sell order, the price 100.25, the
    quantity 40, at time 7; and a buy order, the price 100.496, the quantity
    25, at time 8. *)
Definition draw_sell : Draw :=
  {| typeDraw := 1; priceDraw := S754_finite false 7054466603810816 (-46);
     quantityDraw := 40; clock := 7 |}.

Definition draw_buy : Draw :=
  {| typeDraw := 0; priceDraw := S754_finite false 7071777314878521 (-46);
     quantityDraw := 25; clock := 8 |}.

(** A session at the menu: a sell order of 10 at 100.00 is placed, three
    random orders are asked for, the book is shown, a choice is mistyped, and
    the program is left. *)
Definition session : list Input :=
  [ {| choice := 1; typed_type := "sell"; typed_price := p100;
       typed_quantity := 10; typed_count := 0; now := 5;
       draws := fun _ => draw_sell |};
    {| choice := 3; typed_type := EmptyString; typed_price := Double.zero;
       typed_quantity := 0; typed_count := 3; now := 6;
       draws := fun k => if k =? 1 then draw_buy else draw_sell |};
    {| choice := 2; typed_type := EmptyString; typed_price := Double.zero;
       typed_quantity := 0; typed_count := 0; now := 9;
       draws := fun _ => draw_sell |};
    {| choice := 7; typed_type := EmptyString; typed_price := Double.zero;
       typed_quantity := 0; typed_count := 0; now := 10;
       draws := fun _ => draw_sell |};
    {| choice := 4; typed_type := EmptyString; typed_price := Double.zero;
       typed_quantity := 0; typed_count := 0; now := 11;
       draws := fun _ => draw_sell |} ].

(** The book after the session. *)
Definition session_book : OrderBook :=
  {| buyOrders := [];
     sellOrders := [mkOrder 10000 "sell" (S754_finite false 7054466603810816 (-46)) 25 7;
                    mkOrder 10002 "sell" (S754_finite false 7054466603810816 (-46)) 40 7] |}.

(** * Properties *)

(** ** The reference heap algorithms meet the contract *)

Section SortedHeapFacts.

Context {A : Type}.
Variable comp : A -> A -> bool.

Lemma insert_Permutation (x : A) (c : list A) :
  Permutation (SortedHeap.insert comp x c) (x :: c).
Proof.
  induction c as [|y c IH]; simpl.
  - apply Permutation_refl.
  - destruct (comp y x).
    + apply Permutation_refl.
    + eapply perm_trans; [apply perm_skip, IH | apply perm_swap].
Qed.

Lemma insert_all_Permutation (c acc : list A) :
  Permutation (SortedHeap.insert_all comp acc c) (acc ++ c).
Proof.
  revert acc; induction c as [|x c IH]; intro acc; simpl.
  - rewrite app_nil_r. apply Permutation_refl.
  - eapply perm_trans; [apply IH|].
    eapply perm_trans; [apply Permutation_app_tail, insert_Permutation|].
    simpl. apply Permutation_middle.
Qed.

Variable P : A -> Prop.
Hypothesis comp_swo : strict_weak_on comp P.

Lemma insert_descending (x : A) (c : list A) :
  P x -> Forall P c ->
  SortedHeap.descending comp c -> SortedHeap.descending comp (SortedHeap.insert comp x c).
Proof.
  destruct comp_swo as (Hirr & Htrans & Hneg).
  intros Px; induction c as [|y c IH]; intros Pc Hd; simpl.
  - split; [constructor | exact I].
  - inversion Pc as [|? ? Py Pc']; subst. destruct Hd as [Hy Hd].
    destruct (comp y x) eqn:Hyx; simpl.
    + assert (Hxy : comp x y = false).
      { destruct (comp x y) eqn:E; [|reflexivity].
        rewrite <- (Hirr x Px). symmetry. now apply (Htrans x y x). }
      split; [|split; assumption].
      constructor; [exact Hxy|].
      rewrite Forall_forall in *. intros z Hz.
      apply (Hneg x y z); auto.
    + split; [|apply IH; assumption].
      apply (Permutation_Forall (x := x :: c)).
      * symmetry. apply insert_Permutation.
      * constructor; assumption.
Qed.

Lemma insert_all_descending (c acc : list A) :
  Forall P acc -> Forall P c ->
  SortedHeap.descending comp acc ->
  SortedHeap.descending comp (SortedHeap.insert_all comp acc c).
Proof.
  revert acc; induction c as [|x c IH]; intros acc Pacc Pc Hd; simpl.
  - exact Hd.
  - inversion Pc; subst. apply IH; [|assumption|now apply insert_descending].
    apply (Permutation_Forall (x := x :: acc)).
    + symmetry. apply insert_Permutation.
    + constructor; assumption.
Qed.

Lemma descending_nth_error (c : list A) :
  SortedHeap.descending comp c ->
  forall (i j : nat) (a b : A),
    (i < j)%nat -> nth_error c i = Some a -> nth_error c j = Some b ->
    comp a b = false.
Proof.
  induction c as [|x c IH]; intros Hd i j a b Hij Ha Hb.
  - destruct i; discriminate.
  - destruct Hd as [Hx Hd]. destruct j as [|j]; [lia|].
    simpl in Hb. destruct i as [|i]; simpl in Ha.
    + injection Ha as <-. rewrite Forall_forall in Hx.
      apply Hx. eapply nth_error_In; eassumption.
    + apply (IH Hd i j); auto; lia.
Qed.

Lemma descending_is_heap (c : list A) :
  SortedHeap.descending comp c -> is_heap comp c.
Proof.
  intros Hd i p x Hi Hp Hx.
  apply (descending_nth_error c Hd ((i - 1) / 2) i); auto.
  apply Nat.Div0.div_lt_upper_bound; lia.
Qed.

End SortedHeapFacts.

Lemma SortedHeap_push_heap_is_heap {A : Type} (comp : A -> A -> bool)
    (P : A -> Prop) (c : list A) (x : A) :
  strict_weak_on comp P -> Forall P (c ++ [x]) ->
  is_heap comp c -> is_heap comp (SortedHeap.push_heap comp (c ++ [x])).
Proof.
  intros Hswo HP _. apply descending_is_heap.
  apply (insert_all_descending comp P Hswo); auto. exact I.
Qed.

Lemma SortedHeap_pop_heap_is_heap {A : Type} (comp : A -> A -> bool)
    (P : A -> Prop) (c : list A) :
  strict_weak_on comp P -> Forall P c ->
  is_heap comp c -> is_heap comp (removelast (SortedHeap.pop_heap comp c)).
Proof.
  intros Hswo HP _. destruct c as [|x c]; simpl.
  - intros i p y _ Hp. destruct ((i - 1) / 2)%nat; discriminate.
  - rewrite removelast_last. apply descending_is_heap.
    inversion HP; subst.
    apply (insert_all_descending comp P Hswo); auto. exact I.
Qed.

Lemma SortedHeap_pop_heap_Permutation {A : Type} (comp : A -> A -> bool)
    (x : A) (c : list A) :
  exists c', SortedHeap.pop_heap comp (x :: c) = c' ++ [x] /\ Permutation c' c.
Proof.
  exists (SortedHeap.insert_all comp [] c). split; [reflexivity|].
  apply (insert_all_Permutation comp c []).
Qed.

#[export] Instance sorted_heap (A : Type) : HeapAlgorithms A := {|
  push_heap := SortedHeap.push_heap;
  pop_heap := SortedHeap.pop_heap;
  push_heap_Permutation := fun comp c => insert_all_Permutation comp c [];
  pop_heap_Permutation := SortedHeap_pop_heap_Permutation;
  push_heap_is_heap := SortedHeap_push_heap_is_heap;
  pop_heap_is_heap := SortedHeap_pop_heap_is_heap
|}.

(** ** Comparison of doubles *)

Lemma SFcompare_key (a b : double) :
  is_nan a = false -> is_nan b = false ->
  (SFcompare a b = Some Eq /\ key a = key b) \/
  (SFcompare a b = Some Lt /\ key_lt (key a) (key b)) \/
  (SFcompare a b = Some Gt /\ key_lt (key b) (key a)).
Proof.
  intros Ha Hb.
  destruct a as [sa|sa| |sa ma ea], b as [sb|sb| |sb mb eb];
    try discriminate; simpl;
    try destruct sa; try destruct sb; simpl;
    try (left; split; [reflexivity|reflexivity]);
    try (right; left; split; [reflexivity|lia]);
    try (right; right; split; [reflexivity|lia]).
  all: change (Pos.compare_cont Eq ma mb) with (Pos.compare ma mb);
    destruct (Z.compare_spec ea eb) as [He|He|He];
    try destruct (Pos.compare_spec ma mb) as [Hm|Hm|Hm]; subst; simpl.
  all: try (left; split; [reflexivity|reflexivity]);
    try (right; left; split; [reflexivity|lia]);
    try (right; right; split; [reflexivity|lia]).
Qed.

Ltac keys :=
  unfold key_lt in *;
  repeat match goal with
  | H : context [key ?a] |- _ =>
      let k1 := fresh "k" in let k2 := fresh "k" in let k3 := fresh "k" in
      destruct (key a) as [[k1 k2] k3]
  end;
  repeat match goal with
  | H : (_, _) = (_, _) |- _ => injection H as ? ?
  end.

Lemma SFcompare_both (a b : double) :
  is_nan a = false -> is_nan b = false ->
  (SFcompare a b = Some Eq /\ SFcompare b a = Some Eq /\ key a = key b) \/
  (SFcompare a b = Some Lt /\ SFcompare b a = Some Gt /\ key_lt (key a) (key b)) \/
  (SFcompare a b = Some Gt /\ SFcompare b a = Some Lt /\ key_lt (key b) (key a)).
Proof.
  intros Ha Hb.
  destruct (SFcompare_key a b Ha Hb) as [[H1 K1]|[[H1 K1]|[H1 K1]]];
    destruct (SFcompare_key b a Hb Ha) as [[H2 K2]|[[H2 K2]|[H2 K2]]];
    rewrite H1, H2; try (exfalso; keys; lia); auto 6.
Qed.

(** Case analysis on how two numbers compare, both ways round. *)
Ltac cmp a b Ha Hb :=
  let H := fresh "Hc" in let H' := fresh "Hc" in
  destruct (SFcompare_both a b Ha Hb) as [(H & H' & ?)|[(H & H' & ?)|(H & H' & ?)]];
  try rewrite H in *; try rewrite H' in *.

Ltac zb :=
  repeat rewrite Z.gtb_ltb in *;
  repeat match goal with
  | H : context [?a <? ?b] |- _ => destruct (Z.ltb_spec a b)
  | |- context [?a <? ?b] => destruct (Z.ltb_spec a b)
  end.

Ltac unfold_cmp := unfold lt, gt, le, ge, ne, SFltb, SFleb, SFeqb in *.

Ltac order_cases :=
  simpl; zb; try discriminate; try reflexivity; try lia; intros; keys; lia.

Lemma ge_false_lt (a b : double) :
  is_nan a = false -> is_nan b = false -> ge a b = false -> lt a b = true.
Proof. intros Ha Hb. unfold_cmp. cmp a b Ha Hb; order_cases. Qed.

Lemma le_false_gt (a b : double) :
  is_nan a = false -> is_nan b = false -> le a b = false -> gt a b = true.
Proof. intros Ha Hb. unfold_cmp. cmp a b Ha Hb; order_cases. Qed.

Lemma lt_not_nan (a b : double) :
  lt a b = true -> is_nan a = false /\ is_nan b = false.
Proof.
  unfold_cmp. destruct a, b; simpl; try discriminate; auto.
Qed.

Lemma lt_le_trans (a b c : double) :
  is_nan a = false -> is_nan b = false -> is_nan c = false ->
  lt a b = true -> le b c = true -> lt a c = true.
Proof.
  intros Ha Hb Hc. unfold_cmp.
  cmp a b Ha Hb; cmp b c Hb Hc; cmp a c Ha Hc; order_cases.
Qed.

Lemma valid_submission_priced (o : Order) :
  valid_submission o = true -> priced o.
Proof.
  unfold valid_submission. intros Hv.
  apply andb_prop in Hv as [Hv _]. apply andb_prop in Hv as [_ Hp].
  apply (lt_not_nan _ _ Hp).
Qed.

(** ** The comparators are strict weak orderings on priced orders *)

Lemma BuyOrderComparator_swo : strict_weak_on BuyOrderComparator priced.
Proof.
  unfold strict_weak_on, BuyOrderComparator, priced. repeat split.
  - intros x Hx. unfold_cmp. cmp (price x) (price x) Hx Hx; order_cases.
  - intros x y z Hx Hy Hz. unfold_cmp.
    cmp (price x) (price y) Hx Hy; cmp (price y) (price z) Hy Hz;
      cmp (price x) (price z) Hx Hz; order_cases.
  - intros x y z Hx Hy Hz. unfold_cmp.
    cmp (price x) (price y) Hx Hy; cmp (price y) (price z) Hy Hz;
      cmp (price x) (price z) Hx Hz; order_cases.
Qed.

Lemma SellOrderComparator_swo : strict_weak_on SellOrderComparator priced.
Proof.
  unfold strict_weak_on, SellOrderComparator, priced. repeat split.
  - intros x Hx. unfold_cmp. cmp (price x) (price x) Hx Hx; order_cases.
  - intros x y z Hx Hy Hz. unfold_cmp.
    cmp (price x) (price y) Hx Hy; cmp (price y) (price z) Hy Hz;
      cmp (price x) (price z) Hx Hz; order_cases.
  - intros x y z Hx Hy Hz. unfold_cmp.
    cmp (price x) (price y) Hx Hy; cmp (price y) (price z) Hy Hz;
      cmp (price x) (price z) Hx Hz; order_cases.
Qed.

(** What "not below" says about prices and timestamps. *)
Lemma SellOrderComparator_false (t x : Order) :
  priced t -> priced x -> SellOrderComparator t x = false ->
  le (price t) (price x) = true /\
  (ne (price x) (price t) = false -> timestamp t <= timestamp x).
Proof.
  unfold SellOrderComparator, priced. intros Ht Hx. unfold_cmp.
  cmp (price t) (price x) Ht Hx; simpl; zb; intros; split; intros;
    try discriminate; try reflexivity; try lia.
Qed.

Lemma BuyOrderComparator_false (t x : Order) :
  priced t -> priced x -> BuyOrderComparator t x = false ->
  le (price x) (price t) = true /\
  (ne (price x) (price t) = false -> timestamp t <= timestamp x).
Proof.
  unfold BuyOrderComparator, priced. intros Ht Hx. unfold_cmp.
  cmp (price t) (price x) Ht Hx; simpl; zb; intros; split; intros;
    try discriminate; try reflexivity; try lia.
Qed.

(** ** The front of a heap is a maximum *)

Section HeapFront.

Context {A : Type}.
Variable comp : A -> A -> bool.
Variable P : A -> Prop.
Hypothesis comp_swo : strict_weak_on comp P.

Lemma is_heap_front_nth (c : list A) (t : A) :
  Forall P c -> is_heap comp c -> hd_error c = Some t ->
  forall (i : nat) (x : A), nth_error c i = Some x -> comp t x = false.
Proof.
  destruct comp_swo as (Hirr & _ & Hneg).
  intros HP Hheap Ht i.
  induction i as [i IH] using (well_founded_induction Nat.lt_wf_0).
  intros x Hx.
  assert (Pt : P t).
  { rewrite Forall_forall in HP. apply HP. destruct c; [discriminate|].
    injection Ht as ->. now left. }
  destruct i as [|i].
  - destruct c; [discriminate|]. simpl in *. injection Ht as ->. injection Hx as ->.
    now apply Hirr.
  - assert (Hlt : (((S i - 1) / 2) < S i)%nat)
      by (apply Nat.Div0.div_lt_upper_bound; lia).
    destruct (nth_error c ((S i - 1) / 2)) as [p|] eqn:Hp.
    + rewrite Forall_forall in HP.
      apply (Hneg t p x); auto.
      * apply HP. eapply nth_error_In; eassumption.
      * apply HP. eapply nth_error_In; eassumption.
      * apply (IH _ Hlt p Hp).
      * apply (Hheap (S i) p x); auto. lia.
    + apply nth_error_None in Hp.
      assert (Hsome : nth_error c (S i) <> None) by congruence.
      apply nth_error_Some in Hsome. lia.
Qed.

Lemma is_heap_front_max (c : list A) (t : A) :
  Forall P c -> is_heap comp c -> hd_error c = Some t ->
  forall x, In x c -> comp t x = false.
Proof.
  intros HP Hheap Ht x Hx. apply In_nth_error in Hx as [i Hi].
  eapply is_heap_front_nth; eassumption.
Qed.

End HeapFront.

Lemma is_heap_nil {A : Type} (comp : A -> A -> bool) : is_heap comp [].
Proof. intros i p x _ Hp. destruct ((i - 1) / 2)%nat; discriminate. Qed.

(** ** Machine arithmetic *)

Lemma wrap_in_range (x : Z) : CInt.in_range x -> CInt.wrap x = x.
Proof.
  unfold CInt.in_range, CInt.wrap, CInt.int_min, CInt.int_max.
  change (2 ^ 31) with 2147483648. change (2 ^ 32) with 4294967296.
  intros Hx. rewrite Z.mod_small; lia.
Qed.

Lemma sub_self (a : Z) : CInt.sub a a = 0.
Proof. unfold CInt.sub. rewrite Z.sub_diag. reflexivity. Qed.

Lemma min_cases (a b : Z) :
  (b < a /\ CInt.min a b = b) \/ (a <= b /\ CInt.min a b = a).
Proof.
  unfold CInt.min. destruct (Z.ltb_spec b a); [left|right]; auto.
Qed.

(** Whatever the quantities, a resting order that keeps quantity after a
    trade has exhausted the incoming order. *)
Lemma requeue_exhausts (q r : Z) :
  0 < CInt.sub r (CInt.min q r) -> CInt.sub q (CInt.min q r) = 0.
Proof.
  destruct (min_cases q r) as [[Hlt ->]|[Hle ->]].
  - rewrite sub_self. lia.
  - intros _. apply sub_self.
Qed.

(** ** Loops *)

Section Loops.

Context {S L : Type}.
Variable body : L -> M S (loop_ctl L).

(** A loop that ended did so on a pass that decided [Break]; an invariant
    of the passes that continue holds there. *)
Lemma while_do_inv (I : L -> S -> Prop) :
  (forall l s l' s', I l s -> body l s = Ok (Continue l', s') -> I l' s') ->
  forall fuel l s l' s',
    I l s -> while_do fuel body l s = Ok (l', s') ->
    exists l0 s0, I l0 s0 /\ body l0 s0 = Ok (Break l', s').
Proof.
  intros Hstep fuel. induction fuel as [|fuel IH]; intros l s l' s' HI Hrun.
  - discriminate.
  - simpl in Hrun. unfold bind in Hrun.
    destruct (body l s) as [[[l1|l1] s1]| |] eqn:Hb; try discriminate.
    + apply (IH l1 s1); auto. eapply Hstep; eassumption.
    + unfold ret in Hrun. injection Hrun as <- <-. exists l, s. auto.
Qed.

(** More fuel does not change the result of a loop that ended. *)
Lemma while_do_fuel_mono (fuel fuel' : nat) (l : L) (s : S) (r : L * S) :
  (fuel <= fuel')%nat ->
  while_do fuel body l s = Ok r -> while_do fuel' body l s = Ok r.
Proof.
  revert fuel' l s. induction fuel as [|fuel IH]; intros fuel' l s Hle Hrun.
  - discriminate.
  - destruct fuel' as [|fuel']; [lia|].
    simpl in *. unfold bind in *.
    destruct (body l s) as [[[l1|l1] s1]| |]; try discriminate; auto.
    apply IH; auto. lia.
Qed.

(** A loop whose passes always return, and lower a measure when they
    continue, ends within that many passes and one more test. *)
Lemma while_do_terminates (measure : L -> S -> nat) :
  (forall l s, exists r s', body l s = Ok (r, s') /\
     forall l', r = Continue l' -> (measure l' s' < measure l s)%nat) ->
  forall fuel l s, (measure l s < fuel)%nat ->
    exists l' s', while_do fuel body l s = Ok (l', s').
Proof.
  intros Hbody fuel. induction fuel as [|fuel IH]; intros l s Hm; [lia|].
  simpl. unfold bind.
  destruct (Hbody l s) as (r & s1 & -> & Hdec).
  destruct r as [l1|l1].
  - apply IH. specialize (Hdec l1 eq_refl). lia.
  - exists l1, s1. reflexivity.
Qed.

End Loops.

(** ** One pass of a matching loop *)

Lemma trades_of_app (out out' : list Output) :
  trades_of (out ++ out') = trades_of out ++ trades_of out'.
Proof.
  induction out as [|line out IH]; simpl; [reflexivity|].
  destruct line; simpl; now rewrite IH.
Qed.

Section Passes.

Context `{HeapAlgorithms Order}.

(** A pass of the buy loop either leaves everything as it is and ends the
    loop (the incoming order is exhausted, no sell order rests, or the best
    sell order is priced above the limit), or trades with the best sell
    order. *)
Lemma processBuyOrder_body_spec (buyOrder : Order) (e : MatchingEngine) :
  (Engine.processBuyOrder_body buyOrder e = Ok (Break buyOrder, e) /\
   (quantity buyOrder <= 0 \/ sellOrders (orderBook e) = [] \/
    exists top, priority_queue.top (sellOrders (orderBook e)) = Some top /\
                ge (price buyOrder) (price top) = false)) \/
  (exists top rest popped,
     0 < quantity buyOrder /\
     sellOrders (orderBook e) = top :: rest /\
     ge (price buyOrder) (price top) = true /\
     pop_heap SellOrderComparator (top :: rest) = popped ++ [top] /\
     Permutation popped rest /\
     let t := mkTrade (orderID buyOrder) (orderID top) (price top)
                (traded buyOrder top) in
     Engine.processBuyOrder_body buyOrder e =
       Ok (Continue (after_trade buyOrder top buyOrder),
           {| orderBook :=
                {| buyOrders := buyOrders (orderBook e);
                   sellOrders := requeue SellOrderComparator
                                   (after_trade buyOrder top top) popped |};
              tradeLogger := logged t (tradeLogger e);
              cout := cout e ++ [TradeExecuted t] |})).
Proof.
  destruct e as [[bids asks] lg out].
  unfold Engine.processBuyOrder_body, bind, Engine.onBook, Book.hasSellOrders,
    Book.peekTopSellOrder, Book.getTopSellOrder, ret; simpl.
  destruct (Z.ltb_spec 0 (quantity buyOrder)) as [Hq|Hq]; simpl;
    [|left; split; [reflexivity|left; exact Hq]].
  destruct asks as [|top rest]; simpl;
    [left; split; [reflexivity|right; left; reflexivity]|].
  destruct (ge (price buyOrder) (price top)) eqn:Hge; simpl;
    [|left; split; [reflexivity|right; right; exists top; split; auto]].
  right. destruct (pop_heap_Permutation SellOrderComparator top rest)
    as (popped & Hpop & Hperm).
  exists top, rest, popped. repeat (split; [assumption || reflexivity|]).
  unfold priority_queue.pop, Engine.logTrade, Engine.print, bind, logged,
    after_trade, requeue, traded, Book.addSellOrder, priority_queue.push; simpl.
  rewrite Hpop, removelast_last.
  destruct lg as [opened file]; simpl.
  destruct opened; simpl;
    destruct (0 <? CInt.sub (quantity top) (CInt.min (quantity buyOrder) (quantity top)));
    reflexivity.
Qed.

(** The mirror image for the sell loop. *)
Lemma processSellOrder_body_spec (sellOrder : Order) (e : MatchingEngine) :
  (Engine.processSellOrder_body sellOrder e = Ok (Break sellOrder, e) /\
   (quantity sellOrder <= 0 \/ buyOrders (orderBook e) = [] \/
    exists top, priority_queue.top (buyOrders (orderBook e)) = Some top /\
                le (price sellOrder) (price top) = false)) \/
  (exists top rest popped,
     0 < quantity sellOrder /\
     buyOrders (orderBook e) = top :: rest /\
     le (price sellOrder) (price top) = true /\
     pop_heap BuyOrderComparator (top :: rest) = popped ++ [top] /\
     Permutation popped rest /\
     let t := mkTrade (orderID top) (orderID sellOrder) (price top)
                (traded sellOrder top) in
     Engine.processSellOrder_body sellOrder e =
       Ok (Continue (after_trade sellOrder top sellOrder),
           {| orderBook :=
                {| buyOrders := requeue BuyOrderComparator
                                  (after_trade sellOrder top top) popped;
                   sellOrders := sellOrders (orderBook e) |};
              tradeLogger := logged t (tradeLogger e);
              cout := cout e ++ [TradeExecuted t] |})).
Proof.
  destruct e as [[bids asks] lg out].
  unfold Engine.processSellOrder_body, bind, Engine.onBook, Book.hasBuyOrders,
    Book.peekTopBuyOrder, Book.getTopBuyOrder, ret; simpl.
  destruct (Z.ltb_spec 0 (quantity sellOrder)) as [Hq|Hq]; simpl;
    [|left; split; [reflexivity|left; exact Hq]].
  destruct bids as [|top rest]; simpl;
    [left; split; [reflexivity|right; left; reflexivity]|].
  destruct (le (price sellOrder) (price top)) eqn:Hle; simpl;
    [|left; split; [reflexivity|right; right; exists top; split; auto]].
  right. destruct (pop_heap_Permutation BuyOrderComparator top rest)
    as (popped & Hpop & Hperm).
  exists top, rest, popped. repeat (split; [assumption || reflexivity|]).
  unfold priority_queue.pop, Engine.logTrade, Engine.print, bind, logged,
    after_trade, requeue, traded, Book.addBuyOrder, priority_queue.push; simpl.
  rewrite Hpop, removelast_last.
  destruct lg as [opened file]; simpl.
  destruct opened; simpl;
    destruct (0 <? CInt.sub (quantity top) (CInt.min (quantity sellOrder) (quantity top)));
    reflexivity.
Qed.

End Passes.

(** ** The shape of a call *)

Section Calls.

Context `{HeapAlgorithms Order}.

Lemma processBuyOrder_body_Break (b b' : Order) (s s' : MatchingEngine) :
  Engine.processBuyOrder_body b s = Ok (Break b', s') ->
  b' = b /\ s' = s /\
  (quantity b <= 0 \/ sellOrders (orderBook s) = [] \/
   exists top, priority_queue.top (sellOrders (orderBook s)) = Some top /\
               ge (price b) (price top) = false).
Proof.
  destruct (processBuyOrder_body_spec b s)
    as [[-> Hstop]|(top & rest & popped & _ & _ & _ & _ & _ & ->)];
    intros Heq; [|discriminate].
  injection Heq as <- <-. auto.
Qed.

Lemma processBuyOrder_body_Continue (b b' : Order) (s s' : MatchingEngine) :
  Engine.processBuyOrder_body b s = Ok (Continue b', s') ->
  exists top rest popped,
    0 < quantity b /\
    sellOrders (orderBook s) = top :: rest /\
    ge (price b) (price top) = true /\
    pop_heap SellOrderComparator (top :: rest) = popped ++ [top] /\
    Permutation popped rest /\
    b' = after_trade b top b /\
    buyOrders (orderBook s') = buyOrders (orderBook s) /\
    sellOrders (orderBook s') =
      requeue SellOrderComparator (after_trade b top top) popped /\
    cout s' = cout s ++ [TradeExecuted (mkTrade (orderID b) (orderID top)
                                          (price top) (traded b top))] /\
    tradeLogger s' =
      logged (mkTrade (orderID b) (orderID top) (price top) (traded b top))
        (tradeLogger s).
Proof.
  destruct (processBuyOrder_body_spec b s)
    as [[-> Hstop]|(top & rest & popped & Hq & Hasks & Hge & Hpop & Hperm & ->)];
    intros Heq; [discriminate|].
  injection Heq as <- <-. exists top, rest, popped. simpl. auto 12.
Qed.

Lemma processSellOrder_body_Break (b b' : Order) (s s' : MatchingEngine) :
  Engine.processSellOrder_body b s = Ok (Break b', s') ->
  b' = b /\ s' = s /\
  (quantity b <= 0 \/ buyOrders (orderBook s) = [] \/
   exists top, priority_queue.top (buyOrders (orderBook s)) = Some top /\
               le (price b) (price top) = false).
Proof.
  destruct (processSellOrder_body_spec b s)
    as [[-> Hstop]|(top & rest & popped & _ & _ & _ & _ & _ & ->)];
    intros Heq; [|discriminate].
  injection Heq as <- <-. auto.
Qed.

Lemma processSellOrder_body_Continue (b b' : Order) (s s' : MatchingEngine) :
  Engine.processSellOrder_body b s = Ok (Continue b', s') ->
  exists top rest popped,
    0 < quantity b /\
    buyOrders (orderBook s) = top :: rest /\
    le (price b) (price top) = true /\
    pop_heap BuyOrderComparator (top :: rest) = popped ++ [top] /\
    Permutation popped rest /\
    b' = after_trade b top b /\
    sellOrders (orderBook s') = sellOrders (orderBook s) /\
    buyOrders (orderBook s') =
      requeue BuyOrderComparator (after_trade b top top) popped /\
    cout s' = cout s ++ [TradeExecuted (mkTrade (orderID top) (orderID b)
                                          (price top) (traded b top))] /\
    tradeLogger s' =
      logged (mkTrade (orderID top) (orderID b) (price top) (traded b top))
        (tradeLogger s).
Proof.
  destruct (processSellOrder_body_spec b s)
    as [[-> Hstop]|(top & rest & popped & Hq & Hasks & Hge & Hpop & Hperm & ->)];
    intros Heq; [discriminate|].
  injection Heq as <- <-. exists top, rest, popped. simpl. auto 12.
Qed.

(** A call of [processBuyOrder] that returned: the loop went through states
    that keep any invariant [I] of its trading passes, ended in a state
    where the pass stops, and the residual was rested from there. *)
Lemma processBuyOrder_inv (I : Order -> MatchingEngine -> Prop)
    (fuel : nat) (o : Order) (e e' : MatchingEngine) :
  (forall b s b' s', I b s ->
     Engine.processBuyOrder_body b s = Ok (Continue b', s') -> I b' s') ->
  I o e ->
  Engine.processBuyOrder fuel o e = Ok (tt, e') ->
  exists b s, I b s /\
    Engine.processBuyOrder_body b s = Ok (Break b, s) /\ e' = rest_buy b s.
Proof.
  intros Hstep HI Hrun. unfold Engine.processBuyOrder, bind in Hrun.
  destruct (while_do fuel Engine.processBuyOrder_body o e)
    as [[b s]| |] eqn:Hloop; try discriminate.
  destruct (while_do_inv _ I Hstep fuel o e b s HI Hloop) as (b0 & s0 & HI0 & Hb).
  destruct (processBuyOrder_body_Break _ _ _ _ Hb) as (-> & -> & _).
  exists b0, s0. repeat split; auto.
  unfold rest_buy. destruct (0 <? quantity b0).
  - unfold Engine.onBook, Book.addBuyOrder in Hrun. simpl in Hrun.
    now injection Hrun as <-.
  - unfold ret in Hrun. now injection Hrun as <-.
Qed.

Lemma processSellOrder_inv (I : Order -> MatchingEngine -> Prop)
    (fuel : nat) (o : Order) (e e' : MatchingEngine) :
  (forall b s b' s', I b s ->
     Engine.processSellOrder_body b s = Ok (Continue b', s') -> I b' s') ->
  I o e ->
  Engine.processSellOrder fuel o e = Ok (tt, e') ->
  exists b s, I b s /\
    Engine.processSellOrder_body b s = Ok (Break b, s) /\ e' = rest_sell b s.
Proof.
  intros Hstep HI Hrun. unfold Engine.processSellOrder, bind in Hrun.
  destruct (while_do fuel Engine.processSellOrder_body o e)
    as [[b s]| |] eqn:Hloop; try discriminate.
  destruct (while_do_inv _ I Hstep fuel o e b s HI Hloop) as (b0 & s0 & HI0 & Hb).
  destruct (processSellOrder_body_Break _ _ _ _ Hb) as (-> & -> & _).
  exists b0, s0. repeat split; auto.
  unfold rest_sell. destruct (0 <? quantity b0).
  - unfold Engine.onBook, Book.addSellOrder in Hrun. simpl in Hrun.
    now injection Hrun as <-.
  - unfold ret in Hrun. now injection Hrun as <-.
Qed.

Lemma processOrder_unfold (fuel : nat) (o : Order) (e : MatchingEngine) :
  Engine.processOrder fuel o e =
  if Engine.MAX_QTY <? quantity o then
    Ok (tt, printed (OrderRejected (quantity o)) e)
  else if is_buy o then
    Engine.processBuyOrder fuel o (printed (ProcessingNewOrder o) e)
  else
    Engine.processSellOrder fuel o (printed (ProcessingNewOrder o) e).
Proof.
  unfold Engine.processOrder, is_buy, bind, Engine.print, printed.
  destruct (Engine.MAX_QTY <? quantity o); [reflexivity|].
  destruct (String.eqb (type o) "buy"); reflexivity.
Qed.

End Calls.

Lemma trades_printed (line : Output) (e : MatchingEngine) :
  trades (printed line e) =
  trades e ++ match line with TradeExecuted t => [t] | _ => [] end.
Proof.
  unfold trades, printed; simpl. rewrite trades_of_app.
  destruct line; reflexivity.
Qed.

(** ** What one call does to the trade log and to the book *)

Section Summaries.

Context `{HeapAlgorithms Order}.

Lemma requeue_incl (comp : Order -> Order -> bool) (resting : Order)
    (popped : list Order) (x : Order) :
  In x (requeue comp resting popped) -> x = resting \/ In x popped.
Proof.
  unfold requeue. destruct (0 <? quantity resting); [|auto].
  intros Hx. apply (Permutation_in _ (push_heap_Permutation comp _)) in Hx.
  apply in_app_or in Hx as [Hx|[<-|[]]]; auto.
Qed.

Lemma processBuyOrder_summary (fuel : nat) (o : Order) (e e' : MatchingEngine) :
  Engine.processBuyOrder fuel o e = Ok (tt, e') ->
  exists b s new,
    e' = rest_buy b s /\
    b = set_quantity (quantity b) o /\
    buyOrders (orderBook s) = buyOrders (orderBook e) /\
    trades s = trades e ++ new /\
    Forall (buy_trade_ok o e) new.
Proof.
  intros Hrun.
  pose (I := fun (b : Order) (s : MatchingEngine) =>
    b = set_quantity (quantity b) o /\
    buyOrders (orderBook s) = buyOrders (orderBook e) /\
    (quantity b <= 0 \/ incl (sellOrders (orderBook s)) (sellOrders (orderBook e))) /\
    exists new, trades s = trades e ++ new /\ Forall (buy_trade_ok o e) new).
  destruct (processBuyOrder_inv I fuel o e e') as (b & s & HI & _ & He'); auto.
  - clear. intros b s b' s' (Hb & Hbids & Hincl & new & Hnew & Hok) Hstep.
    apply processBuyOrder_body_Continue in Hstep
      as (top & rest & popped & Hq & Hasks & Hge & Hpop & Hperm & -> &
          Hbids' & Hasks' & Hcout & _).
    destruct Hincl as [Hincl|Hincl]; [lia|].
    assert (Htop : In top (sellOrders (orderBook e)))
      by (apply Hincl; rewrite Hasks; now left).
    unfold I. split; [rewrite Hb; reflexivity|]. split; [congruence|]. split.
    + unfold after_trade, traded; simpl. rewrite Hasks'.
      unfold requeue, after_trade, traded; simpl.
      destruct (Z.ltb_spec 0 (CInt.sub (quantity top)
                  (CInt.min (quantity b) (quantity top)))) as [Hre|Hre].
      * left. rewrite (requeue_exhausts _ _ Hre). lia.
      * right. intros x Hx. apply Hincl. rewrite Hasks. right.
        now apply (Permutation_in _ Hperm).
    + exists (new ++ [mkTrade (orderID b) (orderID top) (price top) (traded b top)]).
      unfold trades in *. rewrite Hcout, trades_of_app, Hnew, app_assoc.
      split; [reflexivity|].
      apply Forall_app. split; [assumption|]. constructor; [|constructor].
      unfold buy_trade_ok; simpl. rewrite Hb in Hge |- *. simpl in *.
      split; [reflexivity|]. split; [exact Hge|]. exists top. auto.
  - unfold I. split; [now destruct o|]. split; [reflexivity|].
    split; [right; apply incl_refl|].
    exists []. rewrite app_nil_r. auto.
  - destruct HI as (Hb & Hbids & _ & new & Hnew & Hok).
    exists b, s, new. auto.
Qed.

Lemma processSellOrder_summary (fuel : nat) (o : Order) (e e' : MatchingEngine) :
  Engine.processSellOrder fuel o e = Ok (tt, e') ->
  exists b s new,
    e' = rest_sell b s /\
    b = set_quantity (quantity b) o /\
    sellOrders (orderBook s) = sellOrders (orderBook e) /\
    trades s = trades e ++ new /\
    Forall (sell_trade_ok o e) new.
Proof.
  intros Hrun.
  pose (I := fun (b : Order) (s : MatchingEngine) =>
    b = set_quantity (quantity b) o /\
    sellOrders (orderBook s) = sellOrders (orderBook e) /\
    (quantity b <= 0 \/ incl (buyOrders (orderBook s)) (buyOrders (orderBook e))) /\
    exists new, trades s = trades e ++ new /\ Forall (sell_trade_ok o e) new).
  destruct (processSellOrder_inv I fuel o e e') as (b & s & HI & _ & He'); auto.
  - clear. intros b s b' s' (Hb & Hasks & Hincl & new & Hnew & Hok) Hstep.
    apply processSellOrder_body_Continue in Hstep
      as (top & rest & popped & Hq & Hbids & Hle & Hpop & Hperm & -> &
          Hasks' & Hbids' & Hcout & _).
    destruct Hincl as [Hincl|Hincl]; [lia|].
    assert (Htop : In top (buyOrders (orderBook e)))
      by (apply Hincl; rewrite Hbids; now left).
    unfold I. split; [rewrite Hb; reflexivity|]. split; [congruence|]. split.
    + unfold after_trade, traded; simpl. rewrite Hbids'.
      unfold requeue, after_trade, traded; simpl.
      destruct (Z.ltb_spec 0 (CInt.sub (quantity top)
                  (CInt.min (quantity b) (quantity top)))) as [Hre|Hre].
      * left. rewrite (requeue_exhausts _ _ Hre). lia.
      * right. intros x Hx. apply Hincl. rewrite Hbids. right.
        now apply (Permutation_in _ Hperm).
    + exists (new ++ [mkTrade (orderID top) (orderID b) (price top) (traded b top)]).
      unfold trades in *. rewrite Hcout, trades_of_app, Hnew, app_assoc.
      split; [reflexivity|].
      apply Forall_app. split; [assumption|]. constructor; [|constructor].
      unfold sell_trade_ok; simpl. rewrite Hb in Hle |- *. simpl in *.
      split; [reflexivity|]. split; [exact Hle|]. exists top. auto.
  - unfold I. split; [now destruct o|]. split; [reflexivity|].
    split; [right; apply incl_refl|].
    exists []. rewrite app_nil_r. auto.
  - destruct HI as (Hb & Hasks & _ & new & Hnew & Hok).
    exists b, s, new. auto.
Qed.

End Summaries.

(** ** Trades: price, limit, frame *)

Section Trades.

Context `{HeapAlgorithms Order}.

(** What a returned call of [processOrder] did: nothing but a console line
    ([rejected]), or the call of [processBuyOrder] or [processSellOrder]. *)
Lemma processOrder_Ok (fuel : nat) (o : Order) (e e' : MatchingEngine) :
  Engine.processOrder fuel o e = Ok (tt, e') ->
  (Engine.MAX_QTY < quantity o /\ e' = printed (OrderRejected (quantity o)) e) \/
  (quantity o <= Engine.MAX_QTY /\ is_buy o = true /\
   Engine.processBuyOrder fuel o (printed (ProcessingNewOrder o) e) = Ok (tt, e')) \/
  (quantity o <= Engine.MAX_QTY /\ is_buy o = false /\
   Engine.processSellOrder fuel o (printed (ProcessingNewOrder o) e) = Ok (tt, e')).
Proof.
  rewrite processOrder_unfold.
  destruct (Z.ltb_spec Engine.MAX_QTY (quantity o)) as [Hq|Hq].
  - intros Heq. injection Heq as <-. auto.
  - destruct (is_buy o); auto.
Qed.

Lemma trades_rest_buy (b : Order) (s : MatchingEngine) :
  trades (rest_buy b s) = trades s.
Proof. unfold rest_buy. now destruct (0 <? quantity b). Qed.

Lemma trades_rest_sell (b : Order) (s : MatchingEngine) :
  trades (rest_sell b s) = trades s.
Proof. unfold rest_sell. now destruct (0 <? quantity b). Qed.

(** The trades a call of [processOrder] added to those of [e]. *)
Lemma processOrder_trades (fuel : nat) (o : Order) (e e' : MatchingEngine) :
  Engine.processOrder fuel o e = Ok (tt, e') ->
  exists new,
    trades e' = trades e ++ new /\
    (is_buy o = true -> Forall (buy_trade_ok o e) new) /\
    (is_buy o = false -> Forall (sell_trade_ok o e) new).
Proof.
  intros Hrun.
  destruct (processOrder_Ok _ _ _ _ Hrun)
    as [[_ ->]|[(_ & Hside & Hcall)|(_ & Hside & Hcall)]].
  - exists []. rewrite trades_printed, !app_nil_r. auto.
  - apply processBuyOrder_summary in Hcall as (b & s & new & -> & _ & _ & Hnew & Hok).
    exists new. rewrite trades_rest_buy, Hnew, trades_printed, app_nil_r.
    repeat split; auto. congruence.
  - apply processSellOrder_summary in Hcall as (b & s & new & -> & _ & _ & Hnew & Hok).
    exists new. rewrite trades_rest_sell, Hnew, trades_printed, app_nil_r.
    repeat split; auto. congruence.
Qed.

End Trades.

(** ** Quantities *)

Lemma resting_quantity_app (c c' : list Order) :
  resting_quantity (c ++ c') = resting_quantity c + resting_quantity c'.
Proof. induction c as [|o c IH]; simpl; [reflexivity|]. rewrite IH. lia. Qed.

Lemma resting_quantity_Permutation (c c' : list Order) :
  Permutation c c' -> resting_quantity c = resting_quantity c'.
Proof. induction 1; simpl; lia. Qed.

Lemma filled_quantity_app (ts ts' : list Trade) :
  filled_quantity (ts ++ ts') = filled_quantity ts + filled_quantity ts'.
Proof. induction ts as [|t ts IH]; simpl; [reflexivity|]. rewrite IH. lia. Qed.

Lemma resting_ok_nonneg (c : list Order) :
  resting_ok c -> 0 <= resting_quantity c.
Proof. induction 1; simpl; lia. Qed.

(** A trade with a resting order of positive quantity: the traded quantity
    is positive, at most the quantity of either order, and the resting order
    keeps the difference, without overflow. *)
Lemma traded_resting (b top : Order) :
  0 < quantity b -> 0 < quantity top <= CInt.int_max ->
  0 < traded b top <= quantity b /\
  quantity (after_trade b top top) = quantity top - traded b top /\
  0 <= quantity (after_trade b top top) < quantity top.
Proof.
  intros Hb Htop. unfold after_trade, traded, CInt.sub; simpl.
  assert (Hmin : CInt.int_min <= 0) by (unfold CInt.int_min; simpl; lia).
  destruct (min_cases (quantity b) (quantity top)) as [[Hlt ->]|[Hle ->]];
    rewrite wrap_in_range; unfold CInt.in_range; lia.
Qed.

Section Quantities.

Context `{HeapAlgorithms Order}.

Lemma requeue_resting_ok (comp : Order -> Order -> bool) (resting : Order)
    (popped : list Order) :
  quantity resting <= CInt.int_max -> resting_ok popped ->
  resting_ok (requeue comp resting popped).
Proof.
  intros Hmax Hok. unfold requeue.
  destruct (Z.ltb_spec 0 (quantity resting)) as [Hq|Hq]; [|exact Hok].
  apply (Permutation_Forall (x := popped ++ [resting])).
  - symmetry. apply push_heap_Permutation.
  - apply Forall_app. split; [exact Hok|]. constructor; [lia|constructor].
Qed.

Lemma requeue_resting_quantity (comp : Order -> Order -> bool) (resting : Order)
    (popped : list Order) :
  0 <= quantity resting ->
  resting_quantity (requeue comp resting popped)
  = resting_quantity popped + quantity resting.
Proof.
  intros Hq. unfold requeue.
  destruct (Z.ltb_spec 0 (quantity resting)) as [Hpos|Hpos]; [|lia].
  rewrite (resting_quantity_Permutation _ _ (push_heap_Permutation comp _)).
  rewrite resting_quantity_app. simpl. lia.
Qed.

(** A pass of the buy loop that trades, on a book of positive quantities:
    the quantities stay positive, the buy side is untouched, and the traded
    quantity [m] leaves the sell side and enters the trade log. *)
Lemma processBuyOrder_body_quantities (b b' : Order) (s s' : MatchingEngine) :
  quantities_ok (orderBook s) ->
  Engine.processBuyOrder_body b s = Ok (Continue b', s') ->
  exists m,
    0 < m <= quantity b /\
    quantity b' = CInt.sub (quantity b) m /\
    quantities_ok (orderBook s') /\
    buyOrders (orderBook s') = buyOrders (orderBook s) /\
    resting_quantity (sellOrders (orderBook s'))
      = resting_quantity (sellOrders (orderBook s)) - m /\
    filled_quantity (trades s') = filled_quantity (trades s) + m.
Proof.
  intros [Hbids Hasks] Hstep.
  apply processBuyOrder_body_Continue in Hstep
    as (top & rest & popped & Hq & Ha & _ & _ & Hperm & -> & Hbids' & Hasks' &
        Hcout & _).
  rewrite Ha in Hasks. inversion Hasks as [|? ? Htop Hrest]; subst.
  destruct (traded_resting b top Hq Htop) as (Hm & Hleft & Hrange).
  exists (traded b top). split; [exact Hm|]. split; [reflexivity|].
  assert (Hpopped : resting_ok popped)
    by (apply (Permutation_Forall (x := rest)); [now symmetry|assumption]).
  split; [|split; [exact Hbids'|split]].
  - split; [now rewrite Hbids'|]. rewrite Hasks'.
    apply requeue_resting_ok; [lia|exact Hpopped].
  - rewrite Hasks'. rewrite requeue_resting_quantity by lia. rewrite Ha, Hleft. simpl.
    rewrite (resting_quantity_Permutation _ _ Hperm). lia.
  - unfold trades. rewrite Hcout, trades_of_app, filled_quantity_app. simpl. lia.
Qed.

Lemma processSellOrder_body_quantities (b b' : Order) (s s' : MatchingEngine) :
  quantities_ok (orderBook s) ->
  Engine.processSellOrder_body b s = Ok (Continue b', s') ->
  exists m,
    0 < m <= quantity b /\
    quantity b' = CInt.sub (quantity b) m /\
    quantities_ok (orderBook s') /\
    sellOrders (orderBook s') = sellOrders (orderBook s) /\
    resting_quantity (buyOrders (orderBook s'))
      = resting_quantity (buyOrders (orderBook s)) - m /\
    filled_quantity (trades s') = filled_quantity (trades s) + m.
Proof.
  intros [Hbids Hasks] Hstep.
  apply processSellOrder_body_Continue in Hstep
    as (top & rest & popped & Hq & Hb & _ & _ & Hperm & -> & Hasks' & Hbids' &
        Hcout & _).
  rewrite Hb in Hbids. inversion Hbids as [|? ? Htop Hrest]; subst.
  destruct (traded_resting b top Hq Htop) as (Hm & Hleft & Hrange).
  exists (traded b top). split; [exact Hm|]. split; [reflexivity|].
  assert (Hpopped : resting_ok popped)
    by (apply (Permutation_Forall (x := rest)); [now symmetry|assumption]).
  split; [|split; [exact Hasks'|split]].
  - split; [|now rewrite Hasks']. rewrite Hbids'.
    apply requeue_resting_ok; [lia|exact Hpopped].
  - rewrite Hbids'. rewrite requeue_resting_quantity by lia. rewrite Hb, Hleft. simpl.
    rewrite (resting_quantity_Permutation _ _ Hperm). lia.
  - unfold trades. rewrite Hcout, trades_of_app, filled_quantity_app. simpl. lia.
Qed.

End Quantities.

(** ** Termination *)

Section Termination.

Context `{HeapAlgorithms Order}.

Lemma requeue_length (comp : Order -> Order -> bool) (resting : Order)
    (popped : list Order) :
  List.length (requeue comp resting popped)
  = (List.length popped + (if (0 <? quantity resting)%Z then 1 else 0))%nat.
Proof.
  unfold requeue. destruct (0 <? quantity resting); [|lia].
  rewrite (Permutation_length (push_heap_Permutation comp _)).
  rewrite length_app. reflexivity.
Qed.

Lemma processBuyOrder_body_measure (b : Order) (s : MatchingEngine) :
  exists r s', Engine.processBuyOrder_body b s = Ok (r, s') /\
    forall b', r = Continue b' -> (buy_measure b' s' < buy_measure b s)%nat.
Proof.
  destruct (processBuyOrder_body_spec b s)
    as [[Hb _]|(top & rest & popped & Hq & Hasks & _ & _ & Hperm & Hb)].
  - exists (Break b), s. split; [exact Hb|discriminate].
  - eexists _, _. split; [exact Hb|]. intros b' Hb'. injection Hb' as <-.
    unfold buy_measure; simpl. rewrite requeue_length, Hasks; simpl.
    rewrite (Permutation_length Hperm).
    destruct (Z.ltb_spec 0 (quantity b)); [|lia].
    unfold after_trade, traded; simpl.
    destruct (Z.ltb_spec 0 (CInt.sub (quantity top)
                (CInt.min (quantity b) (quantity top)))) as [Hre|Hre].
    + rewrite (requeue_exhausts _ _ Hre). simpl. lia.
    + destruct (0 <? _); lia.
Qed.

Lemma processSellOrder_body_measure (b : Order) (s : MatchingEngine) :
  exists r s', Engine.processSellOrder_body b s = Ok (r, s') /\
    forall b', r = Continue b' -> (sell_measure b' s' < sell_measure b s)%nat.
Proof.
  destruct (processSellOrder_body_spec b s)
    as [[Hb _]|(top & rest & popped & Hq & Hbids & _ & _ & Hperm & Hb)].
  - exists (Break b), s. split; [exact Hb|discriminate].
  - eexists _, _. split; [exact Hb|]. intros b' Hb'. injection Hb' as <-.
    unfold sell_measure; simpl. rewrite requeue_length, Hbids; simpl.
    rewrite (Permutation_length Hperm).
    destruct (Z.ltb_spec 0 (quantity b)); [|lia].
    unfold after_trade, traded; simpl.
    destruct (Z.ltb_spec 0 (CInt.sub (quantity top)
                (CInt.min (quantity b) (quantity top)))) as [Hre|Hre].
    + rewrite (requeue_exhausts _ _ Hre). simpl. lia.
    + destruct (0 <? _); lia.
Qed.

Lemma processBuyOrder_terminates (fuel : nat) (o : Order) (e : MatchingEngine) :
  (buy_measure o e < fuel)%nat ->
  exists e', Engine.processBuyOrder fuel o e = Ok (tt, e').
Proof.
  intros Hfuel.
  destruct (while_do_terminates Engine.processBuyOrder_body buy_measure
              processBuyOrder_body_measure fuel o e Hfuel) as (b & s & Hloop).
  unfold Engine.processBuyOrder, bind. rewrite Hloop.
  destruct (0 <? quantity b); eexists; reflexivity.
Qed.

Lemma processSellOrder_terminates (fuel : nat) (o : Order) (e : MatchingEngine) :
  (sell_measure o e < fuel)%nat ->
  exists e', Engine.processSellOrder fuel o e = Ok (tt, e').
Proof.
  intros Hfuel.
  destruct (while_do_terminates Engine.processSellOrder_body sell_measure
              processSellOrder_body_measure fuel o e Hfuel) as (b & s & Hloop).
  unfold Engine.processSellOrder, bind. rewrite Hloop.
  destruct (0 <? quantity b); eexists; reflexivity.
Qed.

Lemma processOrder_terminates (fuel : nat) (o : Order) (e : MatchingEngine) :
  (passes_bound (orderBook e) <= fuel)%nat ->
  exists e', Engine.processOrder fuel o e = Ok (tt, e').
Proof.
  intros Hfuel. rewrite processOrder_unfold.
  destruct (Engine.MAX_QTY <? quantity o); [eexists; reflexivity|].
  destruct (is_buy o).
  - apply processBuyOrder_terminates. unfold buy_measure, passes_bound in *.
    simpl. destruct (0 <? quantity o); lia.
  - apply processSellOrder_terminates. unfold sell_measure, passes_bound in *.
    simpl. destruct (0 <? quantity o); lia.
Qed.

(** A call adds at most one order to the book. *)
Lemma processOrder_passes_bound (fuel : nat) (o : Order) (e e' : MatchingEngine) :
  Engine.processOrder fuel o e = Ok (tt, e') ->
  (passes_bound (orderBook e') <= passes_bound (orderBook e) + 2)%nat.
Proof.
  intros Hrun.
  destruct (processOrder_Ok _ _ _ _ Hrun)
    as [[_ ->]|[(_ & _ & Hcall)|(_ & _ & Hcall)]].
  - simpl. lia.
  - pose (I := fun (b : Order) (s : MatchingEngine) =>
      buyOrders (orderBook s) = buyOrders (orderBook e) /\
      (List.length (sellOrders (orderBook s)) <= List.length (sellOrders (orderBook e)))%nat).
    destruct (processBuyOrder_inv I fuel o (printed (ProcessingNewOrder o) e) e')
      as (b & s & [Hbids Hlen] & _ & ->); [| |exact Hcall|].
    + clear. intros b s b' s' [Hbids Hlen] Hstep.
      apply processBuyOrder_body_Continue in Hstep
        as (top & rest & popped & _ & Hasks & _ & _ & Hperm & _ & Hbids' & Hasks' & _).
      split; [congruence|]. rewrite Hasks', requeue_length.
      rewrite (Permutation_length Hperm). rewrite Hasks in Hlen. simpl in Hlen.
      destruct (0 <? _); lia.
    + split; simpl; auto.
    + unfold passes_bound, rest_buy. destruct (0 <? quantity b); simpl.
      * unfold priority_queue.push.
        rewrite (Permutation_length (push_heap_Permutation _ _)), length_app, Hbids.
        simpl. lia.
      * rewrite Hbids. lia.
  - pose (I := fun (b : Order) (s : MatchingEngine) =>
      sellOrders (orderBook s) = sellOrders (orderBook e) /\
      (List.length (buyOrders (orderBook s)) <= List.length (buyOrders (orderBook e)))%nat).
    destruct (processSellOrder_inv I fuel o (printed (ProcessingNewOrder o) e) e')
      as (b & s & [Hasks Hlen] & _ & ->); [| |exact Hcall|].
    + clear. intros b s b' s' [Hasks Hlen] Hstep.
      apply processSellOrder_body_Continue in Hstep
        as (top & rest & popped & _ & Hbids & _ & _ & Hperm & _ & Hasks' & Hbids' & _).
      split; [congruence|]. rewrite Hbids', requeue_length.
      rewrite (Permutation_length Hperm). rewrite Hbids in Hlen. simpl in Hlen.
      destruct (0 <? _); lia.
    + split; simpl; auto.
    + unfold passes_bound, rest_sell. destruct (0 <? quantity b); simpl.
      * unfold priority_queue.push.
        rewrite (Permutation_length (push_heap_Permutation _ _)), length_app, Hasks.
        simpl. lia.
      * rewrite Hasks. lia.
Qed.

(** A stream of submissions is processed to its end, given fuel for the
    book it grows. *)
Lemma processOrders_terminates (orders : list Order) (e : MatchingEngine)
    (fuel : nat) :
  (passes_bound (orderBook e) + 2 * List.length orders <= fuel)%nat ->
  exists e', Engine.processOrders fuel orders e = Ok (tt, e').
Proof.
  revert e. induction orders as [|o orders IH]; intros e Hfuel; simpl.
  - eexists; reflexivity.
  - simpl in Hfuel.
    destruct (processOrder_terminates fuel o e) as (e1 & He1); [lia|].
    unfold bind. rewrite He1.
    apply IH. pose proof (processOrder_passes_bound _ _ _ _ He1). lia.
Qed.

(** An invariant of [processOrder] on the submissions that satisfy [P] is
    an invariant of the streams of such submissions. *)
Lemma processOrders_invariant (P : Order -> Prop) (I : MatchingEngine -> Prop) :
  (forall fuel o e e', P o -> I e ->
     Engine.processOrder fuel o e = Ok (tt, e') -> I e') ->
  forall fuel orders e e',
    Forall P orders -> I e ->
    Engine.processOrders fuel orders e = Ok (tt, e') -> I e'.
Proof.
  intros Hstep fuel orders. induction orders as [|o orders IH];
    intros e e' HP HI; simpl.
  - unfold ret. intros Heq. now injection Heq as <-.
  - unfold bind. inversion HP; subst.
    destruct (Engine.processOrder fuel o e) as [[[] e1]| |] eqn:He1;
      try discriminate.
    apply IH; auto. eapply Hstep; eassumption.
Qed.

End Termination.

(** ** The fuel is not observed *)

Section Fuel.

Context `{HeapAlgorithms Order}.

(** A call that returned returns the same with more fuel. *)
Lemma processOrder_fuel_mono (fuel fuel' : nat) (o : Order)
    (e : MatchingEngine) (r : void * MatchingEngine) :
  (fuel <= fuel')%nat ->
  Engine.processOrder fuel o e = Ok r -> Engine.processOrder fuel' o e = Ok r.
Proof.
  intros Hle. rewrite !processOrder_unfold.
  destruct (Engine.MAX_QTY <? quantity o); [auto|].
  destruct (is_buy o).
  - unfold Engine.processBuyOrder, bind.
    destruct (while_do fuel Engine.processBuyOrder_body o _) as [[b s]| |] eqn:Hloop;
      try discriminate.
    now rewrite (while_do_fuel_mono _ fuel fuel' _ _ _ Hle Hloop).
  - unfold Engine.processSellOrder, bind.
    destruct (while_do fuel Engine.processSellOrder_body o _) as [[b s]| |] eqn:Hloop;
      try discriminate.
    now rewrite (while_do_fuel_mono _ fuel fuel' _ _ _ Hle Hloop).
Qed.

Lemma processOrders_fuel_mono (fuel fuel' : nat) (orders : list Order)
    (e : MatchingEngine) (r : void * MatchingEngine) :
  (fuel <= fuel')%nat ->
  Engine.processOrders fuel orders e = Ok r ->
  Engine.processOrders fuel' orders e = Ok r.
Proof.
  intros Hle. revert e. induction orders as [|o orders IH]; intros e; simpl.
  - auto.
  - unfold bind.
    destruct (Engine.processOrder fuel o e) as [[[] e1]| |] eqn:He1;
      try discriminate.
    rewrite (processOrder_fuel_mono fuel fuel' o e _ Hle He1). apply IH.
Qed.

End Fuel.

(** ** Conservation of quantity *)

Section Conservation.

Context `{HeapAlgorithms Order}.

Lemma rest_buy_quantities (b : Order) (s : MatchingEngine) :
  quantities_ok (orderBook s) -> quantity b <= Engine.MAX_QTY ->
  quantities_ok (orderBook (rest_buy b s)) /\
  resting_quantity (buyOrders (orderBook (rest_buy b s)))
    = resting_quantity (buyOrders (orderBook s)) + Z.max 0 (quantity b) /\
  sellOrders (orderBook (rest_buy b s)) = sellOrders (orderBook s).
Proof.
  intros [Hbids Hasks] Hmax. unfold rest_buy.
  destruct (Z.ltb_spec 0 (quantity b)) as [Hq|Hq]; simpl.
  - unfold priority_queue.push.
    pose proof (push_heap_Permutation BuyOrderComparator
                  (buyOrders (orderBook s) ++ [b])) as Hperm.
    repeat split; auto.
    + apply (Permutation_Forall (x := buyOrders (orderBook s) ++ [b]));
        [now symmetry|].
      apply Forall_app. split; [exact Hbids|]. constructor; [|constructor].
      unfold Engine.MAX_QTY, CInt.int_max in *. simpl. lia.
    + rewrite (resting_quantity_Permutation _ _ Hperm), resting_quantity_app.
      simpl. lia.
  - repeat split; auto. lia.
Qed.

Lemma rest_sell_quantities (b : Order) (s : MatchingEngine) :
  quantities_ok (orderBook s) -> quantity b <= Engine.MAX_QTY ->
  quantities_ok (orderBook (rest_sell b s)) /\
  resting_quantity (sellOrders (orderBook (rest_sell b s)))
    = resting_quantity (sellOrders (orderBook s)) + Z.max 0 (quantity b) /\
  buyOrders (orderBook (rest_sell b s)) = buyOrders (orderBook s).
Proof.
  intros [Hbids Hasks] Hmax. unfold rest_sell.
  destruct (Z.ltb_spec 0 (quantity b)) as [Hq|Hq]; simpl.
  - unfold priority_queue.push.
    pose proof (push_heap_Permutation SellOrderComparator
                  (sellOrders (orderBook s) ++ [b])) as Hperm.
    repeat split; auto.
    + apply (Permutation_Forall (x := sellOrders (orderBook s) ++ [b]));
        [now symmetry|].
      apply Forall_app. split; [exact Hasks|]. constructor; [|constructor].
      unfold Engine.MAX_QTY, CInt.int_max in *. simpl. lia.
    + rewrite (resting_quantity_Permutation _ _ Hperm), resting_quantity_app.
      simpl. lia.
  - repeat split; auto. lia.
Qed.

(** The incoming order of a pass, when it is within the risk limit, goes
    down by the traded quantity without overflow. *)
Lemma sub_traded (q m : Z) :
  0 < m <= q -> q <= Engine.MAX_QTY -> CInt.sub q m = q - m.
Proof.
  intros Hm Hq. unfold CInt.sub. apply wrap_in_range.
  unfold CInt.in_range, CInt.int_min, CInt.int_max, Engine.MAX_QTY in *.
  simpl. lia.
Qed.

Lemma processBuyOrder_quantities (fuel : nat) (o : Order) (e e' : MatchingEngine) :
  quantities_ok (orderBook e) -> quantity o <= Engine.MAX_QTY ->
  Engine.processBuyOrder fuel o e = Ok (tt, e') ->
  quantities_ok (orderBook e') /\
  resting_quantity (buyOrders (orderBook e')) + filled_quantity (trades e')
    = resting_quantity (buyOrders (orderBook e)) + filled_quantity (trades e)
      + Z.max 0 (quantity o) /\
  resting_quantity (sellOrders (orderBook e')) + filled_quantity (trades e')
    = resting_quantity (sellOrders (orderBook e)) + filled_quantity (trades e).
Proof.
  intros Hok Hmax Hrun.
  pose (I := fun (b : Order) (s : MatchingEngine) =>
    quantities_ok (orderBook s) /\
    buyOrders (orderBook s) = buyOrders (orderBook e) /\
    quantity b <= quantity o /\
    (0 <= quantity b \/ filled_quantity (trades s) = filled_quantity (trades e) /\
                        quantity b = quantity o) /\
    filled_quantity (trades s) + quantity b
      = filled_quantity (trades e) + quantity o /\
    resting_quantity (sellOrders (orderBook s)) + filled_quantity (trades s)
      = resting_quantity (sellOrders (orderBook e)) + filled_quantity (trades e)).
  destruct (processBuyOrder_inv I fuel o e e')
    as (b & s & (Hs & Hbids & Hle & Hsign & Hfill & Hasks) & _ & ->);
    [| |exact Hrun|].
  - clear Hrun. intros b s b' s' (Hs & Hbids & Hle & Hsign & Hfill & Hasks) Hstep.
    destruct (processBuyOrder_body_quantities _ _ _ _ Hs Hstep)
      as (m & Hm & Hb' & Hs' & Hbids' & Hasks' & Hfill').
    rewrite sub_traded in Hb' by lia.
    unfold I. repeat split; try (apply Hs'); try congruence; try lia.
  - unfold I. repeat split; try (apply Hok); auto; lia.
  - destruct (rest_buy_quantities b s Hs) as (Hok' & Hrest & Hsame); [lia|].
    rewrite trades_rest_buy, Hrest, Hsame, Hbids.
    split; [exact Hok'|]. split; lia.
Qed.

Lemma processSellOrder_quantities (fuel : nat) (o : Order) (e e' : MatchingEngine) :
  quantities_ok (orderBook e) -> quantity o <= Engine.MAX_QTY ->
  Engine.processSellOrder fuel o e = Ok (tt, e') ->
  quantities_ok (orderBook e') /\
  resting_quantity (buyOrders (orderBook e')) + filled_quantity (trades e')
    = resting_quantity (buyOrders (orderBook e)) + filled_quantity (trades e) /\
  resting_quantity (sellOrders (orderBook e')) + filled_quantity (trades e')
    = resting_quantity (sellOrders (orderBook e)) + filled_quantity (trades e)
      + Z.max 0 (quantity o).
Proof.
  intros Hok Hmax Hrun.
  pose (I := fun (b : Order) (s : MatchingEngine) =>
    quantities_ok (orderBook s) /\
    sellOrders (orderBook s) = sellOrders (orderBook e) /\
    quantity b <= quantity o /\
    (0 <= quantity b \/ filled_quantity (trades s) = filled_quantity (trades e) /\
                        quantity b = quantity o) /\
    filled_quantity (trades s) + quantity b
      = filled_quantity (trades e) + quantity o /\
    resting_quantity (buyOrders (orderBook s)) + filled_quantity (trades s)
      = resting_quantity (buyOrders (orderBook e)) + filled_quantity (trades e)).
  destruct (processSellOrder_inv I fuel o e e')
    as (b & s & (Hs & Hasks & Hle & Hsign & Hfill & Hbids) & _ & ->);
    [| |exact Hrun|].
  - clear Hrun. intros b s b' s' (Hs & Hasks & Hle & Hsign & Hfill & Hbids) Hstep.
    destruct (processSellOrder_body_quantities _ _ _ _ Hs Hstep)
      as (m & Hm & Hb' & Hs' & Hasks' & Hbids' & Hfill').
    rewrite sub_traded in Hb' by lia.
    unfold I. repeat split; try (apply Hs'); try congruence; try lia.
  - unfold I. repeat split; try (apply Hok); auto; lia.
  - destruct (rest_sell_quantities b s Hs) as (Hok' & Hrest & Hsame); [lia|].
    rewrite trades_rest_sell, Hrest, Hsame, Hasks.
    split; [exact Hok'|]. split; lia.
Qed.

(** One call: the book keeps positive quantities, and on each side what
    rests and what was filled grow together by what the submission brought
    to that side. *)
Lemma processOrder_quantities (fuel : nat) (o : Order) (e e' : MatchingEngine) :
  quantities_ok (orderBook e) ->
  Engine.processOrder fuel o e = Ok (tt, e') ->
  quantities_ok (orderBook e') /\
  resting_quantity (buyOrders (orderBook e')) + filled_quantity (trades e')
    = resting_quantity (buyOrders (orderBook e)) + filled_quantity (trades e)
      + brought true o /\
  resting_quantity (sellOrders (orderBook e')) + filled_quantity (trades e')
    = resting_quantity (sellOrders (orderBook e)) + filled_quantity (trades e)
      + brought false o.
Proof.
  intros Hok Hrun. unfold brought, admitted.
  destruct (processOrder_Ok _ _ _ _ Hrun)
    as [[Hq ->]|[(Hq & Hside & Hcall)|(Hq & Hside & Hcall)]].
  - apply Z.ltb_lt in Hq. rewrite Hq, trades_printed, app_nil_r. simpl.
    split; [exact Hok|]. split; lia.
  - apply Z.ltb_ge in Hq. rewrite Hq, Hside. simpl.
    apply processBuyOrder_quantities in Hcall; auto; [|now apply Z.ltb_ge].
    rewrite trades_printed, app_nil_r in Hcall. simpl in Hcall.
    destruct Hcall as (Hok' & Hb & Hs). split; [exact Hok'|]. split; lia.
  - apply Z.ltb_ge in Hq. rewrite Hq, Hside. simpl.
    apply processSellOrder_quantities in Hcall; auto; [|now apply Z.ltb_ge].
    rewrite trades_printed, app_nil_r in Hcall. simpl in Hcall.
    destruct Hcall as (Hok' & Hb & Hs). split; [exact Hok'|]. split; lia.
Qed.

Lemma new_quantities_ok (opened : bool) :
  quantities_ok (orderBook (Engine.new opened)).
Proof. split; constructor. Qed.

(** Every book the engine reaches from an empty one holds positive
    quantities only. *)
Lemma processOrders_quantities_ok (opened : bool) (fuel : nat)
    (orders : list Order) (e : MatchingEngine) :
  Engine.processOrders fuel orders (Engine.new opened) = Ok (tt, e) ->
  quantities_ok (orderBook e).
Proof.
  apply (processOrders_invariant (fun _ => True)
           (fun e => quantities_ok (orderBook e))).
  - intros f o e0 e1 _ Hok Hrun.
    now destruct (processOrder_quantities _ _ _ _ Hok Hrun).
  - rewrite Forall_forall. auto.
  - apply new_quantities_ok.
Qed.

End Conservation.

Lemma admitted_quantity_brought (buy_side : bool) (orders : list Order) :
  Forall (fun o => 0 <= quantity o) orders ->
  admitted_quantity buy_side orders
  = fold_right (fun o acc => brought buy_side o + acc) 0 orders.
Proof.
  induction 1 as [|o orders Hq _ IH]; simpl; [reflexivity|].
  rewrite IH. unfold brought.
  destruct (admitted o && Bool.eqb (is_buy o) buy_side); lia.
Qed.

Lemma processOrders_quantities `{HeapAlgorithms Order} (fuel : nat)
    (orders : list Order) (e e' : MatchingEngine) :
  quantities_ok (orderBook e) ->
  Engine.processOrders fuel orders e = Ok (tt, e') ->
  resting_quantity (buyOrders (orderBook e')) + filled_quantity (trades e')
    = resting_quantity (buyOrders (orderBook e)) + filled_quantity (trades e)
      + fold_right (fun o acc => brought true o + acc) 0 orders /\
  resting_quantity (sellOrders (orderBook e')) + filled_quantity (trades e')
    = resting_quantity (sellOrders (orderBook e)) + filled_quantity (trades e)
      + fold_right (fun o acc => brought false o + acc) 0 orders.
Proof.
  revert e. induction orders as [|o orders IH]; intros e Hok; simpl.
  - unfold ret. intros Heq. injection Heq as <-. lia.
  - unfold bind.
    destruct (Engine.processOrder fuel o e) as [[[] e1]| |] eqn:He1;
      try discriminate.
    intros Hrun.
    destruct (processOrder_quantities _ _ _ _ Hok He1) as (Hok1 & Hb & Hs).
    destruct (IH e1 Hok1 Hrun) as [Hb' Hs']. lia.
Qed.

(** ** The book stays a pair of heaps, and uncrossed *)

Section Uncrossed.

Context `{HeapAlgorithms Order}.

(** The opposite side after a trade is a heap again, over priced orders. *)
Lemma requeue_heap (comp : Order -> Order -> bool) (top resting : Order)
    (rest popped : list Order) :
  strict_weak_on comp priced ->
  Forall priced (top :: rest) -> is_heap comp (top :: rest) ->
  pop_heap comp (top :: rest) = popped ++ [top] -> Permutation popped rest ->
  priced resting ->
  is_heap comp (requeue comp resting popped) /\
  Forall priced (requeue comp resting popped).
Proof.
  intros Hswo HP Hheap Hpop Hperm Hresting.
  assert (Hpopped : is_heap comp popped).
  { pose proof (pop_heap_is_heap comp priced (top :: rest) Hswo HP Hheap) as Hh.
    now rewrite Hpop, removelast_last in Hh. }
  assert (HPpopped : Forall priced popped).
  { apply (Permutation_Forall (x := rest)); [now symmetry|]. now inversion HP. }
  assert (HPall : Forall priced (popped ++ [resting])).
  { apply Forall_app. split; [exact HPpopped|]. now constructor. }
  unfold requeue. destruct (0 <? quantity resting); [|auto].
  split.
  - now apply (push_heap_is_heap comp priced).
  - apply (Permutation_Forall (x := popped ++ [resting])); [|exact HPall].
    symmetry. apply push_heap_Permutation.
Qed.

Lemma push_heap_ok (comp : Order -> Order -> bool) (b : Order) (c : list Order) :
  strict_weak_on comp priced -> Forall priced c -> is_heap comp c -> priced b ->
  is_heap comp (priority_queue.push comp b c) /\
  Forall priced (priority_queue.push comp b c).
Proof.
  intros Hswo HP Hheap Hb. unfold priority_queue.push.
  assert (HPall : Forall priced (c ++ [b])).
  { apply Forall_app. split; [exact HP|]. now constructor. }
  split.
  - now apply (push_heap_is_heap comp priced).
  - apply (Permutation_Forall (x := c ++ [b])); [|exact HPall].
    symmetry. apply push_heap_Permutation.
Qed.

(** A pass of the buy loop that trades keeps the book a pair of heaps and
    free of crossing pairs. *)
Lemma processBuyOrder_body_book (b b' : Order) (s s' : MatchingEngine) :
  heap_ok (orderBook s) ->
  Engine.processBuyOrder_body b s = Ok (Continue b', s') ->
  price b' = price b /\
  heap_ok (orderBook s') /\
  (cross_free (orderBook s) -> cross_free (orderBook s')).
Proof.
  intros (Hbids & Hasks & HPbids & HPasks) Hstep.
  apply processBuyOrder_body_Continue in Hstep
    as (top & rest & popped & _ & Ha & _ & Hpop & Hperm & -> & Hbids' & Hasks' & _).
  rewrite Ha in *.
  assert (Htop : priced (after_trade b top top)) by now inversion HPasks.
  destruct (requeue_heap SellOrderComparator top (after_trade b top top) rest popped
              SellOrderComparator_swo HPasks Hasks Hpop Hperm Htop) as [Hh HP].
  split; [reflexivity|]. split.
  - unfold heap_ok. rewrite Hbids', Hasks'. auto.
  - intros Hfree x y Hx Hy. rewrite Hbids' in Hx. rewrite Hasks' in Hy.
    apply requeue_incl in Hy as [->|Hy].
    + apply (Hfree x top Hx). rewrite Ha. now left.
    + apply (Hfree x y Hx). rewrite Ha. right.
      now apply (Permutation_in _ Hperm).
Qed.

Lemma processSellOrder_body_book (b b' : Order) (s s' : MatchingEngine) :
  heap_ok (orderBook s) ->
  Engine.processSellOrder_body b s = Ok (Continue b', s') ->
  price b' = price b /\
  heap_ok (orderBook s') /\
  (cross_free (orderBook s) -> cross_free (orderBook s')).
Proof.
  intros (Hbids & Hasks & HPbids & HPasks) Hstep.
  apply processSellOrder_body_Continue in Hstep
    as (top & rest & popped & _ & Hb & _ & Hpop & Hperm & -> & Hasks' & Hbids' & _).
  rewrite Hb in *.
  assert (Htop : priced (after_trade b top top)) by now inversion HPbids.
  destruct (requeue_heap BuyOrderComparator top (after_trade b top top) rest popped
              BuyOrderComparator_swo HPbids Hbids Hpop Hperm Htop) as [Hh HP].
  split; [reflexivity|]. split.
  - unfold heap_ok. rewrite Hbids', Hasks'. auto.
  - intros Hfree x y Hx Hy. rewrite Hasks' in Hy. rewrite Hbids' in Hx.
    apply requeue_incl in Hx as [->|Hx].
    + apply (Hfree top y); [|exact Hy]. rewrite Hb. now left.
    + apply (Hfree x y); [|exact Hy]. rewrite Hb. right.
      now apply (Permutation_in _ Hperm).
Qed.

(** Where the buy loop stops with quantity left, the incoming order is
    priced below every resting sell order. *)
Lemma processBuyOrder_body_stop (b : Order) (s : MatchingEngine) :
  priced b -> heap_ok (orderBook s) -> 0 < quantity b ->
  Engine.processBuyOrder_body b s = Ok (Break b, s) ->
  forall y, In y (sellOrders (orderBook s)) -> lt (price b) (price y) = true.
Proof.
  intros Hb (_ & Hasks & _ & HPasks) Hq Hstep y Hy.
  apply processBuyOrder_body_Break in Hstep as (_ & _ & [Hstop|[Hstop|Hstop]]).
  - lia.
  - rewrite Hstop in Hy. destruct Hy.
  - destruct Hstop as (top & Htop & Hge).
    assert (HPtop : priced top).
    { rewrite Forall_forall in HPasks. apply HPasks.
      destruct (sellOrders (orderBook s)); [discriminate|].
      injection Htop as ->. now left. }
    assert (HPy : priced y) by (rewrite Forall_forall in HPasks; auto).
    pose proof (is_heap_front_max SellOrderComparator priced SellOrderComparator_swo
                  _ top HPasks Hasks Htop y Hy) as Hmax.
    apply (lt_le_trans _ (price top)); auto.
    + now apply ge_false_lt.
    + now apply SellOrderComparator_false.
Qed.

Lemma processSellOrder_body_stop (b : Order) (s : MatchingEngine) :
  priced b -> heap_ok (orderBook s) -> 0 < quantity b ->
  Engine.processSellOrder_body b s = Ok (Break b, s) ->
  forall x, In x (buyOrders (orderBook s)) -> lt (price x) (price b) = true.
Proof.
  intros Hb (Hbids & _ & HPbids & _) Hq Hstep x Hx.
  apply processSellOrder_body_Break in Hstep as (_ & _ & [Hstop|[Hstop|Hstop]]).
  - lia.
  - rewrite Hstop in Hx. destruct Hx.
  - destruct Hstop as (top & Htop & Hle).
    assert (HPtop : priced top).
    { rewrite Forall_forall in HPbids. apply HPbids.
      destruct (buyOrders (orderBook s)); [discriminate|].
      injection Htop as ->. now left. }
    assert (HPx : priced x) by (rewrite Forall_forall in HPbids; auto).
    pose proof (is_heap_front_max BuyOrderComparator priced BuyOrderComparator_swo
                  _ top HPbids Hbids Htop x Hx) as Hmax.
    apply BuyOrderComparator_false in Hmax as [Hxt _]; auto.
    apply le_false_gt in Hle; auto. unfold gt in Hle.
    revert Hxt Hle. unfold priced in *. unfold_cmp.
    cmp (price x) (price top) HPx HPtop; cmp (price top) (price b) HPtop Hb;
      cmp (price x) (price b) HPx Hb; order_cases.
Qed.

(** One call on a priced order keeps the book a pair of heaps, free of
    crossing pairs. *)
Lemma processOrder_book (fuel : nat) (o : Order) (e e' : MatchingEngine) :
  priced o ->
  heap_ok (orderBook e) /\ cross_free (orderBook e) ->
  Engine.processOrder fuel o e = Ok (tt, e') ->
  heap_ok (orderBook e') /\ cross_free (orderBook e').
Proof.
  intros Ho [Hheap Hfree] Hrun.
  destruct (processOrder_Ok _ _ _ _ Hrun)
    as [[_ ->]|[(_ & _ & Hcall)|(_ & _ & Hcall)]]; [auto| |].
  - pose (I := fun (b : Order) (s : MatchingEngine) =>
      price b = price o /\ heap_ok (orderBook s) /\ cross_free (orderBook s)).
    destruct (processBuyOrder_inv I fuel o (printed (ProcessingNewOrder o) e) e')
      as (b & s & (Hb & Hs & Hf) & Hstop & ->); [| |exact Hcall|].
    + clear. intros b s b' s' (Hb & Hs & Hf) Hstep.
      destruct (processBuyOrder_body_book _ _ _ _ Hs Hstep) as (Hb' & Hs' & Hf').
      unfold I. split; [congruence|]. auto.
    + unfold I. auto.
    + assert (HPb : priced b) by (unfold priced; now rewrite Hb).
      unfold rest_buy. destruct (Z.ltb_spec 0 (quantity b)) as [Hq|Hq]; [|auto].
      destruct Hs as (Hbids & Hasks & HPbids & HPasks).
      destruct (push_heap_ok BuyOrderComparator b _ BuyOrderComparator_swo
                  HPbids Hbids HPb) as [Hh HP].
      split; [unfold heap_ok; simpl; auto|].
      intros x y Hx Hy. simpl in Hx, Hy. unfold priority_queue.push in Hx.
      apply (Permutation_in _ (push_heap_Permutation _ _)) in Hx.
      apply in_app_or in Hx as [Hx|[<-|[]]]; [now apply Hf|].
      apply (processBuyOrder_body_stop b s); unfold heap_ok; auto.
  - pose (I := fun (b : Order) (s : MatchingEngine) =>
      price b = price o /\ heap_ok (orderBook s) /\ cross_free (orderBook s)).
    destruct (processSellOrder_inv I fuel o (printed (ProcessingNewOrder o) e) e')
      as (b & s & (Hb & Hs & Hf) & Hstop & ->); [| |exact Hcall|].
    + clear. intros b s b' s' (Hb & Hs & Hf) Hstep.
      destruct (processSellOrder_body_book _ _ _ _ Hs Hstep) as (Hb' & Hs' & Hf').
      unfold I. split; [congruence|]. auto.
    + unfold I. auto.
    + assert (HPb : priced b) by (unfold priced; now rewrite Hb).
      unfold rest_sell. destruct (Z.ltb_spec 0 (quantity b)) as [Hq|Hq]; [|auto].
      destruct Hs as (Hbids & Hasks & HPbids & HPasks).
      destruct (push_heap_ok SellOrderComparator b _ SellOrderComparator_swo
                  HPasks Hasks HPb) as [Hh HP].
      split; [unfold heap_ok; simpl; auto|].
      intros x y Hx Hy. simpl in Hx, Hy. unfold priority_queue.push in Hy.
      apply (Permutation_in _ (push_heap_Permutation _ _)) in Hy.
      apply in_app_or in Hy as [Hy|[<-|[]]]; [now apply Hf|].
      apply (processSellOrder_body_stop b s); unfold heap_ok; auto.
Qed.

Lemma new_book (opened : bool) :
  heap_ok (orderBook (Engine.new opened)) /\
  cross_free (orderBook (Engine.new opened)).
Proof.
  split.
  - repeat split; try apply is_heap_nil; constructor.
  - intros x y [].
Qed.

Lemma processOrders_book (opened : bool) (fuel : nat) (orders : list Order)
    (e : MatchingEngine) :
  Forall priced orders ->
  Engine.processOrders fuel orders (Engine.new opened) = Ok (tt, e) ->
  heap_ok (orderBook e) /\ cross_free (orderBook e).
Proof.
  intros HP.
  apply (processOrders_invariant priced
           (fun e => heap_ok (orderBook e) /\ cross_free (orderBook e))); auto.
  - intros f o e0 e1 Ho HI. now apply processOrder_book.
  - apply new_book.
Qed.

Lemma cross_free_uncrossed (book : OrderBook) :
  cross_free book -> uncrossed book.
Proof.
  intros Hfree. unfold uncrossed.
  destruct (buyOrders book) as [|x bids] eqn:Hb; [now left|].
  destruct (sellOrders book) as [|y asks] eqn:Ha; [right; now left|].
  right. right. exists x, y. repeat split.
  apply Hfree; [rewrite Hb|rewrite Ha]; now left.
Qed.

End Uncrossed.

Lemma Forall_valid_priced (orders : list Order) :
  Forall (fun o => valid_submission o = true) orders -> Forall priced orders.
Proof.
  intros Hv. eapply Forall_impl; [|exact Hv].
  intros o. apply valid_submission_priced.
Qed.

Lemma requeue_Permutation `{HeapAlgorithms Order}
    (comp : Order -> Order -> bool) (resting : Order) (popped rest : list Order) :
  Permutation popped rest ->
  Permutation (requeue comp resting popped)
    (if 0 <? quantity resting then resting :: rest else rest).
Proof.
  intros Hperm. unfold requeue. destruct (0 <? quantity resting); [|exact Hperm].
  eapply perm_trans; [apply push_heap_Permutation|].
  eapply perm_trans; [symmetry; apply Permutation_cons_append|].
  now apply perm_skip.
Qed.

(** ** Timestamps of resting orders *)

Section Stamps.

Context `{HeapAlgorithms Order}.








End Stamps.

(** ** Concrete runs: the scenarios of the specification *)

Example prices_are_doubles :
  p99 = of_scaled 99 0 /\ p100 = of_scaled 100 0 /\
  p100_50 = of_scaled 201 (-1) /\ p101 = of_scaled 101 0 /\
  minus_one = SFopp (of_scaled 1 0).
Proof. vm_compute. repeat split. Qed.

(** S1, simple match. *)
Example scenario_S1 :
  book_and_trades
    (Engine.processOrders 2 [mkOrder 1 "buy" p100 50 1] (Engine.new true))
  = Some ({| buyOrders := [mkOrder 1 "buy" p100 50 1]; sellOrders := [] |}, []) /\
  book_and_trades
    (Engine.processOrders 2
       [mkOrder 1 "buy" p100 50 1; mkOrder 2 "sell" p100 50 2] (Engine.new true))
  = Some ({| buyOrders := []; sellOrders := [] |}, [mkTrade 1 2 p100 50]).
Proof. split; vm_compute; reflexivity. Qed.

(** S2, price improvement for the aggressor. *)
Example scenario_S2 :
  book_and_trades
    (Engine.processOrders 2
       [mkOrder 1 "sell" p99 100 1; mkOrder 2 "buy" p101 100 2] (Engine.new true))
  = Some ({| buyOrders := []; sellOrders := [] |}, [mkTrade 2 1 p99 100]).
Proof. vm_compute; reflexivity. Qed.

(** S3, partial fill and rest. *)
Example scenario_S3 :
  book_and_trades
    (Engine.processOrders 2
       [mkOrder 1 "sell" p100 30 1; mkOrder 2 "buy" p100 50 2] (Engine.new true))
  = Some ({| buyOrders := [mkOrder 2 "buy" p100 20 2]; sellOrders := [] |},
          [mkTrade 2 1 p100 30]).
Proof. vm_compute; reflexivity. Qed.

(** S4, time priority at one price. *)
Example scenario_S4 :
  book_and_trades
    (Engine.processOrders 3
       [mkOrder 1 "sell" p100 10 1; mkOrder 2 "sell" p100 10 2;
        mkOrder 3 "buy" p100 15 3] (Engine.new true))
  = Some ({| buyOrders := []; sellOrders := [mkOrder 2 "sell" p100 5 2] |},
          [mkTrade 3 1 p100 10; mkTrade 3 2 p100 5]).
Proof. vm_compute; reflexivity. Qed.

(** S5, walk the book. *)
Example scenario_S5 :
  book_and_trades
    (Engine.processOrders 3
       [mkOrder 1 "sell" p99 10 1; mkOrder 2 "sell" p100 10 2;
        mkOrder 3 "sell" p101 10 3; mkOrder 4 "buy" p100_50 25 4] (Engine.new true))
  = Some ({| buyOrders := [mkOrder 4 "buy" p100_50 5 4];
             sellOrders := [mkOrder 3 "sell" p101 10 3] |},
          [mkTrade 4 1 p99 10; mkTrade 4 2 p100 10]).
Proof. vm_compute; reflexivity. Qed.

(** S6, risk rejection. *)
Example scenario_S6 :
  Engine.processOrders 0 [mkOrder 1 "buy" p100 1500 1] (Engine.new true)
  = Ok (tt, {| orderBook := {| buyOrders := []; sellOrders := [] |};
               tradeLogger := {| is_open := true; logFile := [] |};
               cout := [OrderRejected 1500] |}).
Proof. vm_compute; reflexivity. Qed.

(** The calls the properties below are tried on. *)
Example run_s3 : Engine.processOrder 4 s3_sell s3_book = Ok (tt, s3_after).
Proof. vm_compute; reflexivity. Qed.

Example run_s5 : Engine.processOrder 8 s5_buy s5_book = Ok (tt, s5_after).
Proof. vm_compute; reflexivity. Qed.

Example run_s5_stream :
  Engine.processOrders 5 s5_stream (Engine.new true) = Ok (tt, s5_stream_after).
Proof. vm_compute; reflexivity. Qed.

(** ** No call without a meaning *)

Lemma while_do_defined {S L : Type} (body : L -> M S (loop_ctl L)) :
  (forall l s, body l s <> Undefined) ->
  forall fuel l s, while_do fuel body l s <> Undefined.
Proof.
  intros Hbody fuel. induction fuel as [|fuel IH]; intros l s; simpl.
  - discriminate.
  - unfold bind. specialize (Hbody l s).
    destruct (body l s) as [[[l'|l'] s']| |]; try discriminate.
    + apply IH.
    + congruence.
Qed.

Section Defined.

Context `{HeapAlgorithms Order}.

Lemma processBuyOrder_body_defined (b : Order) (s : MatchingEngine) :
  Engine.processBuyOrder_body b s <> Undefined.
Proof.
  destruct (processBuyOrder_body_spec b s)
    as [[-> _]|(top & rest & popped & _ & _ & _ & _ & _ & Hstep)].
  - discriminate.
  - simpl in Hstep. rewrite Hstep. discriminate.
Qed.

Lemma processSellOrder_body_defined (b : Order) (s : MatchingEngine) :
  Engine.processSellOrder_body b s <> Undefined.
Proof.
  destruct (processSellOrder_body_spec b s)
    as [[-> _]|(top & rest & popped & _ & _ & _ & _ & _ & Hstep)].
  - discriminate.
  - simpl in Hstep. rewrite Hstep. discriminate.
Qed.

Lemma processOrder_defined (fuel : nat) (o : Order) (e : MatchingEngine) :
  Engine.processOrder fuel o e <> Undefined.
Proof.
  rewrite processOrder_unfold.
  destruct (Engine.MAX_QTY <? quantity o); [discriminate|].
  destruct (is_buy o).
  - unfold Engine.processBuyOrder, bind.
    pose proof (while_do_defined Engine.processBuyOrder_body
                  processBuyOrder_body_defined fuel o
                  (printed (ProcessingNewOrder o) e)) as Hloop.
    destruct (while_do fuel Engine.processBuyOrder_body o _) as [[b s]| |];
      try discriminate; [|congruence].
    destruct (0 <? quantity b); discriminate.
  - unfold Engine.processSellOrder, bind.
    pose proof (while_do_defined Engine.processSellOrder_body
                  processSellOrder_body_defined fuel o
                  (printed (ProcessingNewOrder o) e)) as Hloop.
    destruct (while_do fuel Engine.processSellOrder_body o _) as [[b s]| |];
      try discriminate; [|congruence].
    destruct (0 <? quantity b); discriminate.
Qed.

Lemma processOrders_defined (fuel : nat) (orders : list Order)
    (e : MatchingEngine) :
  Engine.processOrders fuel orders e <> Undefined.
Proof.
  revert e. induction orders as [|o orders IH]; intros e; simpl.
  - discriminate.
  - unfold bind. pose proof (processOrder_defined fuel o e) as Ho.
    destruct (Engine.processOrder fuel o e) as [[[] e1]| |];
      try discriminate; [apply IH|congruence].
Qed.

End Defined.

(** ** Price priority *)

Lemma StronglySorted_snoc {A : Type} (R : A -> A -> Prop) (l : list A) (x : A) :
  StronglySorted R l -> Forall (fun y => R y x) l -> StronglySorted R (l ++ [x]).
Proof.
  induction 1 as [|y l Hl IH Hy]; intros Hx; simpl.
  - repeat constructor.
  - inversion Hx; subst. constructor; [auto|].
    apply Forall_app. split; [exact Hy|]. now constructor.
Qed.

Section PricePriority.

Context `{HeapAlgorithms Order}.

(** The matched sell order is priced no higher than any resting sell
    order. *)
Lemma best_ask (s : MatchingEngine) (top : Order) (rest : list Order) :
  heap_ok (orderBook s) -> sellOrders (orderBook s) = top :: rest ->
  forall y, In y (sellOrders (orderBook s)) -> le (price top) (price y) = true.
Proof.
  intros (_ & Hasks & _ & HPasks) Ha y Hy.
  assert (Htop : hd_error (sellOrders (orderBook s)) = Some top) by now rewrite Ha.
  pose proof (is_heap_front_max SellOrderComparator priced SellOrderComparator_swo
                _ top HPasks Hasks Htop y Hy) as Hmax.
  rewrite Forall_forall in HPasks.
  apply SellOrderComparator_false in Hmax as [Hle _]; auto.
  apply HPasks. rewrite Ha. now left.
Qed.

Lemma best_bid (s : MatchingEngine) (top : Order) (rest : list Order) :
  heap_ok (orderBook s) -> buyOrders (orderBook s) = top :: rest ->
  forall x, In x (buyOrders (orderBook s)) -> ge (price top) (price x) = true.
Proof.
  intros (Hbids & _ & HPbids & _) Hb x Hx.
  assert (Htop : hd_error (buyOrders (orderBook s)) = Some top) by now rewrite Hb.
  pose proof (is_heap_front_max BuyOrderComparator priced BuyOrderComparator_swo
                _ top HPbids Hbids Htop x Hx) as Hmax.
  rewrite Forall_forall in HPbids.
  apply BuyOrderComparator_false in Hmax as [Hle _]; auto.
  apply HPbids. rewrite Hb. now left.
Qed.

Lemma processBuyOrder_price_priority (fuel : nat) (o : Order)
    (e e' : MatchingEngine) :
  heap_ok (orderBook e) ->
  Engine.processBuyOrder fuel o e = Ok (tt, e') ->
  exists new,
    trades e' = trades e ++ new /\ ascending_prices new /\
    forall t y, In t new -> In y (sellOrders (orderBook e')) ->
      le (tradePrice t) (price y) = true.
Proof.
  intros Hok Hrun.
  pose (I := fun (b : Order) (s : MatchingEngine) =>
    heap_ok (orderBook s) /\
    exists new,
      trades s = trades e ++ new /\ ascending_prices new /\
      forall t y, In t new -> In y (sellOrders (orderBook s)) ->
        le (tradePrice t) (price y) = true).
  destruct (processBuyOrder_inv I fuel o e e') as (b & s & HI & _ & ->); auto.
  - clear Hok Hrun. intros b s b' s' (Hok & new & Hnew & Hsorted & Hbest) Hstep.
    destruct (processBuyOrder_body_book _ _ _ _ Hok Hstep) as (_ & Hok' & _).
    apply processBuyOrder_body_Continue in Hstep
      as (top & rest & popped & _ & Ha & _ & _ & Hperm & _ & _ & Hasks' & Hcout & _).
    pose proof (best_ask s top rest Hok Ha) as Htop.
    assert (Hfrom : forall y, In y (sellOrders (orderBook s')) ->
              exists y0, In y0 (sellOrders (orderBook s)) /\ price y = price y0).
    { intros y Hy. rewrite Hasks' in Hy. apply requeue_incl in Hy as [->|Hy].
      - exists top. rewrite Ha. simpl. auto.
      - exists y. rewrite Ha. split; [|reflexivity]. right.
        now apply (Permutation_in _ Hperm). }
    split; [exact Hok'|].
    exists (new ++ [mkTrade (orderID b) (orderID top) (price top) (traded b top)]).
    split; [|split].
    + unfold trades in *. now rewrite Hcout, trades_of_app, Hnew, app_assoc.
    + apply StronglySorted_snoc; [exact Hsorted|].
      rewrite Forall_forall. intros t Ht. simpl.
      apply (Hbest t top Ht). rewrite Ha. now left.
    + intros t y Ht Hy. destruct (Hfrom y Hy) as (y0 & Hy0 & ->).
      apply in_app_or in Ht as [Ht|[<-|[]]]; [now apply Hbest|].
      simpl. now apply Htop.
  - unfold I. split; [exact Hok|]. exists []. rewrite app_nil_r.
    split; [reflexivity|]. split; [constructor|]. intros t y [].
  - destruct HI as (_ & new & Hnew & Hsorted & Hbest).
    exists new. rewrite trades_rest_buy. split; [exact Hnew|].
    split; [exact Hsorted|].
    intros t y Ht Hy. apply (Hbest t y Ht).
    unfold rest_buy in Hy. now destruct (0 <? quantity b).
Qed.

Lemma processSellOrder_price_priority (fuel : nat) (o : Order)
    (e e' : MatchingEngine) :
  heap_ok (orderBook e) ->
  Engine.processSellOrder fuel o e = Ok (tt, e') ->
  exists new,
    trades e' = trades e ++ new /\ descending_prices new /\
    forall t x, In t new -> In x (buyOrders (orderBook e')) ->
      ge (tradePrice t) (price x) = true.
Proof.
  intros Hok Hrun.
  pose (I := fun (b : Order) (s : MatchingEngine) =>
    heap_ok (orderBook s) /\
    exists new,
      trades s = trades e ++ new /\ descending_prices new /\
      forall t x, In t new -> In x (buyOrders (orderBook s)) ->
        ge (tradePrice t) (price x) = true).
  destruct (processSellOrder_inv I fuel o e e') as (b & s & HI & _ & ->); auto.
  - clear Hok Hrun. intros b s b' s' (Hok & new & Hnew & Hsorted & Hbest) Hstep.
    destruct (processSellOrder_body_book _ _ _ _ Hok Hstep) as (_ & Hok' & _).
    apply processSellOrder_body_Continue in Hstep
      as (top & rest & popped & _ & Hb & _ & _ & Hperm & _ & _ & Hbids' & Hcout & _).
    pose proof (best_bid s top rest Hok Hb) as Htop.
    assert (Hfrom : forall x, In x (buyOrders (orderBook s')) ->
              exists x0, In x0 (buyOrders (orderBook s)) /\ price x = price x0).
    { intros x Hx. rewrite Hbids' in Hx. apply requeue_incl in Hx as [->|Hx].
      - exists top. rewrite Hb. simpl. auto.
      - exists x. rewrite Hb. split; [|reflexivity]. right.
        now apply (Permutation_in _ Hperm). }
    split; [exact Hok'|].
    exists (new ++ [mkTrade (orderID top) (orderID b) (price top) (traded b top)]).
    split; [|split].
    + unfold trades in *. now rewrite Hcout, trades_of_app, Hnew, app_assoc.
    + apply StronglySorted_snoc; [exact Hsorted|].
      rewrite Forall_forall. intros t Ht. simpl.
      apply (Hbest t top Ht). rewrite Hb. now left.
    + intros t x Ht Hx. destruct (Hfrom x Hx) as (x0 & Hx0 & ->).
      apply in_app_or in Ht as [Ht|[<-|[]]]; [now apply Hbest|].
      simpl. now apply Htop.
  - unfold I. split; [exact Hok|]. exists []. rewrite app_nil_r.
    split; [reflexivity|]. split; [constructor|]. intros t y [].
  - destruct HI as (_ & new & Hnew & Hsorted & Hbest).
    exists new. rewrite trades_rest_sell. split; [exact Hnew|].
    split; [exact Hsorted|].
    intros t x Ht Hx. apply (Hbest t x Ht).
    unfold rest_sell in Hx. now destruct (0 <? quantity b).
Qed.

End PricePriority.

(** ** Quantities stay within the risk limit *)

Section Limit.

Context `{HeapAlgorithms Order}.

Lemma requeue_limit_ok (comp : Order -> Order -> bool) (b top : Order)
    (rest popped : list Order) :
  0 < quantity b -> limit_ok (top :: rest) -> Permutation popped rest ->
  limit_ok (requeue comp (after_trade b top top) popped).
Proof.
  intros Hb Hlimit Hperm. inversion Hlimit as [|? ? Htop Hrest]; subst.
  assert (Hint : 0 < quantity top <= CInt.int_max)
    by (unfold Engine.MAX_QTY, CInt.int_max in *; lia).
  destruct (traded_resting b top Hb Hint) as (_ & _ & Hres).
  apply (Permutation_Forall
           (x := if 0 <? quantity (after_trade b top top)
                 then after_trade b top top :: rest else rest)).
  - symmetry. now apply requeue_Permutation.
  - destruct (Z.ltb_spec 0 (quantity (after_trade b top top))); [|exact Hrest].
    constructor; [lia|exact Hrest].
Qed.

Lemma push_limit_ok (comp : Order -> Order -> bool) (b : Order) (c : list Order) :
  0 < quantity b <= Engine.MAX_QTY -> limit_ok c ->
  limit_ok (priority_queue.push comp b c).
Proof.
  intros Hb Hc. unfold priority_queue.push.
  apply (Permutation_Forall (x := c ++ [b])).
  - symmetry. apply push_heap_Permutation.
  - apply Forall_app. split; [exact Hc|]. now constructor.
Qed.

Lemma processBuyOrder_body_limit (b b' : Order) (s s' : MatchingEngine) :
  quantity b <= Engine.MAX_QTY -> within_limit (orderBook s) ->
  Forall trade_within_limit (trades s) ->
  Engine.processBuyOrder_body b s = Ok (Continue b', s') ->
  quantity b' <= Engine.MAX_QTY /\ within_limit (orderBook s') /\
  Forall trade_within_limit (trades s').
Proof.
  intros Hmax [Hbids Hasks] Htrades Hstep.
  apply processBuyOrder_body_Continue in Hstep
    as (top & rest & popped & Hq & Ha & _ & _ & Hperm & -> & Hbids' & Hasks' & Hcout & _).
  rewrite Ha in Hasks.
  assert (Htop : 0 < quantity top <= CInt.int_max).
  { inversion Hasks; subst. unfold Engine.MAX_QTY, CInt.int_max in *. lia. }
  destruct (traded_resting b top Hq Htop) as (Hm & _ & _).
  split; [|split].
  - unfold after_trade; simpl. rewrite sub_traded; lia.
  - split; [now rewrite Hbids'|]. rewrite Hasks'.
    now apply (requeue_limit_ok _ b top rest popped).
  - unfold trades in *. rewrite Hcout, trades_of_app. apply Forall_app.
    split; [exact Htrades|]. repeat constructor; simpl; lia.
Qed.

Lemma processSellOrder_body_limit (b b' : Order) (s s' : MatchingEngine) :
  quantity b <= Engine.MAX_QTY -> within_limit (orderBook s) ->
  Forall trade_within_limit (trades s) ->
  Engine.processSellOrder_body b s = Ok (Continue b', s') ->
  quantity b' <= Engine.MAX_QTY /\ within_limit (orderBook s') /\
  Forall trade_within_limit (trades s').
Proof.
  intros Hmax [Hbids Hasks] Htrades Hstep.
  apply processSellOrder_body_Continue in Hstep
    as (top & rest & popped & Hq & Hb & _ & _ & Hperm & -> & Hasks' & Hbids' & Hcout & _).
  rewrite Hb in Hbids.
  assert (Htop : 0 < quantity top <= CInt.int_max).
  { inversion Hbids; subst. unfold Engine.MAX_QTY, CInt.int_max in *. lia. }
  destruct (traded_resting b top Hq Htop) as (Hm & _ & _).
  split; [|split].
  - unfold after_trade; simpl. rewrite sub_traded; lia.
  - split; [|now rewrite Hasks']. rewrite Hbids'.
    now apply (requeue_limit_ok _ b top rest popped).
  - unfold trades in *. rewrite Hcout, trades_of_app. apply Forall_app.
    split; [exact Htrades|]. repeat constructor; simpl; lia.
Qed.

Lemma processOrder_limit (fuel : nat) (o : Order) (e e' : MatchingEngine) :
  within_limit (orderBook e) /\ Forall trade_within_limit (trades e) ->
  Engine.processOrder fuel o e = Ok (tt, e') ->
  within_limit (orderBook e') /\ Forall trade_within_limit (trades e').
Proof.
  intros [Hbook Htrades] Hrun.
  pose (I := fun (b : Order) (s : MatchingEngine) =>
    quantity b <= Engine.MAX_QTY /\ within_limit (orderBook s) /\
    Forall trade_within_limit (trades s)).
  destruct (processOrder_Ok _ _ _ _ Hrun)
    as [[_ ->]|[(Hq & _ & Hcall)|(Hq & _ & Hcall)]].
  - rewrite trades_printed, app_nil_r. auto.
  - destruct (processBuyOrder_inv I fuel o (printed (ProcessingNewOrder o) e) e')
      as (b & s & (Hb & [Hbids Hasks] & Hts) & _ & ->); [| |exact Hcall|].
    + clear. intros b s b' s' (Hb & Hs & Hts) Hstep.
      now apply (processBuyOrder_body_limit b b' s s').
    + unfold I. rewrite trades_printed, app_nil_r. auto.
    + rewrite trades_rest_buy. split; [|exact Hts].
      unfold rest_buy. destruct (Z.ltb_spec 0 (quantity b)); [|now split].
      split; simpl; [|exact Hasks]. apply push_limit_ok; [lia|exact Hbids].
  - destruct (processSellOrder_inv I fuel o (printed (ProcessingNewOrder o) e) e')
      as (b & s & (Hb & [Hbids Hasks] & Hts) & _ & ->); [| |exact Hcall|].
    + clear. intros b s b' s' (Hb & Hs & Hts) Hstep.
      now apply (processSellOrder_body_limit b b' s s').
    + unfold I. rewrite trades_printed, app_nil_r. auto.
    + rewrite trades_rest_sell. split; [|exact Hts].
      unfold rest_sell. destruct (Z.ltb_spec 0 (quantity b)); [|now split].
      split; simpl; [exact Hbids|]. apply push_limit_ok; [lia|exact Hasks].
Qed.

Lemma new_limit (opened : bool) :
  within_limit (orderBook (Engine.new opened)) /\
  Forall trade_within_limit (trades (Engine.new opened)).
Proof. repeat split; constructor. Qed.

Lemma processOrders_limit (fuel : nat) (orders : list Order)
    (e e' : MatchingEngine) :
  within_limit (orderBook e) /\ Forall trade_within_limit (trades e) ->
  Engine.processOrders fuel orders e = Ok (tt, e') ->
  within_limit (orderBook e') /\ Forall trade_within_limit (trades e').
Proof.
  intros He Hrun.
  apply (processOrders_invariant (fun _ => True)
           (fun e => within_limit (orderBook e) /\
                     Forall trade_within_limit (trades e)))
    with (fuel := fuel) (orders := orders) (e := e); auto.
  - clear. intros fuel o e e' _ He Hrun. now apply (processOrder_limit fuel o e e').
  - rewrite Forall_forall. auto.
Qed.

End Limit.

(** ** Calls that make no trade, calls that make one *)

Section SimpleCalls.

Context `{HeapAlgorithms Order}.

Lemma processBuyOrder_body_no_match (b : Order) (s : MatchingEngine) :
  (forall top, priority_queue.top (sellOrders (orderBook s)) = Some top ->
     ge (price b) (price top) = false) ->
  Engine.processBuyOrder_body b s = Ok (Break b, s).
Proof.
  intros Hno.
  destruct (processBuyOrder_body_spec b s)
    as [[Hstep _]|(top & rest & popped & _ & Ha & Hge & _)]; [exact Hstep|].
  rewrite (Hno top) in Hge; [discriminate|]. now rewrite Ha.
Qed.

Lemma processSellOrder_body_no_match (b : Order) (s : MatchingEngine) :
  (forall top, priority_queue.top (buyOrders (orderBook s)) = Some top ->
     le (price b) (price top) = false) ->
  Engine.processSellOrder_body b s = Ok (Break b, s).
Proof.
  intros Hno.
  destruct (processSellOrder_body_spec b s)
    as [[Hstep _]|(top & rest & popped & _ & Hb & Hle & _)]; [exact Hstep|].
  rewrite (Hno top) in Hle; [discriminate|]. now rewrite Hb.
Qed.

Lemma processBuyOrder_body_exhausted (b : Order) (s : MatchingEngine) :
  quantity b <= 0 -> Engine.processBuyOrder_body b s = Ok (Break b, s).
Proof.
  intros Hq.
  destruct (processBuyOrder_body_spec b s) as [[Hstep _]|(? & ? & ? & ? & _)];
    [exact Hstep|lia].
Qed.

Lemma processSellOrder_body_exhausted (b : Order) (s : MatchingEngine) :
  quantity b <= 0 -> Engine.processSellOrder_body b s = Ok (Break b, s).
Proof.
  intros Hq.
  destruct (processSellOrder_body_spec b s) as [[Hstep _]|(? & ? & ? & ? & _)];
    [exact Hstep|lia].
Qed.

End SimpleCalls.

(** ** The parties of a trade *)

Lemma remainder_of_refl (o : Order) : remainder_of o o.
Proof. now destruct o. Qed.

Lemma remainder_of_set_quantity (o x : Order) (q : Z) :
  remainder_of o x -> remainder_of o (set_quantity q x).
Proof. unfold remainder_of. intros ->. reflexivity. Qed.

Lemma book_from_incl (seen seen' : list Order) (b : OrderBook) :
  incl seen seen' -> book_from seen b -> book_from seen' b.
Proof.
  intros Hincl [Hbids Hasks]. split; intros x Hx.
  - destruct (Hbids x Hx) as (o & Ho & H'). exists o. auto.
  - destruct (Hasks x Hx) as (o & Ho & H'). exists o. auto.
Qed.

Lemma trade_between_incl (seen seen' : list Order) (t : Trade) :
  incl seen seen' -> trade_between seen t -> trade_between seen' t.
Proof.
  intros Hincl (b & s & Hb & Hs & H'). exists b, s. auto.
Qed.

Section Parties.

Context `{HeapAlgorithms Order}.

Lemma push_In (comp : Order -> Order -> bool) (b x : Order) (c : list Order) :
  In x (priority_queue.push comp b c) -> x = b \/ In x c.
Proof.
  unfold priority_queue.push. intros Hx.
  apply (Permutation_in _ (push_heap_Permutation comp (c ++ [b]))) in Hx.
  apply in_app_or in Hx as [Hx|[<-|[]]]; auto.
Qed.

Lemma processBuyOrder_body_parties (seen : list Order) (o b b' : Order)
    (s s' : MatchingEngine) :
  In o seen -> admitted o = true -> is_buy o = true -> remainder_of o b ->
  book_from seen (orderBook s) -> Forall (trade_between seen) (trades s) ->
  Engine.processBuyOrder_body b s = Ok (Continue b', s') ->
  remainder_of o b' /\ book_from seen (orderBook s') /\
  Forall (trade_between seen) (trades s').
Proof.
  intros Ho Hadm Hside Hb [Hbids Hasks] Hts Hstep.
  apply processBuyOrder_body_Continue in Hstep
    as (top & rest & popped & _ & Ha & _ & _ & Hperm & -> & Hbids' & Hasks' & Hcout & _).
  destruct (Hasks top) as (o' & Ho' & Hadm' & Hside' & Htop);
    [rewrite Ha; now left|].
  split; [now apply remainder_of_set_quantity|]. split; [split|].
  - now rewrite Hbids'.
  - intros y Hy. rewrite Hasks' in Hy. apply requeue_incl in Hy as [->|Hy].
    + exists o'. repeat split; auto. now apply remainder_of_set_quantity.
    + apply Hasks. rewrite Ha. right. now apply (Permutation_in _ Hperm).
  - unfold trades in *. rewrite Hcout, trades_of_app. apply Forall_app.
    split; [exact Hts|]. constructor; [|constructor].
    exists o, o'. simpl. rewrite Hb, Htop. simpl. repeat split; auto.
Qed.

Lemma processSellOrder_body_parties (seen : list Order) (o b b' : Order)
    (s s' : MatchingEngine) :
  In o seen -> admitted o = true -> is_buy o = false -> remainder_of o b ->
  book_from seen (orderBook s) -> Forall (trade_between seen) (trades s) ->
  Engine.processSellOrder_body b s = Ok (Continue b', s') ->
  remainder_of o b' /\ book_from seen (orderBook s') /\
  Forall (trade_between seen) (trades s').
Proof.
  intros Ho Hadm Hside Hb [Hbids Hasks] Hts Hstep.
  apply processSellOrder_body_Continue in Hstep
    as (top & rest & popped & _ & Hbs & _ & _ & Hperm & -> & Hasks' & Hbids' & Hcout & _).
  destruct (Hbids top) as (o' & Ho' & Hadm' & Hside' & Htop);
    [rewrite Hbs; now left|].
  split; [now apply remainder_of_set_quantity|]. split; [split|].
  - intros x Hx. rewrite Hbids' in Hx. apply requeue_incl in Hx as [->|Hx].
    + exists o'. repeat split; auto. now apply remainder_of_set_quantity.
    + apply Hbids. rewrite Hbs. right. now apply (Permutation_in _ Hperm).
  - now rewrite Hasks'.
  - unfold trades in *. rewrite Hcout, trades_of_app. apply Forall_app.
    split; [exact Hts|]. constructor; [|constructor].
    exists o', o. simpl. rewrite Hb, Htop. simpl. repeat split; auto.
Qed.

Lemma processOrder_parties (fuel : nat) (seen : list Order) (o : Order)
    (e e' : MatchingEngine) :
  book_from seen (orderBook e) -> Forall (trade_between seen) (trades e) ->
  Engine.processOrder fuel o e = Ok (tt, e') ->
  book_from (seen ++ [o]) (orderBook e') /\
  Forall (trade_between (seen ++ [o])) (trades e').
Proof.
  intros Hbook Hts Hrun.
  assert (Hincl : incl seen (seen ++ [o])) by (apply incl_appl, incl_refl).
  assert (Ho : In o (seen ++ [o])) by (apply in_or_app; right; now left).
  apply (book_from_incl _ _ _ Hincl) in Hbook.
  assert (Hts' : Forall (trade_between (seen ++ [o])) (trades e)).
  { rewrite Forall_forall in *. intros t Ht.
    apply (trade_between_incl seen); auto. }
  clear Hts.
  pose (I := fun (b : Order) (s : MatchingEngine) =>
    remainder_of o b /\ book_from (seen ++ [o]) (orderBook s) /\
    Forall (trade_between (seen ++ [o])) (trades s)).
  destruct (processOrder_Ok _ _ _ _ Hrun)
    as [[_ ->]|[(Hq & Hside & Hcall)|(Hq & Hside & Hcall)]].
  - rewrite trades_printed, app_nil_r. auto.
  - assert (Hadm : admitted o = true).
    { unfold admitted. apply negb_true_iff, Z.ltb_ge. exact Hq. }
    destruct (processBuyOrder_inv I fuel o (printed (ProcessingNewOrder o) e) e')
      as (b & s & (Hb & [Hbids Hasks] & Hts) & _ & ->); [| |exact Hcall|].
    + intros b s b' s' (Hb & Hs & Hts) Hstep.
      now apply (processBuyOrder_body_parties (seen ++ [o]) o b b' s s').
    + unfold I. rewrite trades_printed, app_nil_r.
      split; [apply remainder_of_refl|]. auto.
    + rewrite trades_rest_buy. split; [|exact Hts].
      unfold rest_buy. destruct (0 <? quantity b); [|now split].
      split; simpl; [|exact Hasks].
      intros x Hx. apply push_In in Hx as [->|Hx]; [|now apply Hbids].
      exists o. auto.
  - assert (Hadm : admitted o = true).
    { unfold admitted. apply negb_true_iff, Z.ltb_ge. exact Hq. }
    destruct (processSellOrder_inv I fuel o (printed (ProcessingNewOrder o) e) e')
      as (b & s & (Hb & [Hbids Hasks] & Hts) & _ & ->); [| |exact Hcall|].
    + intros b s b' s' (Hb & Hs & Hts) Hstep.
      now apply (processSellOrder_body_parties (seen ++ [o]) o b b' s s').
    + unfold I. rewrite trades_printed, app_nil_r.
      split; [apply remainder_of_refl|]. auto.
    + rewrite trades_rest_sell. split; [|exact Hts].
      unfold rest_sell. destruct (0 <? quantity b); [|now split].
      split; simpl; [exact Hbids|].
      intros x Hx. apply push_In in Hx as [->|Hx]; [|now apply Hasks].
      exists o. auto.
Qed.

Lemma processOrders_parties (fuel : nat) (orders seen : list Order)
    (e e' : MatchingEngine) :
  book_from seen (orderBook e) -> Forall (trade_between seen) (trades e) ->
  Engine.processOrders fuel orders e = Ok (tt, e') ->
  book_from (seen ++ orders) (orderBook e') /\
  Forall (trade_between (seen ++ orders)) (trades e').
Proof.
  revert seen e. induction orders as [|o orders IH]; intros seen e Hbook Hts; simpl.
  - unfold ret. intros Heq. injection Heq as <-. rewrite app_nil_r. auto.
  - unfold bind.
    destruct (Engine.processOrder fuel o e) as [[[] e1]| |] eqn:He1;
      try discriminate.
    intros Hrun.
    destruct (processOrder_parties _ _ _ _ _ Hbook Hts He1) as [Hbook1 Hts1].
    replace (seen ++ o :: orders) with ((seen ++ [o]) ++ orders)
      by (now rewrite <- app_assoc).
    now apply (IH (seen ++ [o]) e1).
Qed.

(** ** The log file and the console *)

Lemma processOrder_logFile (fuel : nat) (o : Order) (e e' : MatchingEngine) :
  logFile (tradeLogger e) = (if is_open (tradeLogger e) then trades e else []) ->
  Engine.processOrder fuel o e = Ok (tt, e') ->
  is_open (tradeLogger e') = is_open (tradeLogger e) /\
  logFile (tradeLogger e') = (if is_open (tradeLogger e') then trades e' else []).
Proof.
  intros Hlog Hrun.
  pose (I := fun (b : Order) (s : MatchingEngine) =>
    is_open (tradeLogger s) = is_open (tradeLogger e) /\
    logFile (tradeLogger s) = (if is_open (tradeLogger s) then trades s else [])).
  assert (Hlogged : forall t s s',
            I o s -> cout s' = cout s ++ [TradeExecuted t] ->
            tradeLogger s' = logged t (tradeLogger s) -> I o s').
  { unfold I. intros t s s' [Hopen Hfile] Hcout Hlg. rewrite Hlg.
    unfold trades in *. rewrite Hcout, trades_of_app. unfold logged.
    destruct (is_open (tradeLogger s)) eqn:Hs; simpl.
    - split; [congruence|]. now rewrite Hfile.
    - rewrite Hs. auto. }
  destruct (processOrder_Ok _ _ _ _ Hrun)
    as [[_ ->]|[(_ & _ & Hcall)|(_ & _ & Hcall)]].
  - simpl. rewrite trades_printed, app_nil_r. auto.
  - destruct (processBuyOrder_inv I fuel o (printed (ProcessingNewOrder o) e) e')
      as (b & s & HI & _ & ->); [| |exact Hcall|].
    + intros b s b' s' HI Hstep.
      apply processBuyOrder_body_Continue in Hstep
        as (top & rest & popped & _ & _ & _ & _ & _ & _ & _ & _ & Hcout & Hlg).
      exact (Hlogged _ s s' HI Hcout Hlg).
    + unfold I. simpl. rewrite trades_printed, app_nil_r. auto.
    + destruct HI as [Hopen Hfile]. rewrite trades_rest_buy.
      unfold rest_buy. destruct (0 <? quantity b); simpl; auto.
  - destruct (processSellOrder_inv I fuel o (printed (ProcessingNewOrder o) e) e')
      as (b & s & HI & _ & ->); [| |exact Hcall|].
    + intros b s b' s' HI Hstep.
      apply processSellOrder_body_Continue in Hstep
        as (top & rest & popped & _ & _ & _ & _ & _ & _ & _ & _ & Hcout & Hlg).
      exact (Hlogged _ s s' HI Hcout Hlg).
    + unfold I. simpl. rewrite trades_printed, app_nil_r. auto.
    + destruct HI as [Hopen Hfile]. rewrite trades_rest_sell.
      unfold rest_sell. destruct (0 <? quantity b); simpl; auto.
Qed.

Lemma processOrders_logFile (fuel : nat) (orders : list Order)
    (e e' : MatchingEngine) :
  logFile (tradeLogger e) = (if is_open (tradeLogger e) then trades e else []) ->
  Engine.processOrders fuel orders e = Ok (tt, e') ->
  is_open (tradeLogger e') = is_open (tradeLogger e) /\
  logFile (tradeLogger e') = (if is_open (tradeLogger e') then trades e' else []).
Proof.
  revert e. induction orders as [|o orders IH]; intros e Hlog; simpl.
  - unfold ret. intros Heq. injection Heq as <-. auto.
  - unfold bind.
    destruct (Engine.processOrder fuel o e) as [[[] e1]| |] eqn:He1;
      try discriminate.
    intros Hrun.
    destruct (processOrder_logFile _ _ _ _ Hlog He1) as [Hopen1 Hlog1].
    destruct (IH e1 Hlog1 Hrun) as [Hopen' Hlog']. split; [congruence|exact Hlog'].
Qed.

End Parties.

(** ** Prices that are not numbers *)

Lemma Comparator_nan (n x : Order) :
  is_nan (price n) = true ->
  BuyOrderComparator n x = false /\ BuyOrderComparator x n = false /\
  SellOrderComparator n x = false /\ SellOrderComparator x n = false.
Proof.
  intros Hn. unfold BuyOrderComparator, SellOrderComparator.
  destruct (price n); try discriminate. now destruct (price x).
Qed.

(** ** How many trades a call makes *)

Section Counting.

Context `{HeapAlgorithms Order}.

Lemma pass_one_order_per_trade (comp : Order -> Order -> bool) (b top : Order)
    (rest popped : list Order) (new : list Trade) (t : Trade) (before : nat) :
  0 < quantity b -> Permutation popped rest ->
  one_order_per_trade new before (List.length (top :: rest)) b ->
  one_order_per_trade (new ++ [t]) before
    (List.length (requeue comp (after_trade b top top) popped))
    (after_trade b top b).
Proof.
  intros Hq Hperm [Hcount|(_ & _ & _ & Hdone)]; [|lia].
  unfold one_order_per_trade. rewrite requeue_length, length_app.
  rewrite (Permutation_length Hperm). simpl in *.
  unfold after_trade, traded; simpl.
  destruct (Z.ltb_spec 0 (CInt.sub (quantity top)
              (CInt.min (quantity b) (quantity top)))) as [Hre|Hre].
  - right. rewrite (requeue_exhausts _ _ Hre). lia.
  - left. lia.
Qed.

Lemma processBuyOrder_count (fuel : nat) (o : Order) (e e' : MatchingEngine) :
  Engine.processBuyOrder fuel o e = Ok (tt, e') ->
  exists b new,
    trades e' = trades e ++ new /\
    one_order_per_trade new (List.length (sellOrders (orderBook e)))
      (List.length (sellOrders (orderBook e'))) b /\
    List.length (buyOrders (orderBook e'))
    = (List.length (buyOrders (orderBook e))
       + if (0 <? quantity b)%Z then 1 else 0)%nat.
Proof.
  intros Hrun.
  pose (I := fun (b : Order) (s : MatchingEngine) =>
    buyOrders (orderBook s) = buyOrders (orderBook e) /\
    exists new,
      trades s = trades e ++ new /\
      one_order_per_trade new (List.length (sellOrders (orderBook e)))
        (List.length (sellOrders (orderBook s))) b).
  destruct (processBuyOrder_inv I fuel o e e') as (b & s & HI & _ & ->); auto.
  - clear Hrun. intros b s b' s' (Hbids & new & Hnew & Hcount) Hstep.
    apply processBuyOrder_body_Continue in Hstep
      as (top & rest & popped & Hq & Ha & _ & _ & Hperm & -> & Hbids' & Hasks' & Hcout & _).
    split; [congruence|].
    eexists. split.
    + unfold trades in *. now rewrite Hcout, trades_of_app, Hnew, app_assoc.
    + rewrite Hasks'. rewrite Ha in Hcount.
      exact (pass_one_order_per_trade _ b top rest popped new _ _ Hq Hperm Hcount).
  - unfold I. split; [reflexivity|]. exists []. rewrite app_nil_r.
    split; [reflexivity|]. left. reflexivity.
  - destruct HI as (Hbids & new & Hnew & Hcount).
    exists b, new. rewrite trades_rest_buy. split; [exact Hnew|].
    unfold rest_buy. destruct (0 <? quantity b); simpl.
    + split; [exact Hcount|]. unfold priority_queue.push.
      rewrite (Permutation_length (push_heap_Permutation _ _)), length_app, Hbids.
      reflexivity.
    + split; [exact Hcount|]. rewrite Hbids. lia.
Qed.

Lemma processSellOrder_count (fuel : nat) (o : Order) (e e' : MatchingEngine) :
  Engine.processSellOrder fuel o e = Ok (tt, e') ->
  exists b new,
    trades e' = trades e ++ new /\
    one_order_per_trade new (List.length (buyOrders (orderBook e)))
      (List.length (buyOrders (orderBook e'))) b /\
    List.length (sellOrders (orderBook e'))
    = (List.length (sellOrders (orderBook e))
       + if (0 <? quantity b)%Z then 1 else 0)%nat.
Proof.
  intros Hrun.
  pose (I := fun (b : Order) (s : MatchingEngine) =>
    sellOrders (orderBook s) = sellOrders (orderBook e) /\
    exists new,
      trades s = trades e ++ new /\
      one_order_per_trade new (List.length (buyOrders (orderBook e)))
        (List.length (buyOrders (orderBook s))) b).
  destruct (processSellOrder_inv I fuel o e e') as (b & s & HI & _ & ->); auto.
  - clear Hrun. intros b s b' s' (Hasks & new & Hnew & Hcount) Hstep.
    apply processSellOrder_body_Continue in Hstep
      as (top & rest & popped & Hq & Hb & _ & _ & Hperm & -> & Hasks' & Hbids' & Hcout & _).
    split; [congruence|].
    eexists. split.
    + unfold trades in *. now rewrite Hcout, trades_of_app, Hnew, app_assoc.
    + rewrite Hbids'. rewrite Hb in Hcount.
      exact (pass_one_order_per_trade _ b top rest popped new _ _ Hq Hperm Hcount).
  - unfold I. split; [reflexivity|]. exists []. rewrite app_nil_r.
    split; [reflexivity|]. left. reflexivity.
  - destruct HI as (Hasks & new & Hnew & Hcount).
    exists b, new. rewrite trades_rest_sell. split; [exact Hnew|].
    unfold rest_sell. destruct (0 <? quantity b); simpl.
    + split; [exact Hcount|]. unfold priority_queue.push.
      rewrite (Permutation_length (push_heap_Permutation _ _)), length_app, Hasks.
      reflexivity.
    + split; [exact Hcount|]. rewrite Hasks. lia.
Qed.

End Counting.

(** ** The queue: push, top and pop *)

Section Queue.

Context `{HeapAlgorithms Order}.
Variable comp : Order -> Order -> bool.
Hypothesis comp_swo : strict_weak_on comp priced.

Lemma pop_cons (t : Order) (r : list Order) :
  exists c', priority_queue.pop comp (t :: r) = Some c' /\ Permutation c' r /\
    (Forall priced (t :: r) -> is_heap comp (t :: r) ->
     is_heap comp c' /\ Forall priced c').
Proof.
  destruct (pop_heap_Permutation comp t r) as (c' & Hpop & Hperm).
  exists c'. simpl. rewrite Hpop, removelast_last.
  split; [reflexivity|]. split; [exact Hperm|].
  intros HP Hheap. split.
  - pose proof (pop_heap_is_heap comp priced (t :: r) comp_swo HP Hheap) as Hh.
    now rewrite Hpop, removelast_last in Hh.
  - apply (Permutation_Forall (x := r)); [now symmetry|]. now inversion HP.
Qed.

Lemma push_then_pop (x : Order) (c : list Order) :
  Forall priced c -> is_heap comp c -> priced x ->
  exists t c',
    priority_queue.top (priority_queue.push comp x c) = Some t /\
    priority_queue.pop comp (priority_queue.push comp x c) = Some c' /\
    (forall y, In y (x :: c) -> comp t y = false) /\
    Permutation (t :: c') (x :: c) /\
    is_heap comp c' /\ Forall priced c'.
Proof.
  intros HP Hheap Hx.
  destruct (push_heap_ok comp x c comp_swo HP Hheap Hx) as [Hh HPd].
  assert (Hperm : Permutation (priority_queue.push comp x c) (x :: c)).
  { unfold priority_queue.push. eapply perm_trans; [apply push_heap_Permutation|].
    symmetry. apply Permutation_cons_append. }
  destruct (priority_queue.push comp x c) as [|t r] eqn:Hd.
  { apply Permutation_nil in Hperm. discriminate. }
  destruct (pop_cons t r) as (c' & Hpop & Hperm' & Hc').
  destruct (Hc' HPd Hh) as [Hh' HP'].
  exists t, c'. split; [reflexivity|]. split; [exact Hpop|]. split; [|split; [|auto]].
  - intros y Hy.
    apply (is_heap_front_max comp priced comp_swo (t :: r) t HPd Hh eq_refl).
    apply (Permutation_in _ (Permutation_sym Hperm) Hy).
  - eapply perm_trans; [apply perm_skip, Hperm'|exact Hperm].
Qed.

End Queue.

(** ** The display of the book *)

Section DisplayLoop.

Context `{HeapAlgorithms Order}.
Variable comp : Order -> Order -> bool.

Lemma display_body_spec (c : list Order) (count : Z) (out : list ScreenLine) :
  0 <= count <= 5 ->
  Display.display_body comp (c, count) out =
  match c with
  | t :: _ =>
      if count <? 5
      then Ok (Continue (removelast (pop_heap comp c), count + 1),
               out ++ [DisplayedOrder t])
      else Ok (Break (c, count), out)
  | [] => Ok (Break (c, count), out)
  end.
Proof.
  intros Hcount. unfold Display.display_body. destruct c as [|t r]; simpl.
  - reflexivity.
  - destruct (Z.ltb_spec count 5); [|reflexivity].
    unfold bind, Display.show, ret. simpl. rewrite wrap_in_range; [reflexivity|].
    unfold CInt.in_range, CInt.int_min, CInt.int_max. lia.
Qed.

(** The display loop from [count] shows the orders that [5 - count] rounds
    take from the queue. *)
Lemma display_loop (fuel : nat) (c : list Order) (count : Z)
    (out : list ScreenLine) :
  0 <= count <= 5 -> (Z.to_nat (5 - count) < fuel)%nat ->
  exists l,
    while_do fuel (Display.display_body comp) (c, count) out =
    Ok (l, out ++ map DisplayedOrder (fst (drain comp (Z.to_nat (5 - count)) c))).
Proof.
  revert c count out. induction fuel as [|fuel IH]; intros c count out Hcount Hfuel.
  - lia.
  - cbn [while_do]. unfold bind. rewrite display_body_spec by exact Hcount.
    destruct c as [|t r].
    + eexists. unfold ret. f_equal. f_equal.
      destruct (Z.to_nat (5 - count)); simpl; now rewrite app_nil_r.
    + destruct (Z.ltb_spec count 5) as [Hlt|Hge].
      * destruct (IH (removelast (pop_heap comp (t :: r))) (count + 1)
                    (out ++ [DisplayedOrder t])) as (l & Hl); [lia|lia|].
        exists l. rewrite Hl. f_equal. f_equal.
        set (n := Z.to_nat (5 - (count + 1))).
        replace (Z.to_nat (5 - count)) with (S n) by (unfold n; lia).
        cbn [drain].
        destruct (drain comp n (removelast (pop_heap comp (t :: r))))
          as [shown remaining].
        cbn [fst map]. now rewrite <- app_assoc.
      * eexists. unfold ret. f_equal. f_equal.
        replace (Z.to_nat (5 - count)) with 0%nat by lia.
        simpl. now rewrite app_nil_r.
Qed.

Lemma drain_length (n : nat) (c : list Order) :
  List.length (fst (drain comp n c)) = Nat.min n (List.length c) /\
  Permutation (fst (drain comp n c) ++ snd (drain comp n c)) c.
Proof.
  revert c. induction n as [|n IH]; intros c; simpl.
  - split; [reflexivity|apply Permutation_refl].
  - destruct c as [|t r]; [split; [reflexivity|apply Permutation_refl]|].
    destruct (pop_heap_Permutation comp t r) as (c' & Hpop & Hperm).
    rewrite Hpop, removelast_last.
    destruct (IH c') as [Hlen Hp].
    destruct (drain comp n c') as [shown remaining]. simpl in *.
    rewrite Hlen, (Permutation_length Hperm). split; [reflexivity|].
    apply perm_skip. eapply perm_trans; [exact Hp|exact Hperm].
Qed.

Hypothesis comp_swo : strict_weak_on comp priced.

(** On a heap, the orders taken come out best first, and none that is left
    is above any of them. *)
Lemma drain_sorted (n : nat) (c : list Order) :
  Forall priced c -> is_heap comp c ->
  StronglySorted (fun x y => comp x y = false) (fst (drain comp n c)) /\
  (forall x y, In x (fst (drain comp n c)) -> In y (snd (drain comp n c)) ->
     comp x y = false) /\
  hd_error (fst (drain comp n c)) = match n with O => None | S _ => hd_error c end.
Proof.
  revert c. induction n as [|n IH]; intros c HP Hheap; simpl.
  - split; [constructor|]. split; [intros x y []|reflexivity].
  - destruct c as [|t r]; [split; [constructor|split; [intros x y []|reflexivity]]|].
    destruct (pop_cons comp comp_swo t r) as (c' & Hpop & Hperm & Hc').
    simpl in Hpop. injection Hpop as Hpop. rewrite Hpop.
    destruct (Hc' HP Hheap) as [Hh' HP'].
    destruct (IH c' HP' Hh') as (Hsorted & Hbest & _).
    destruct (drain_length n c') as [_ Hp].
    destruct (drain comp n c') as [shown remaining]. simpl in *.
    assert (Hmax : forall y, In y (shown ++ remaining) -> comp t y = false).
    { intros y Hy.
      apply (is_heap_front_max comp priced comp_swo (t :: r) t HP Hheap eq_refl).
      right. apply (Permutation_in _ Hperm), (Permutation_in _ Hp), Hy. }
    split; [|split; [|reflexivity]].
    + constructor; [exact Hsorted|]. rewrite Forall_forall.
      intros y Hy. apply Hmax, in_or_app. now left.
    + intros x y [<-|Hx] Hy; [|now apply Hbest].
      apply Hmax, in_or_app. now right.
Qed.

End DisplayLoop.

Section DisplayBook.

Context `{HeapAlgorithms Order}.

(** What [displayOrderBook] writes. *)
Lemma displayOrderBook_lines (fuel : nat) (book : OrderBook)
    (out : list ScreenLine) :
  (6 <= fuel)%nat ->
  Display.displayOrderBook fuel book out =
  Ok (tt,
      out ++ [OrderBookHeader; BuyOrdersHeader]
          ++ side_lines NoBuyOrders MoreBuyOrders (buyOrders book)
               (fst (drain BuyOrderComparator 5 (buyOrders book)))
          ++ [SellOrdersHeader]
          ++ side_lines NoSellOrders MoreSellOrders (sellOrders book)
               (fst (drain SellOrderComparator 5 (sellOrders book)))
          ++ [OrderBookFooter]).
Proof.
  intros Hfuel. unfold Display.displayOrderBook, bind, Display.show, ret.
  assert (Hside : forall comp none more c o,
            (if priority_queue.empty c
             then fun out : list ScreenLine => Ok (tt, out ++ [none])
             else
               fun s =>
                 match while_do fuel (Display.display_body comp) (c, 0) s with
                 | Ok (_, s') =>
                     (if (5 <? priority_queue.size c)%nat
                      then fun out => Ok (tt, out ++ [more (priority_queue.size c - 5)%nat])
                      else fun s0 => Ok (tt, s0)) s'
                 | Undefined => Undefined
                 | OutOfFuel => OutOfFuel
                 end) o
            = Ok (tt, o ++ side_lines none more c (fst (drain comp 5 c)))).
  { intros comp none more c o. destruct c as [|t r]; [reflexivity|].
    cbv beta iota delta [priority_queue.empty].
    destruct (display_loop comp fuel (t :: r) 0 o) as (l & Hl); [lia|simpl; lia|].
    rewrite Hl. change (Z.to_nat (5 - 0)) with 5%nat.
    unfold side_lines, priority_queue.size.
    destruct (5 <? List.length (t :: r))%nat.
    - now rewrite <- app_assoc.
    - now rewrite app_nil_r. }
  rewrite Hside. rewrite Hside. f_equal. f_equal.
  repeat rewrite <- app_assoc. reflexivity.
Qed.

End DisplayBook.

Lemma StronglySorted_In_impl {A : Type} (R R' : A -> A -> Prop) (l : list A) :
  (forall x y, In x l -> In y l -> R x y -> R' x y) ->
  StronglySorted R l -> StronglySorted R' l.
Proof.
  intros Himpl Hsorted. induction Hsorted as [|x l Hl IH Hx].
  - constructor.
  - constructor.
    + apply IH. intros a b Ha Hb. apply Himpl; now right.
    + rewrite Forall_forall in *. intros y Hy.
      apply Himpl; [now left|now right|now apply Hx].
Qed.

Lemma drain_hd `{HeapAlgorithms Order} (comp : Order -> Order -> bool)
    (n : nat) (c : list Order) :
  hd_error (fst (drain comp (S n) c)) = hd_error c.
Proof.
  destruct c as [|t r]; [reflexivity|]. cbn [drain].
  now destruct (drain comp n (removelast (pop_heap comp (t :: r)))).
Qed.

(** On a heap of priced orders, what is taken from a queue comes out in the
    order of service. *)
Lemma drain_priority `{HeapAlgorithms Order} (comp : Order -> Order -> bool)
    (priority : Order -> Order -> Prop) (n : nat) (c : list Order) :
  strict_weak_on comp priced ->
  (forall x y, priced x -> priced y -> comp x y = false -> priority x y) ->
  Forall priced c -> is_heap comp c ->
  StronglySorted priority (fst (drain comp n c)) /\
  forall x y, In x (fst (drain comp n c)) -> In y (snd (drain comp n c)) ->
    priority x y.
Proof.
  intros Hswo Hpri HP Hheap.
  destruct (drain_sorted comp Hswo n c HP Hheap) as (Hsorted & Hbest & _).
  destruct (drain_length comp n c) as [_ Hperm].
  assert (Hin : forall x, In x (fst (drain comp n c) ++ snd (drain comp n c)) ->
            priced x).
  { intros x Hx. apply (Forall_forall priced c); [exact HP|].
    now apply (Permutation_in _ Hperm). }
  split.
  - apply (StronglySorted_In_impl (fun x y => comp x y = false)); [|exact Hsorted].
    intros x y Hx Hy. apply Hpri; apply Hin, in_or_app; now left.
  - intros x y Hx Hy. apply Hpri; [| |now apply Hbest];
      apply Hin, in_or_app; [now left|now right].
Qed.

(** ** The arithmetic of doubles *)

Lemma digits2_pos_bounds (p : positive) :
  2 ^ (Zpos (digits2_pos p) - 1) <= Zpos p < 2 ^ Zpos (digits2_pos p).
Proof.
  induction p as [p IH|p IH|]; simpl digits2_pos.
  - rewrite Pos2Z.inj_succ.
    replace (Z.succ (Zpos (digits2_pos p)) - 1) with (Z.succ (Zpos (digits2_pos p) - 1)) by lia.
    rewrite !Z.pow_succ_r by lia. lia.
  - rewrite Pos2Z.inj_succ.
    replace (Z.succ (Zpos (digits2_pos p)) - 1) with (Z.succ (Zpos (digits2_pos p) - 1)) by lia.
    rewrite !Z.pow_succ_r by lia. lia.
  - simpl. lia.
Qed.

Lemma digits2_pos_unique (p : positive) (k : Z) :
  2 ^ (k - 1) <= Zpos p < 2 ^ k -> Zpos (digits2_pos p) = k.
Proof.
  intros [Hlo Hhi]. pose proof (digits2_pos_bounds p) as [Hlo' Hhi'].
  assert (Hk : 0 < k).
  { destruct (Z.lt_trichotomy k 0) as [Hneg|[->|Hpos]]; [|simpl in Hhi; lia|exact Hpos].
    rewrite Z.pow_neg_r in Hhi by exact Hneg. lia. }
  destruct (Z.lt_trichotomy (Zpos (digits2_pos p)) k) as [Hlt|[Heq|Hgt]]; [|exact Heq|].
  - assert (2 ^ Zpos (digits2_pos p) <= 2 ^ (k - 1)) by (apply Z.pow_le_mono_r; lia).
    lia.
  - assert (2 ^ k <= 2 ^ (Zpos (digits2_pos p) - 1)) by (apply Z.pow_le_mono_r; lia).
    lia.
Qed.

Lemma digits2_pos_le (p q : positive) :
  Zpos p <= Zpos q -> Zpos (digits2_pos p) <= Zpos (digits2_pos q).
Proof.
  intros Hle. pose proof (digits2_pos_bounds p) as [Hlo _].
  pose proof (digits2_pos_bounds q) as [_ Hhi].
  destruct (Z.le_gt_cases (Zpos (digits2_pos p)) (Zpos (digits2_pos q))) as [H|H];
    [exact H|].
  assert (2 ^ Zpos (digits2_pos q) <= 2 ^ (Zpos (digits2_pos p) - 1))
    by (apply Z.pow_le_mono_r; lia).
  lia.
Qed.

(** Division by a power of two that leaves a digit. *)
Lemma div_pow2_digits (p : positive) (n : Z) :
  0 <= n < Zpos (digits2_pos p) ->
  exists q, Zpos p / 2 ^ n = Zpos q /\
            Zpos (digits2_pos q) = Zpos (digits2_pos p) - n.
Proof.
  intros Hn. pose proof (digits2_pos_bounds p) as [Hlo Hhi].
  set (d := Zpos (digits2_pos p)) in *.
  assert (Hpow : 0 < 2 ^ n) by (apply Z.pow_pos_nonneg; lia).
  assert (Hlo' : 2 ^ (d - n - 1) <= Zpos p / 2 ^ n).
  { apply Z.div_le_lower_bound; [exact Hpow|].
    rewrite <- Z.pow_add_r by lia. replace (n + (d - n - 1)) with (d - 1) by lia.
    exact Hlo. }
  assert (Hhi' : Zpos p / 2 ^ n < 2 ^ (d - n)).
  { apply Z.div_lt_upper_bound; [exact Hpow|].
    rewrite <- Z.pow_add_r by lia. replace (n + (d - n)) with d by lia. exact Hhi. }
  assert (Hpos : 0 < 2 ^ (d - n - 1)) by (apply Z.pow_pos_nonneg; lia).
  destruct (Zpos p / 2 ^ n) as [|q|q] eqn:Hq; try lia.
  exists q. split; [reflexivity|]. apply digits2_pos_unique. split; assumption.
Qed.

Lemma shr_1_m (r : shr_record) : 0 <= shr_m r -> shr_m (shr_1 r) = shr_m r / 2.
Proof.
  destruct r as [m b s]. intros Hm. rewrite <- Z.div2_div.
  destruct m as [|[p|p|]|p]; try reflexivity. simpl in Hm. lia.
Qed.

Lemma iter_shr_1_m (n : positive) (r : shr_record) :
  0 <= shr_m r -> shr_m (iter_pos shr_1 n r) = shr_m r / 2 ^ Zpos n.
Proof.
  revert r. induction n as [n IH|n IH|]; intros r Hm; simpl iter_pos.
  - assert (H1 : 0 <= shr_m (shr_1 r)).
    { rewrite shr_1_m by exact Hm. apply Z.div_pos; lia. }
    assert (H2 : 0 <= shr_m (iter_pos shr_1 n (shr_1 r))).
    { rewrite IH by exact H1. apply Z.div_pos; [exact H1|]. apply Z.pow_pos_nonneg; lia. }
    rewrite IH, IH, shr_1_m by assumption.
    rewrite !Z.div_div by (try apply Z.pow_pos_nonneg; lia).
    f_equal. rewrite Pos2Z.inj_xI.
    replace (2 * Zpos n + 1) with (1 + Zpos n + Zpos n) by lia.
    rewrite !Z.pow_add_r by lia. change (2 ^ 1) with 2. lia.
  - assert (H2 : 0 <= shr_m (iter_pos shr_1 n r)).
    { rewrite IH by exact Hm. apply Z.div_pos; [exact Hm|]. apply Z.pow_pos_nonneg; lia. }
    rewrite IH, IH by assumption.
    rewrite !Z.div_div by (try apply Z.pow_pos_nonneg; lia).
    f_equal. rewrite Pos2Z.inj_xO, <- Z.pow_add_r by lia. f_equal. lia.
  - rewrite shr_1_m by exact Hm. reflexivity.
Qed.
Lemma shr_record_of_loc_m (m : Z) (l : location) :
  shr_m (shr_record_of_loc m l) = m.
Proof. destruct l as [|[]]; reflexivity. Qed.

(** Shifting a mantissa to the exponent of the format keeps its magnitude,
    when the exponent is one that binary64 has. *)
Lemma shr_fexp_magnitude (M : positive) (E : Z) (l : location) :
  -1074 <= E ->
  exists q,
    shr_m (fst (shr_fexp 53 1024 (Zpos M) E l)) = Zpos q /\
    Zpos (digits2_pos q) + snd (shr_fexp 53 1024 (Zpos M) E l)
    = Zpos (digits2_pos M) + E /\
    E <= snd (shr_fexp 53 1024 (Zpos M) E l).
Proof.
  intros HE. unfold shr_fexp, shr, fexp, emin. cbn [Zdigits2].
  remember (Zpos (digits2_pos M)) as d eqn:Hd.
  destruct (Z.max (d + E - 53) (3 - 1024 - 53) - E) as [|n|n] eqn:Hn; cbn [fst snd].
  - exists M. rewrite shr_record_of_loc_m, <- Hd. lia.
  - rewrite iter_shr_1_m by (rewrite shr_record_of_loc_m; lia).
    rewrite shr_record_of_loc_m.
    destruct (div_pow2_digits M (Zpos n)) as (q & Hq & Hdq); [lia|].
    exists q. split; [exact Hq|]. lia.
  - exists M. rewrite shr_record_of_loc_m, <- Hd. lia.
Qed.

Lemma round_nearest_even_pos (q : positive) (l : location) :
  exists q', round_nearest_even (Zpos q) l = Zpos q' /\ Zpos q <= Zpos q'.
Proof.
  destruct l as [|[]]; cbn [round_nearest_even].
  - exists q. split; [reflexivity|lia].
  - destruct (Z.even (Zpos q)).
    + exists q. split; [reflexivity|lia].
    + exists (q + 1)%positive. split; [reflexivity|lia].
  - exists q. split; [reflexivity|lia].
  - exists (q + 1)%positive. split; [reflexivity|lia].
Qed.

(** Rounding a positive mantissa gives a number of the same sign and of no
    smaller magnitude, or an infinity. *)
Lemma binary_round_aux_magnitude (s : bool) (M : positive) (E : Z) (l : location) :
  -1074 <= E ->
  match binary_round_aux 53 1024 s (Zpos M) E l with
  | S754_finite s' m e =>
      s' = s /\ Zpos (digits2_pos M) + E <= Zpos (digits2_pos m) + e /\ -1074 <= e
  | S754_infinity s' => s' = s
  | _ => False
  end.
Proof.
  intros HE. unfold binary_round_aux.
  destruct (shr_fexp_magnitude M E l HE) as (q & Hq & Hmag & He).
  destruct (shr_fexp 53 1024 (Zpos M) E l) as [mrs' e']. cbn [fst snd] in *.
  rewrite Hq.
  destruct (round_nearest_even_pos q (loc_of_shr_record mrs')) as (q' & -> & Hq').
  assert (He' : -1074 <= e') by lia.
  destruct (shr_fexp_magnitude q' e' loc_Exact He') as (q2 & Hq2 & Hmag2 & He2).
  destruct (shr_fexp 53 1024 (Zpos q') e' loc_Exact) as [mrs2 e2]. cbn [fst snd] in *.
  rewrite Hq2. pose proof (digits2_pos_le q q' Hq') as Hle.
  destruct (e2 <=? 1024 - 53); [|reflexivity].
  split; [reflexivity|]. lia.
Qed.

Lemma digits2_pos_mul (m h : positive) :
  Zpos (digits2_pos m) + Zpos (digits2_pos h) - 1 <= Zpos (digits2_pos (m * h)).
Proof.
  pose proof (digits2_pos_bounds m) as [Hm _].
  pose proof (digits2_pos_bounds h) as [Hh _].
  pose proof (digits2_pos_bounds (m * h)) as [_ Hmh].
  destruct (Z.le_gt_cases (Zpos (digits2_pos m) + Zpos (digits2_pos h) - 1)
              (Zpos (digits2_pos (m * h)))) as [H|H]; [exact H|].
  assert (Hpow : 2 ^ Zpos (digits2_pos (m * h))
                 <= 2 ^ (Zpos (digits2_pos m) - 1 + (Zpos (digits2_pos h) - 1)))
    by (apply Z.pow_le_mono_r; lia).
  rewrite Z.pow_add_r in Hpow by lia.
  rewrite Pos2Z.inj_mul in Hmh.
  assert (0 < 2 ^ (Zpos (digits2_pos m) - 1)) by (apply Z.pow_pos_nonneg; lia).
  assert (0 < 2 ^ (Zpos (digits2_pos h) - 1)) by (apply Z.pow_pos_nonneg; lia).
  nia.
Qed.

Lemma digits2_pos_iter_xO (m d : positive) :
  Zpos (digits2_pos (Pos.iter xO m d)) = Zpos (digits2_pos m) + Zpos d.
Proof.
  induction d as [|d IH] using Pos.peano_ind.
  - simpl. lia.
  - rewrite Pos.iter_succ. simpl digits2_pos. rewrite Pos2Z.inj_succ, IH. lia.
Qed.

Lemma shl_align_magnitude (mx : positive) (ex ex' : Z) :
  Zpos (digits2_pos (fst (shl_align mx ex ex'))) + snd (shl_align mx ex ex')
  = Zpos (digits2_pos mx) + ex /\
  (snd (shl_align mx ex ex') = ex \/ snd (shl_align mx ex ex') = ex').
Proof.
  unfold shl_align. destruct (ex' - ex) as [|d|d] eqn:Hd; cbn [fst snd]; auto.
  rewrite digits2_pos_iter_xO. lia.
Qed.

(** The three operations on the price drawn. *)
Lemma mul_hundred_at_least (p : double) :
  valid_binary 53 1024 p = true -> at_least 6 p ->
  at_least 12 (DoubleArith.mul p DoubleArith.hundred).
Proof.
  unfold DoubleArith.mul, DoubleArith.hundred.
  destruct p as [ | [|] | | [|] m e]; cbn [at_least valid_binary SFmul xorb];
    try tauto.
  intros Hvalid [Hmag He].
  unfold bounded, canonical_mantissa, fexp, emin in Hvalid.
  apply andb_true_iff in Hvalid as [Hcanon _]. apply Z.eqb_eq in Hcanon.
  pose proof (binary_round_aux_magnitude false (m * 7036874417766400) (e + -46)
                loc_Exact) as Hround.
  pose proof (digits2_pos_mul m 7036874417766400) as Hmul.
  change (Zpos (digits2_pos 7036874417766400)) with 53 in Hmul.
  unfold at_least.
  destruct (binary_round_aux 53 1024 false (Zpos (m * 7036874417766400)) (e + -46)
              loc_Exact) as [ | | | s' m' e'].
  - apply Hround. lia.
  - rewrite Hround by lia. exact I.
  - apply Hround. lia.
  - destruct Hround as (-> & Hm' & He'); [lia|]. lia.
Qed.

Lemma round_at_least (k : Z) (x : double) :
  1 <= k -> at_least k x -> at_least k (DoubleArith.round x).
Proof.
  intros Hk.
  destruct x as [ | [|] | | [|] m e]; cbn [at_least DoubleArith.round]; try tauto.
  intros [Hmag He].
  destruct (Z.leb_spec 0 e) as [Hpos|Hneg]; [cbn [at_least]; auto|].
  destruct (div_pow2_digits m (- e)) as (q & Hq & Hdq); [lia|].
  assert (Hpow : 0 < 2 ^ (- e)) by (apply Z.pow_pos_nonneg; lia).
  assert (Hn : Zpos q <= (2 * Zpos m + 2 ^ (- e)) / (2 * 2 ^ (- e))).
  { rewrite <- Hq. rewrite <- (Z.div_mul_cancel_l (Zpos m) (2 ^ (- e)) 2) by lia.
    apply Z.div_le_mono; lia. }
  destruct ((2 * Zpos m + 2 ^ (- e)) / (2 * 2 ^ (- e))) as [|n|n]; try lia.
  pose proof (digits2_pos_le q n Hn) as Hdn.
  unfold binary_normalize, binary_round.
  pose proof (shl_align_magnitude n 0 (fexp 53 1024 (Zpos (digits2_pos n) + 0)))
    as [Hal Hez].
  destruct (shl_align n 0 (fexp 53 1024 (Zpos (digits2_pos n) + 0))) as [mz ez].
  cbn [fst snd] in *.
  assert (Hez' : -1074 <= ez) by (unfold fexp, emin in Hez; lia).
  pose proof (binary_round_aux_magnitude false mz ez loc_Exact Hez') as Hround.
  destruct (binary_round_aux 53 1024 false (Zpos mz) ez loc_Exact)
    as [ | | | s' m' e']; try tauto.
  - now rewrite Hround.
  - destruct Hround as (-> & Hm' & He'). split; lia.
Qed.

Lemma div_hundred_positive (y : double) :
  at_least 1 y -> exists k, at_least k (DoubleArith.div y DoubleArith.hundred).
Proof.
  unfold DoubleArith.div, DoubleArith.hundred.
  destruct y as [ | [|] | | [|] m e]; cbn [at_least SFdiv xorb]; try tauto.
  { intros _. exists 0. exact I. }
  intros [Hmag He]. unfold SFdiv_core_binary. cbn [Zdigits2].
  change (Zpos (digits2_pos 7036874417766400)) with 53.
  set (d := Zpos (digits2_pos m)) in *.
  set (e' := Z.min (fexp 53 1024 (d + e - (53 + -46))) (e - -46)).
  assert (He' : -1074 <= e' <= d + e - 60 /\ e' <= e + 46)
    by (unfold e', fexp, emin; lia).
  set (m' := match e - -46 - e' with
             | 0 => Zpos m
             | Zpos _ => Z.shiftl (Zpos m) (e - -46 - e')
             | Zneg _ => 0
             end).
  assert (Hm' : m' = Zpos m * 2 ^ (e - -46 - e')).
  { unfold m'. destruct (e - -46 - e') as [|s|s] eqn:Hs; [simpl; lia| |lia].
    apply Z.shiftl_mul_pow2. lia. }
  pose proof (digits2_pos_bounds m) as [Hlo _]. fold d in Hlo.
  assert (Hbig : 2 ^ 105 <= m').
  { rewrite Hm'.
    assert (2 ^ (d - 1 + (e - -46 - e')) <= Zpos m * 2 ^ (e - -46 - e')).
    { rewrite Z.pow_add_r by lia.
      apply Z.mul_le_mono_nonneg_r; [apply Z.pow_nonneg; lia|exact Hlo]. }
    assert (2 ^ 105 <= 2 ^ (d - 1 + (e - -46 - e')))
      by (apply Z.pow_le_mono_r; lia).
    lia. }
  assert (Hq : 2 ^ 52 <= m' / 7036874417766400).
  { apply Z.div_le_lower_bound; [lia|].
    eapply Z.le_trans; [|exact Hbig]. vm_compute. discriminate. }
  unfold Z.div in Hq.
  destruct (Z.div_eucl m' 7036874417766400) as [q r]. cbn [fst] in Hq.
  destruct q as [|q|q]; try (exfalso; revert Hq; vm_compute; tauto).
  pose proof (binary_round_aux_magnitude false q e'
                (new_location 7036874417766400 r)) as Hround.
  destruct (binary_round_aux 53 1024 false (Zpos q) e'
              (new_location 7036874417766400 r)) as [ | | | s' mz ez].
  - exfalso. apply Hround. lia.
  - exists 0. rewrite Hround by lia. exact I.
  - exfalso. apply Hround. lia.
  - destruct Hround as (-> & Hmz & Hez); [lia|].
    exists (Zpos (digits2_pos mz) + ez). split; lia.
Qed.

Lemma at_least_le (k k' : Z) (x : double) :
  k' <= k -> at_least k x -> at_least k' x.
Proof.
  intros Hk. destruct x as [ | [|] | | [|] m e]; cbn [at_least]; try tauto. lia.
Qed.

Lemma at_least_positive (k : Z) (x : double) :
  at_least k x -> lt Double.zero x = true /\ is_nan x = false.
Proof. destruct x as [ | [|] | | [|] m e]; cbn [at_least]; try tauto; auto. Qed.

(** ** The generator of random orders *)

Lemma in_distribution_at_least (d : Draw) :
  in_distribution d = true ->
  valid_binary 53 1024 (priceDraw d) = true /\ at_least 6 (priceDraw d).
Proof.
  unfold in_distribution. rewrite !andb_true_iff.
  intros (((((_ & Hvalid) & Hle) & Hlt) & _) & _). split; [exact Hvalid|].
  cbv beta iota delta [le lt fifty hundred_fifty SFleb SFltb SFcompare] in Hle, Hlt.
  destruct (priceDraw d) as [ | [|] | | [|] m e]; try discriminate.
  cbn [at_least]. unfold valid_binary, bounded, canonical_mantissa, fexp, emin in Hvalid.
  apply andb_true_iff in Hvalid as [Hcanon _]. apply Z.eqb_eq in Hcanon.
  destruct (Z.compare_spec (-47) e); try discriminate; lia.
Qed.

Lemma generated_price_positive (d : Draw) :
  in_distribution d = true ->
  lt Double.zero
     (DoubleArith.div (DoubleArith.round (DoubleArith.mul (priceDraw d) DoubleArith.hundred))
        DoubleArith.hundred) = true.
Proof.
  intros Hd. destruct (in_distribution_at_least d Hd) as [Hvalid Hp].
  pose proof (mul_hundred_at_least _ Hvalid Hp) as Hmul.
  apply (round_at_least 12) in Hmul; [|lia].
  apply (at_least_le 12 1) in Hmul; [|lia].
  destruct (div_hundred_positive _ Hmul) as (k & Hk).
  now apply at_least_positive in Hk.
Qed.

Lemma generateRandomOrder_valid (orderID : Z) (d : Draw) :
  in_distribution d = true ->
  valid_submission (Utils.generateRandomOrder orderID d) = true /\
  admitted (Utils.generateRandomOrder orderID d) = true /\
  10 <= quantity (Utils.generateRandomOrder orderID d) <= 500.
Proof.
  intros Hd. pose proof (generated_price_positive d Hd) as Hprice.
  unfold in_distribution in Hd. rewrite !andb_true_iff in Hd.
  destruct Hd as (((((Htype & _) & _) & _) & Hlo) & Hhi).
  apply Z.leb_le in Hlo, Hhi.
  unfold valid_submission, admitted, Utils.generateRandomOrder, Engine.MAX_QTY.
  cbn [type price quantity]. rewrite Hprice.
  split; [|split; [|lia]].
  - rewrite !andb_true_iff. split; [split; [|reflexivity]|apply Z.ltb_lt; lia].
    now destruct (typeDraw d =? 0).
  - apply negb_true_iff, Z.ltb_ge. lia.
Qed.

Lemma random_orders_length (draws : Z -> Draw) (c i : Z) (n : nat) :
  List.length (random_orders draws c i n) = n.
Proof. revert c i. induction n as [|n IH]; intros c i; simpl; auto. Qed.

Lemma random_orders_valid (draws : Z -> Draw) (c i : Z) (n : nat) :
  (forall k, in_distribution (draws k) = true) ->
  Forall (fun o => valid_submission o = true) (random_orders draws c i n).
Proof.
  intros Hd. revert c i. induction n as [|n IH]; intros c i; simpl; constructor.
  - now apply generateRandomOrder_valid.
  - apply IH.
Qed.

Lemma processOrders_passes_bound `{HeapAlgorithms Order} (fuel : nat)
    (orders : list Order) (e e' : MatchingEngine) :
  Engine.processOrders fuel orders e = Ok (tt, e') ->
  (passes_bound (orderBook e')
   <= passes_bound (orderBook e) + 2 * List.length orders)%nat.
Proof.
  revert e. induction orders as [|o orders IH]; intros e; simpl.
  - unfold ret. intros Heq. injection Heq as <-. lia.
  - unfold bind.
    destruct (Engine.processOrder fuel o e) as [[[] e1]| |] eqn:He1;
      try discriminate.
    intros Hrun. apply IH in Hrun.
    pose proof (processOrder_passes_bound _ _ _ _ He1). lia.
Qed.

Section Generator.

Context `{HeapAlgorithms Order}.

Lemma generateRandomOrders_body_step (inner : nat) (count : Z)
    (draws : Z -> Draw) (i : Z) (p : Program) :
  Menu.generateRandomOrders_body inner count draws i p =
  if i <? count then
    match Engine.processOrder inner
            (Utils.generateRandomOrder (randomOrderCounter p) (draws i))
            (engine (locals p)) with
    | Ok (_, e1) =>
        Ok (Continue (CInt.wrap (i + 1)),
            generated e1 (CInt.wrap (randomOrderCounter p + 1)) p)
    | Undefined => Undefined
    | OutOfFuel => OutOfFuel
    end
  else Ok (Break i, p).
Proof.
  unfold Menu.generateRandomOrders_body. destruct (i <? count); [|reflexivity].
  unfold bind, Menu.next_randomOrderCounter, Menu.onLocals, MainLoop.onEngine.
  cbn [locals randomOrderCounter screen engine orderCounter].
  now destruct (Engine.processOrder inner _ _) as [[[] e1]| |].
Qed.

(** The loop of [generateRandomOrders], from its pass number [i]: it
    submits the orders of the passes that are left, one after the other. *)
Lemma generateRandomOrders_loop (inner : nat) (count : Z) (draws : Z -> Draw)
    (n fuel : nat) (i : Z) (p : Program) (e' : MatchingEngine) :
  0 <= i -> count <= CInt.int_max ->
  n = Z.to_nat (count - i) ->
  CInt.int_min <= randomOrderCounter p ->
  randomOrderCounter p + Z.of_nat n <= CInt.int_max ->
  (n < fuel)%nat ->
  Engine.processOrders inner (random_orders draws (randomOrderCounter p) i n)
    (engine (locals p)) = Ok (tt, e') ->
  exists i',
    while_do fuel (Menu.generateRandomOrders_body inner count draws) i p
    = Ok (i', generated e' (randomOrderCounter p + Z.of_nat n) p).
Proof.
  revert fuel i p. induction n as [|n IH]; intros fuel i p Hi Hcount Hn Hlo Hhi Hfuel.
  - destruct fuel as [|fuel]; [lia|]. cbn [random_orders Engine.processOrders].
    unfold ret. intros Heq. injection Heq as <-.
    cbn [while_do]. unfold bind. rewrite generateRandomOrders_body_step.
    destruct (Z.ltb_spec i count); [lia|]. exists i. unfold ret. f_equal. f_equal.
    unfold generated. rewrite Z.add_0_r. destruct p as [[e c] r s]. reflexivity.
  - destruct fuel as [|fuel]; [lia|]. cbn [random_orders Engine.processOrders].
    unfold bind at 1.
    destruct (Engine.processOrder inner
                (Utils.generateRandomOrder (randomOrderCounter p) (draws i))
                (engine (locals p))) as [[[] e1]| |] eqn:He1; try discriminate.
    intros Hrest. cbn [while_do].
    unfold bind at 1. rewrite generateRandomOrders_body_step, He1.
    destruct (Z.ltb_spec i count); [|lia].
    assert (Hc : CInt.wrap (randomOrderCounter p + 1) = randomOrderCounter p + 1).
    { apply wrap_in_range. unfold CInt.in_range. lia. }
    assert (Hi' : CInt.wrap (i + 1) = i + 1).
    { apply wrap_in_range. unfold CInt.in_range, CInt.int_min in *. lia. }
    rewrite Hc, Hi'.
    destruct (IH fuel (i + 1)
                (generated e1 (randomOrderCounter p + 1) p)) as (i' & Hloop);
      cbn [generated locals randomOrderCounter engine]; try lia; [exact Hrest|].
    exists i'. rewrite Hloop. unfold generated.
    cbn [locals randomOrderCounter engine orderCounter screen].
    f_equal. f_equal. f_equal. lia.
Qed.

Lemma generateRandomOrders_spec (fuel : nat) (count : Z) (draws : Z -> Draw)
    (p : Program) (e' : MatchingEngine) :
  count <= CInt.int_max ->
  CInt.int_min <= randomOrderCounter p ->
  randomOrderCounter p + Z.max 0 count <= CInt.int_max ->
  (Z.to_nat count < fuel)%nat ->
  Engine.processOrders fuel
    (random_orders draws (randomOrderCounter p) 0 (Z.to_nat count))
    (engine (locals p)) = Ok (tt, e') ->
  Menu.generateRandomOrders fuel count draws p =
  Ok (tt,
      {| locals := {| engine := e'; orderCounter := orderCounter (locals p) |};
         randomOrderCounter := randomOrderCounter p + Z.max 0 count;
         screen := screen p ++ [GeneratingRandomOrders count] |}).
Proof.
  intros Hcount Hlo Hhi Hfuel Hrun.
  unfold Menu.generateRandomOrders, bind, Menu.onScreen, Display.show.
  cbn [screen locals randomOrderCounter].
  assert (Hn : Z.to_nat count = Z.to_nat (count - 0)) by (f_equal; lia).
  assert (Hhi' : randomOrderCounter p + Z.of_nat (Z.to_nat count) <= CInt.int_max)
    by lia.
  destruct (generateRandomOrders_loop fuel count draws (Z.to_nat count) fuel 0
              {| locals := locals p; randomOrderCounter := randomOrderCounter p;
                 screen := screen p ++ [GeneratingRandomOrders count] |} e'
              (Z.le_refl 0) Hcount Hn Hlo Hhi' Hfuel Hrun) as (i' & Hloop).
  rewrite Hloop. unfold ret, generated. cbn [locals randomOrderCounter screen].
  f_equal. f_equal. f_equal. lia.
Qed.

End Generator.

(** ** The menu *)

Section Session.

Context `{HeapAlgorithms Order}.

Lemma processOrder_engine_ok (fuel bound : nat) (o : Order) (e : MatchingEngine) :
  priced o -> engine_ok bound e -> (bound <= fuel)%nat ->
  exists e', Engine.processOrder fuel o e = Ok (tt, e') /\ engine_ok (bound + 2) e'.
Proof.
  intros Ho (Hheap & Hfree & Hlimit & Hts & Hbound) Hfuel.
  destruct (processOrder_terminates fuel o e) as (e' & Hrun); [lia|].
  exists e'. split; [exact Hrun|].
  destruct (processOrder_book fuel o e e' Ho (conj Hheap Hfree) Hrun) as [Hheap' Hfree'].
  destruct (processOrder_limit fuel o e e' (conj Hlimit Hts) Hrun) as [Hlimit' Hts'].
  pose proof (processOrder_passes_bound _ _ _ _ Hrun).
  unfold engine_ok. repeat split; try assumption; try apply Hheap'; try apply Hlimit'.
  lia.
Qed.

Lemma engine_ok_printed (bound : nat) (line : Output) (e : MatchingEngine) :
  (forall t, line <> TradeExecuted t) ->
  engine_ok bound e -> engine_ok bound (printed line e).
Proof.
  intros Hline (Hheap & Hfree & Hlimit & Hts & Hbound).
  unfold engine_ok. rewrite trades_printed. simpl.
  destruct line; try (rewrite app_nil_r; auto 10).
  now destruct (Hline t).
Qed.

Lemma engine_ok_le (bound bound' : nat) (e : MatchingEngine) :
  (bound <= bound')%nat -> engine_ok bound e -> engine_ok bound' e.
Proof.
  intros Hle (Hheap & Hfree & Hlimit & Hts & Hbound).
  unfold engine_ok. repeat split; try assumption; try apply Hheap; try apply Hlimit.
  lia.
Qed.

Lemma placeOrder_engine_ok (fuel bound : nat) (type : string) (p : double)
    (q now : Z) (s : Main) :
  is_nan p = false -> engine_ok bound (engine s) -> (bound <= fuel)%nat ->
  exists s', MainLoop.placeOrder fuel type p q now s = Ok (tt, s') /\
             engine_ok (bound + 2) (engine s').
Proof.
  intros Hp Hok Hfuel. unfold MainLoop.placeOrder.
  assert (Hprint : forall line, (forall t, line <> TradeExecuted t) ->
            exists s', MainLoop.onEngine (Engine.print line) s = Ok (tt, s') /\
                       engine_ok (bound + 2) (engine s')).
  { intros line Hline. eexists. split; [reflexivity|]. simpl.
    apply (engine_ok_le bound); [lia|].
    now apply (engine_ok_printed bound line (engine s)). }
  destruct (negb (String.eqb type "buy") && negb (String.eqb type "sell"));
    [apply Hprint; discriminate|].
  destruct (le p Double.zero); [apply Hprint; discriminate|].
  destruct (q <=? 0); [apply Hprint; discriminate|].
  unfold bind, MainLoop.next_orderCounter, MainLoop.onEngine. simpl.
  destruct (processOrder_engine_ok fuel bound
              (mkOrder (orderCounter s) type p q now) (engine s) Hp Hok Hfuel)
    as (e' & -> & Hok').
  eexists. split; [reflexivity|exact Hok'].
Qed.

(** The loop of [generateRandomOrders] keeps the engine in order. *)
Lemma generateRandomOrders_loop_engine_ok (inner : nat) (count : Z)
    (draws : Z -> Draw) (n fuel bound : nat) (i : Z) (p : Program) :
  (forall k, in_distribution (draws k) = true) ->
  0 <= i -> count <= CInt.int_max -> n = Z.to_nat (count - i) ->
  (n < fuel)%nat -> (bound + 2 * n <= inner)%nat ->
  engine_ok bound (engine (locals p)) ->
  exists i' p',
    while_do fuel (Menu.generateRandomOrders_body inner count draws) i p
    = Ok (i', p') /\
    engine_ok (bound + 2 * n) (engine (locals p')).
Proof.
  intros Hdraws. revert fuel bound i p.
  induction n as [|n IH]; intros fuel bound i p Hi Hcount Hn Hfuel Hinner Hok;
    (destruct fuel as [|fuel]; [lia|]); cbn [while_do]; unfold bind;
    rewrite generateRandomOrders_body_step.
  - destruct (Z.ltb_spec i count); [lia|]. exists i, p. split; [reflexivity|].
    apply (engine_ok_le bound); [lia|exact Hok].
  - destruct (Z.ltb_spec i count); [|lia].
    destruct (processOrder_engine_ok inner bound
                (Utils.generateRandomOrder (randomOrderCounter p) (draws i))
                (engine (locals p))) as (e1 & -> & Hok1); [|exact Hok|lia|].
    { apply valid_submission_priced.
      now apply generateRandomOrder_valid. }
    assert (Hi' : CInt.wrap (i + 1) = i + 1).
    { apply wrap_in_range. unfold CInt.in_range, CInt.int_min in *. lia. }
    rewrite Hi'.
    destruct (IH fuel (bound + 2)%nat (i + 1)
                (generated e1 (CInt.wrap (randomOrderCounter p + 1)) p))
      as (i' & p' & Hloop & Hok'); try lia; [exact Hok1|].
    exists i', p'. split; [exact Hloop|].
    apply (engine_ok_le (bound + 2 + 2 * n)); [lia|exact Hok'].
Qed.

Lemma menu_engine_ok (fuel bound : nat) (input : Input) (p : Program) :
  input_ok input -> engine_ok bound (engine (locals p)) ->
  (bound + 200 <= fuel)%nat -> (102 <= fuel)%nat ->
  exists r p', Menu.menu fuel input p = Ok (r, p') /\
               engine_ok (bound + 200) (engine (locals p')).
Proof.
  intros [Hprice Hdraws] Hok Hfuel Hmin. unfold Menu.menu.
  assert (Hsame : engine_ok (bound + 200) (engine (locals p)))
    by (apply (engine_ok_le bound); [lia|exact Hok]).
  assert (Hshow : forall line (r : loop_ctl void),
            exists r' p',
              (Menu.onScreen (Display.show line) ;; ret r) p = Ok (r', p') /\
              engine_ok (bound + 200) (engine (locals p'))).
  { intros line r. eexists. eexists. split; [reflexivity|exact Hsame]. }
  destruct (choice input =? 1).
  { destruct (placeOrder_engine_ok fuel bound (typed_type input) (typed_price input)
                (typed_quantity input) (now input) (locals p) Hprice Hok)
      as (s' & Hrun & Hok'); [lia|].
    unfold bind, Menu.onLocals. rewrite Hrun.
    eexists. eexists. split; [reflexivity|]. simpl.
    apply (engine_ok_le (bound + 2)); [lia|exact Hok']. }
  destruct (choice input =? 2).
  { unfold bind, Menu.displayOrderBook, Menu.onScreen.
    rewrite displayOrderBook_lines by lia.
    eexists. eexists. split; [reflexivity|exact Hsame]. }
  destruct (choice input =? 3).
  { destruct (Z.leb_spec (typed_count input) 0) as [Hlow|Hlow];
      [apply Hshow|].
    destruct (Z.ltb_spec 100 (typed_count input)) as [Hhigh|Hhigh];
      [apply Hshow|]. cbn [orb].
    unfold bind at 1. unfold Menu.generateRandomOrders, bind at 1.
    unfold Menu.onScreen, Display.show. cbn [screen locals randomOrderCounter].
    unfold bind at 1.
    assert (Hint : typed_count input <= CInt.int_max)
      by (unfold CInt.int_max; lia).
    assert (Hn : Z.to_nat (typed_count input) = Z.to_nat (typed_count input - 0))
      by (f_equal; lia).
    assert (Hloops : (Z.to_nat (typed_count input) < fuel)%nat) by lia.
    assert (Hinner : (bound + 2 * Z.to_nat (typed_count input) <= fuel)%nat) by lia.
    destruct (generateRandomOrders_loop_engine_ok fuel (typed_count input)
                (draws input) (Z.to_nat (typed_count input)) fuel bound 0
                {| locals := locals p; randomOrderCounter := randomOrderCounter p;
                   screen := screen p
                             ++ [GeneratingRandomOrders (typed_count input)] |}
                Hdraws (Z.le_refl 0) Hint Hn Hloops Hinner Hok)
      as (i' & p' & Hloop & Hok').
    rewrite Hloop. eexists. eexists. split; [reflexivity|].
    apply (engine_ok_le (bound + 2 * Z.to_nat (typed_count input)));
      [lia|exact Hok']. }
  destruct (choice input =? 4); apply Hshow.
Qed.

Lemma main_engine_ok (fuel : nat) (inputs : list Input) (bound : nat) (p : Program) :
  Forall input_ok inputs -> engine_ok bound (engine (locals p)) ->
  (bound + 200 * List.length inputs <= fuel)%nat -> (102 <= fuel)%nat ->
  exists exited p',
    Menu.main fuel inputs p = Ok (exited, p') /\
    engine_ok (bound + 200 * List.length inputs) (engine (locals p')).
Proof.
  revert bound p. induction inputs as [|input inputs IH];
    intros bound p Hinputs Hok Hfuel Hmin; cbn [Menu.main].
  - exists false, p. split; [reflexivity|].
    apply (engine_ok_le bound); [lia|exact Hok].
  - inversion Hinputs as [|? ? Hinput Hrest]; subst. cbn [List.length] in Hfuel.
    destruct (menu_engine_ok fuel bound input p Hinput Hok) as (r & p1 & Hrun & Hok1);
      [lia|exact Hmin|].
    unfold bind. rewrite Hrun. destruct r as [[]|[]].
    + destruct (IH (bound + 200)%nat p1 Hrest Hok1) as (exited & p' & Hmain & Hok');
        [lia|exact Hmin|].
      exists exited, p'. split; [exact Hmain|].
      apply (engine_ok_le (bound + 200 + 200 * List.length inputs));
        [cbn [List.length]; lia|exact Hok'].
    + exists true, p1. split; [reflexivity|].
      apply (engine_ok_le (bound + 200)); [cbn [List.length]; lia|exact Hok1].
Qed.

End Session.

(** ** Identifiers *)

Lemma NoDup_app_disjoint {A : Type} (l l' : list A) (a : A) :
  NoDup (l ++ l') -> In a l -> ~ In a l'.
Proof.
  induction l as [|x l IH]; simpl; intros Hnd [].
  - subst. inversion Hnd as [|? ? Hnotin _]; subst.
    intros Hin. apply Hnotin, in_or_app. now right.
  - inversion Hnd; subst. now apply IH.
Qed.

Section Identifiers.

Context `{HeapAlgorithms Order}.

Lemma requeue_ids (comp : Order -> Order -> bool) (b top : Order)
    (rest popped : list Order) :
  Permutation popped rest ->
  Permutation (map orderID (requeue comp (after_trade b top top) popped))
    (if 0 <? quantity (after_trade b top top)
     then orderID top :: map orderID rest else map orderID rest).
Proof.
  intros Hperm.
  pose proof (requeue_Permutation comp (after_trade b top top) popped rest Hperm)
    as Hre.
  apply (Permutation_map orderID) in Hre.
  now destruct (0 <? quantity (after_trade b top top)).
Qed.

Lemma push_ids (comp : Order -> Order -> bool) (b : Order) (c : list Order) :
  Permutation (map orderID (priority_queue.push comp b c))
    (orderID b :: map orderID c).
Proof.
  unfold priority_queue.push.
  change (orderID b :: map orderID c) with (map orderID (b :: c)).
  apply Permutation_map.
  eapply perm_trans; [apply push_heap_Permutation|].
  symmetry. apply Permutation_cons_append.
Qed.

Lemma processBuyOrder_body_ids (b b' : Order) (s s' : MatchingEngine) :
  NoDup (resting_ids (orderBook s)) ->
  Engine.processBuyOrder_body b s = Ok (Continue b', s') ->
  orderID b' = orderID b /\
  NoDup (resting_ids (orderBook s')) /\
  incl (resting_ids (orderBook s')) (resting_ids (orderBook s)).
Proof.
  intros Hnd Hstep.
  apply processBuyOrder_body_Continue in Hstep
    as (top & rest & popped & _ & Ha & _ & _ & Hperm & -> & Hbids' & Hasks' & _).
  unfold resting_ids in *. rewrite Hbids', Hasks'. rewrite Ha in Hnd. simpl in Hnd.
  pose proof (requeue_ids SellOrderComparator b top rest popped Hperm) as Hids.
  split; [reflexivity|].
  destruct (0 <? quantity (after_trade b top top)).
  - assert (Hall : Permutation
              (map orderID (buyOrders (orderBook s))
               ++ map orderID (requeue SellOrderComparator (after_trade b top top) popped))
              (map orderID (buyOrders (orderBook s)) ++ orderID top :: map orderID rest))
      by now apply Permutation_app_head.
    split.
    + apply (Permutation_NoDup (Permutation_sym Hall) Hnd).
    + rewrite Ha. simpl. intros id Hid. now apply (Permutation_in _ Hall).
  - assert (Hall : Permutation
              (map orderID (buyOrders (orderBook s))
               ++ map orderID (requeue SellOrderComparator (after_trade b top top) popped))
              (map orderID (buyOrders (orderBook s)) ++ map orderID rest))
      by now apply Permutation_app_head.
    split.
    + apply (Permutation_NoDup (Permutation_sym Hall)).
      now apply NoDup_remove_1 in Hnd.
    + rewrite Ha. simpl. intros id Hid. apply (Permutation_in _ Hall) in Hid.
      apply in_app_or in Hid as [Hid|Hid]; apply in_or_app; [now left|].
      right. now right.
Qed.

Lemma processSellOrder_body_ids (b b' : Order) (s s' : MatchingEngine) :
  NoDup (resting_ids (orderBook s)) ->
  Engine.processSellOrder_body b s = Ok (Continue b', s') ->
  orderID b' = orderID b /\
  NoDup (resting_ids (orderBook s')) /\
  incl (resting_ids (orderBook s')) (resting_ids (orderBook s)).
Proof.
  intros Hnd Hstep.
  apply processSellOrder_body_Continue in Hstep
    as (top & rest & popped & _ & Hb & _ & _ & Hperm & -> & Hasks' & Hbids' & _).
  unfold resting_ids in *. rewrite Hbids', Hasks'. rewrite Hb in Hnd. simpl in Hnd.
  pose proof (requeue_ids BuyOrderComparator b top rest popped Hperm) as Hids.
  split; [reflexivity|].
  destruct (0 <? quantity (after_trade b top top)).
  - assert (Hall : Permutation
              (map orderID (requeue BuyOrderComparator (after_trade b top top) popped)
               ++ map orderID (sellOrders (orderBook s)))
              ((orderID top :: map orderID rest) ++ map orderID (sellOrders (orderBook s))))
      by now apply Permutation_app_tail.
    split.
    + apply (Permutation_NoDup (Permutation_sym Hall) Hnd).
    + rewrite Hb. simpl. intros id Hid. now apply (Permutation_in _ Hall).
  - assert (Hall : Permutation
              (map orderID (requeue BuyOrderComparator (after_trade b top top) popped)
               ++ map orderID (sellOrders (orderBook s)))
              (map orderID rest ++ map orderID (sellOrders (orderBook s))))
      by now apply Permutation_app_tail.
    split.
    + apply (Permutation_NoDup (Permutation_sym Hall)). now inversion Hnd.
    + rewrite Hb. simpl. intros id Hid. right. now apply (Permutation_in _ Hall).
Qed.

(** A call for an order whose identifier is not in the book. *)
Lemma processOrder_ids (fuel : nat) (o : Order) (e e' : MatchingEngine) :
  NoDup (resting_ids (orderBook e)) ->
  ~ In (orderID o) (resting_ids (orderBook e)) ->
  Engine.processOrder fuel o e = Ok (tt, e') ->
  NoDup (resting_ids (orderBook e')) /\
  incl (resting_ids (orderBook e')) (orderID o :: resting_ids (orderBook e)).
Proof.
  intros Hnd Hfresh Hrun.
  pose (I := fun (b : Order) (s : MatchingEngine) =>
    orderID b = orderID o /\ NoDup (resting_ids (orderBook s)) /\
    incl (resting_ids (orderBook s)) (resting_ids (orderBook e))).
  destruct (processOrder_Ok _ _ _ _ Hrun)
    as [[_ ->]|[(_ & _ & Hcall)|(_ & _ & Hcall)]].
  - split; [exact Hnd|]. apply incl_tl, incl_refl.
  - destruct (processBuyOrder_inv I fuel o (printed (ProcessingNewOrder o) e) e')
      as (b & s & (Hb & Hs & Hincl) & _ & ->); [| |exact Hcall|].
    + clear. intros b s b' s' (Hb & Hs & Hincl) Hstep.
      destruct (processBuyOrder_body_ids _ _ _ _ Hs Hstep) as (Hb' & Hs' & Hincl').
      unfold I. split; [congruence|]. split; [exact Hs'|].
      eapply incl_tran; eassumption.
    + unfold I. split; [reflexivity|]. split; [exact Hnd|apply incl_refl].
    + unfold rest_buy. destruct (0 <? quantity b);
        [|split; [exact Hs|now apply incl_tl]].
      unfold resting_ids in *. simpl.
      pose proof (push_ids BuyOrderComparator b (buyOrders (orderBook s))) as Hpush.
      assert (Hall : Permutation
                (map orderID (priority_queue.push BuyOrderComparator b
                                (buyOrders (orderBook s)))
                 ++ map orderID (sellOrders (orderBook s)))
                (orderID b :: map orderID (buyOrders (orderBook s))
                              ++ map orderID (sellOrders (orderBook s))))
        by (apply (Permutation_app_tail _ Hpush)).
      split.
      * apply (Permutation_NoDup (Permutation_sym Hall)). constructor; [|exact Hs].
        rewrite Hb. intros Hin. apply Hfresh. now apply Hincl.
      * intros id Hid. apply (Permutation_in _ Hall) in Hid.
        destruct Hid as [<-|Hid]; [left; now symmetry|right; now apply Hincl].
  - destruct (processSellOrder_inv I fuel o (printed (ProcessingNewOrder o) e) e')
      as (b & s & (Hb & Hs & Hincl) & _ & ->); [| |exact Hcall|].
    + clear. intros b s b' s' (Hb & Hs & Hincl) Hstep.
      destruct (processSellOrder_body_ids _ _ _ _ Hs Hstep) as (Hb' & Hs' & Hincl').
      unfold I. split; [congruence|]. split; [exact Hs'|].
      eapply incl_tran; eassumption.
    + unfold I. split; [reflexivity|]. split; [exact Hnd|apply incl_refl].
    + unfold rest_sell. destruct (0 <? quantity b);
        [|split; [exact Hs|now apply incl_tl]].
      unfold resting_ids in *. simpl.
      pose proof (push_ids SellOrderComparator b (sellOrders (orderBook s))) as Hpush.
      assert (Hall : Permutation
                (map orderID (buyOrders (orderBook s))
                 ++ map orderID (priority_queue.push SellOrderComparator b
                                   (sellOrders (orderBook s))))
                (orderID b :: map orderID (buyOrders (orderBook s))
                              ++ map orderID (sellOrders (orderBook s)))).
      { eapply perm_trans; [apply (Permutation_app_head _ Hpush)|].
        symmetry. apply Permutation_middle. }
      split.
      * apply (Permutation_NoDup (Permutation_sym Hall)). constructor; [|exact Hs].
        rewrite Hb. intros Hin. apply Hfresh. now apply Hincl.
      * intros id Hid. apply (Permutation_in _ Hall) in Hid.
        destruct Hid as [<-|Hid]; [left; now symmetry|right; now apply Hincl].
Qed.

Lemma processOrders_ids (fuel : nat) (orders : list Order) (e e' : MatchingEngine) :
  NoDup (map orderID orders ++ resting_ids (orderBook e)) ->
  Engine.processOrders fuel orders e = Ok (tt, e') ->
  NoDup (resting_ids (orderBook e')) /\
  incl (resting_ids (orderBook e')) (map orderID orders ++ resting_ids (orderBook e)).
Proof.
  revert e. induction orders as [|o orders IH]; intros e Hnd; simpl.
  - unfold ret. intros Heq. injection Heq as <-. split; [exact Hnd|apply incl_refl].
  - unfold bind.
    destruct (Engine.processOrder fuel o e) as [[[] e1]| |] eqn:He1;
      try discriminate.
    intros Hrun. simpl in Hnd. inversion Hnd as [|? ? Hfresh Hnd']; subst.
    destruct (processOrder_ids fuel o e e1) as [Hnd1 Hincl1]; [| |exact He1|].
    { now apply NoDup_app_remove_l in Hnd'. }
    { intros Hin. apply Hfresh, in_or_app. now right. }
    destruct (IH e1) as [Hnd2 Hincl2]; [|exact Hrun|].
    { apply NoDup_app; [now apply NoDup_app_remove_r in Hnd'|exact Hnd1|].
      intros id Hid Hid1. apply Hincl1 in Hid1 as [<-|Hid1].
      - apply Hfresh, in_or_app. now left.
      - exact (NoDup_app_disjoint _ _ id Hnd' Hid Hid1). }
    split; [exact Hnd2|].
    intros id Hid. apply Hincl2, in_app_or in Hid as [Hid|Hid].
    + right. apply in_or_app. now left.
    + apply Hincl1 in Hid as [<-|Hid]; [now left|].
      right. apply in_or_app. now right.
Qed.

End Identifiers.

Section SessionIdentifiers.

Context `{HeapAlgorithms Order}.

Lemma ids_given_fresh (typed random : Z) (ids : list Z) :
  ids_given typed random ids ->
  (typed < 10000 -> ~ In typed ids) /\ (typed <= random -> ~ In random ids).
Proof.
  intros Hgiven. split; intros Hrange Hin; apply Hgiven in Hin; lia.
Qed.

Lemma ids_given_incl (typed random typed' random' id : Z) (ids ids' : list Z) :
  ids_given typed random ids -> incl ids' (id :: ids) ->
  typed <= typed' -> random <= random' ->
  1 <= id < typed' \/ 10000 <= id < random' ->
  ids_given typed' random' ids'.
Proof.
  intros Hgiven Hincl Ht Hr Hid x Hx. apply Hincl in Hx as [<-|Hx]; [exact Hid|].
  apply Hgiven in Hx. lia.
Qed.

Lemma placeOrder_ids_ok (fuel : nat) (type : string) (p : double) (q now : Z)
    (passes : Z) (s s' : Main) (random : Z) (out : list ScreenLine) :
  0 <= passes < 9999 ->
  ids_ok passes {| locals := s; randomOrderCounter := random; screen := out |} ->
  MainLoop.placeOrder fuel type p q now s = Ok (tt, s') ->
  ids_ok (passes + 1)
    {| locals := s'; randomOrderCounter := random; screen := out |}.
Proof.
  intros Hpasses (Hnd & Hgiven & Hoc & Hrc). cbn [locals randomOrderCounter] in *.
  unfold MainLoop.placeOrder.
  assert (Hprint : forall line,
            MainLoop.onEngine (Engine.print line) s = Ok (tt, s') ->
            ids_ok (passes + 1)
              {| locals := s'; randomOrderCounter := random; screen := out |}).
  { intros line Heq. injection Heq as <-. unfold ids_ok. cbn [locals randomOrderCounter screen engine orderCounter orderBook tradeLogger cout printed generated].
    split; [exact Hnd|]. split; [exact Hgiven|]. lia. }
  destruct (negb (String.eqb type "buy") && negb (String.eqb type "sell"));
    [apply Hprint|].
  destruct (le p Double.zero); [apply Hprint|].
  destruct (q <=? 0); [apply Hprint|].
  unfold bind, MainLoop.next_orderCounter, MainLoop.onEngine.
  cbn [locals randomOrderCounter screen engine orderCounter orderBook tradeLogger cout printed generated].
  destruct (Engine.processOrder fuel (mkOrder (orderCounter s) type p q now)
              (engine s)) as [[[] e']| |] eqn:Hrun; try discriminate.
  intros Heq. injection Heq as <-.
  destruct (ids_given_fresh _ _ _ Hgiven) as [Hfresh _].
  specialize (Hfresh ltac:(lia)).
  destruct (processOrder_ids fuel (mkOrder (orderCounter s) type p q now) (engine s) e'
              Hnd Hfresh Hrun) as [Hnd' Hincl].
  assert (Hwrap : CInt.wrap (orderCounter s + 1) = orderCounter s + 1).
  { apply wrap_in_range. unfold CInt.in_range, CInt.int_min, CInt.int_max. lia. }
  unfold ids_ok. cbn [locals randomOrderCounter screen engine orderCounter orderBook tradeLogger cout printed generated]. rewrite Hwrap. split; [exact Hnd'|]. split; [|lia].
  apply (ids_given_incl (orderCounter s) random _ _ (orderCounter s)
           (resting_ids (orderBook (engine s)))); auto; try lia.
Qed.

Lemma generateRandomOrders_loop_ids_ok (inner : nat) (count : Z)
    (draws : Z -> Draw) (fuel : nat) (passes : Z) (p p' : Program) (i' : Z) :
  0 <= passes < 9999 -> 0 <= count <= 100 ->
  ids_ok passes p ->
  while_do fuel (Menu.generateRandomOrders_body inner count draws) 0 p
  = Ok (i', p') ->
  ids_ok (passes + 1) p'.
Proof.
  intros Hpasses Hcount Hok Hloop.
  pose (I := fun (i : Z) (s : Program) =>
    0 <= i <= count /\
    NoDup (resting_ids (orderBook (engine (locals s)))) /\
    ids_given (orderCounter (locals s)) (randomOrderCounter s)
      (resting_ids (orderBook (engine (locals s)))) /\
    1 <= orderCounter (locals s) <= 1 + passes /\
    10000 <= randomOrderCounter s <= 10000 + 100 * passes + i).
  destruct (while_do_inv (Menu.generateRandomOrders_body inner count draws) I)
    with (fuel := fuel) (l := 0) (s := p) (l' := i') (s' := p')
    as (i0 & p0 & HI & Hbreak); [| |exact Hloop|].
  - clear Hloop Hok. intros i s i1 s1 (Hi & Hnd & Hgiven & Hoc & Hrc).
    rewrite generateRandomOrders_body_step.
    destruct (Z.ltb_spec i count); [|discriminate].
    destruct (Engine.processOrder inner _ _) as [[[] e1]| |] eqn:Hrun;
      try discriminate.
    intros Heq. injection Heq as <- <-.
    destruct (ids_given_fresh _ _ _ Hgiven) as [_ Hfresh].
    specialize (Hfresh ltac:(lia)).
    destruct (processOrder_ids inner
                (Utils.generateRandomOrder (randomOrderCounter s) (draws i))
                (engine (locals s)) e1 Hnd Hfresh Hrun) as [Hnd' Hincl].
    assert (Hwrap : CInt.wrap (randomOrderCounter s + 1) = randomOrderCounter s + 1).
    { apply wrap_in_range. unfold CInt.in_range, CInt.int_min, CInt.int_max. lia. }
    assert (Hi' : CInt.wrap (i + 1) = i + 1).
    { apply wrap_in_range. unfold CInt.in_range, CInt.int_min, CInt.int_max. lia. }
    unfold I, generated. cbn [locals randomOrderCounter screen engine orderCounter orderBook tradeLogger cout printed generated].
    rewrite Hwrap, Hi'.
    split; [lia|]. split; [exact Hnd'|]. split; [|lia].
    apply (ids_given_incl (orderCounter (locals s)) (randomOrderCounter s) _ _
             (randomOrderCounter s)
             (resting_ids (orderBook (engine (locals s))))); auto; try lia.
  - unfold I. destruct Hok as (Hnd & Hgiven & Hoc & Hrc). repeat split; auto; lia.
  - rewrite generateRandomOrders_body_step in Hbreak.
    destruct (Z.ltb_spec i0 count).
    + destruct (Engine.processOrder inner _ _) as [[[] e1]| |]; discriminate.
    + injection Hbreak as _ <-. destruct HI as (Hi & Hnd & Hgiven & Hoc & Hrc).
      unfold ids_ok. repeat split; auto; lia.
Qed.

Lemma ids_ok_screen (passes : Z) (p : Program) (out : list ScreenLine) :
  0 <= passes ->
  ids_ok passes p ->
  ids_ok (passes + 1)
    {| locals := locals p; randomOrderCounter := randomOrderCounter p;
       screen := out |}.
Proof.
  intros Hpasses (Hnd & Hgiven & Hoc & Hrc). unfold ids_ok. cbn [locals randomOrderCounter screen engine orderCounter orderBook tradeLogger cout printed generated].
  repeat split; auto; lia.
Qed.

Lemma menu_ids_ok (fuel : nat) (input : Input) (passes : Z) (p p' : Program)
    (r : loop_ctl void) :
  0 <= passes < 9999 -> ids_ok passes p ->
  Menu.menu fuel input p = Ok (r, p') -> ids_ok (passes + 1) p'.
Proof.
  intros Hpasses Hok. unfold Menu.menu.
  assert (Hshow : forall line (r0 : loop_ctl void),
            (Menu.onScreen (Display.show line) ;; ret r0) p = Ok (r, p') ->
            ids_ok (passes + 1) p').
  { intros line r0 Heq. injection Heq as _ <-. apply ids_ok_screen; [lia|exact Hok]. }
  destruct (choice input =? 1).
  { unfold bind, Menu.onLocals.
    destruct (MainLoop.placeOrder fuel _ _ _ _ (locals p)) as [[[] s']| |] eqn:Hrun;
      try discriminate.
    intros Heq. injection Heq as _ <-.
    apply (placeOrder_ids_ok fuel (typed_type input) (typed_price input)
             (typed_quantity input) (now input) passes (locals p) s'
             (randomOrderCounter p) (screen p) Hpasses); [|exact Hrun].
    now destruct p. }
  destruct (choice input =? 2).
  { unfold bind, Menu.displayOrderBook, Menu.onScreen.
    destruct (Display.displayOrderBook fuel _ (screen p)) as [[[] out]| |];
      try discriminate.
    intros Heq. injection Heq as _ <-. apply ids_ok_screen; [lia|exact Hok]. }
  destruct (choice input =? 3).
  { destruct (Z.leb_spec (typed_count input) 0) as [Hlow|Hlow]; [apply Hshow|].
    destruct (Z.ltb_spec 100 (typed_count input)) as [Hhigh|Hhigh]; [apply Hshow|].
    cbn [orb]. unfold bind at 1. unfold Menu.generateRandomOrders, bind at 1.
    unfold Menu.onScreen, Display.show. cbn [screen locals randomOrderCounter].
    unfold bind at 1.
    destruct (while_do fuel _ 0 _) as [[i' p1]| |] eqn:Hloop; try discriminate.
    intros Heq. injection Heq as _ <-.
    apply (generateRandomOrders_loop_ids_ok fuel (typed_count input) (draws input)
             fuel passes _ p1 i' Hpasses) in Hloop; [exact Hloop|lia|].
    destruct Hok as (Hnd & Hgiven & Hoc & Hrc). unfold ids_ok. cbn [locals randomOrderCounter screen engine orderCounter orderBook tradeLogger cout printed generated]. auto. }
  destruct (choice input =? 4); apply Hshow.
Qed.

Lemma main_ids_ok (fuel : nat) (inputs : list Input) (passes : Z)
    (p p' : Program) (exited : bool) :
  0 <= passes -> passes + Z.of_nat (List.length inputs) <= 9999 ->
  ids_ok passes p ->
  Menu.main fuel inputs p = Ok (exited, p') ->
  ids_ok (passes + Z.of_nat (List.length inputs)) p'.
Proof.
  revert passes p. induction inputs as [|input inputs IH];
    intros passes p Hpasses Hlen Hok; cbn [Menu.main].
  - unfold ret. intros Heq. injection Heq as _ <-.
    cbn [List.length Z.of_nat]. now rewrite Z.add_0_r.
  - cbn [List.length] in *. unfold bind.
    destruct (Menu.menu fuel input p) as [[r p1]| |] eqn:Hstep; try discriminate.
    apply (menu_ids_ok fuel input passes p p1 r) in Hstep; [|lia|exact Hok].
    assert (Hmore : forall s, ids_ok (passes + 1) s ->
              ids_ok (passes + Z.of_nat (S (List.length inputs))) s).
    { intros s (Hnd & Hgiven & Hoc & Hrc). unfold ids_ok. repeat split; auto; lia. }
    destruct r as [[]|[]].
    + intros Hrun. apply (IH (passes + 1) p1) in Hrun; [|lia|lia|exact Hstep].
      replace (passes + Z.of_nat (S (List.length inputs)))
        with (passes + 1 + Z.of_nat (List.length inputs)) by lia.
      exact Hrun.
    + unfold ret. intros Heq. injection Heq as _ <-. now apply Hmore.
Qed.

End SessionIdentifiers.

(** ** Concrete runs: the generator and the menu *)

Example s5_book_heap : heap_ok (orderBook s5_book).
Proof.
  apply (processOrders_book true 3
           [mkOrder 1 "sell" p99 10 1; mkOrder 2 "sell" p100 10 2;
            mkOrder 3 "sell" p101 10 3]
           (mkMatchingEngine (orderBook s5_book) (mkTradeLogger true [])
              [ProcessingNewOrder (mkOrder 1 "sell" p99 10 1);
               ProcessingNewOrder (mkOrder 2 "sell" p100 10 2);
               ProcessingNewOrder (mkOrder 3 "sell" p101 10 3)])).
  - repeat constructor.
  - vm_compute. reflexivity.
Qed.

(** The price drawn, 100.496, becomes 100.50. *)
Example run_generateRandomOrder :
  Utils.generateRandomOrder 10001 draw_buy = mkOrder 10001 "buy" p100_50 25 8.
Proof. vm_compute. reflexivity. Qed.

Example session_inputs_ok : Forall input_ok session.
Proof.
  repeat constructor; try (intros k; simpl; destruct (k =? 1); vm_compute; reflexivity).
Qed.

(** The buy order generated in the session trades with the sell order typed
    and with the first sell order generated; the display shows what rests. *)
Example run_session :
  exists p,
    Menu.main 1102 session (Menu.new true) = Ok (true, p) /\
    orderBook (engine (locals p)) = session_book /\
    trades (engine (locals p))
    = [mkTrade 10001 1 p100 10;
       mkTrade 10001 10000 (S754_finite false 7054466603810816 (-46)) 15] /\
    orderCounter (locals p) = 2 /\ randomOrderCounter p = 10003 /\
    screen p
    = [GeneratingRandomOrders 3; OrderBookHeader; BuyOrdersHeader; NoBuyOrders;
       SellOrdersHeader]
      ++ map DisplayedOrder (sellOrders session_book)
      ++ [OrderBookFooter; InvalidChoice; ThankYou].
Proof. eexists. split; [vm_compute; reflexivity|]. repeat split. Qed.

(** ** Queues of one and two elements

    What the contract of the heap algorithms leaves open on the short
    vectors of the concrete runs: nothing on one element, and the order of
    the two on two elements. *)

Section ShortQueues.

Context `{HeapAlgorithms Order}.
Variable comp : Order -> Order -> bool.





End ShortQueues.



(** * The claims of the specification *)

(** C1. For every stream of valid submissions, after each call of
    [processOrder] has returned (and each does return), the bid side is
    empty, or the ask side is empty, or the best bid is priced strictly below
    the best ask. *)
Theorem C1_uncrossed_at_quiescence `{HeapAlgorithms Order}
    (opened : bool) (orders : list Order) :
  Forall (fun o => valid_submission o = true) orders ->
  forall done rest, orders = done ++ rest ->
    (exists fuel e,
       Engine.processOrders fuel done (Engine.new opened) = Ok (tt, e)) /\
    (forall fuel e,
       Engine.processOrders fuel done (Engine.new opened) = Ok (tt, e) ->
       uncrossed (orderBook e)).
Proof.
  intros Hvalid done rest ->. apply Forall_app in Hvalid as [Hdone _]. split.
  - exists (passes_bound (orderBook (Engine.new opened)) + 2 * List.length done)%nat.
    apply processOrders_terminates. lia.
  - intros fuel e Hrun. apply cross_free_uncrossed.
    apply (processOrders_book opened fuel done e); [|exact Hrun].
    now apply Forall_valid_priced.
Qed.

Lemma C1_uncrossed_at_quiescence_witness :
  Forall (fun o => valid_submission o = true) s5_stream /\
  (exists fuel e,
     Engine.processOrders fuel
       [mkOrder 1 "sell" p99 10 1; mkOrder 2 "sell" p100 10 2;
        mkOrder 3 "sell" p101 10 3; s5_buy] (Engine.new true) = Ok (tt, e)) /\
  (forall fuel e,
     Engine.processOrders fuel
       [mkOrder 1 "sell" p99 10 1; mkOrder 2 "sell" p100 10 2;
        mkOrder 3 "sell" p101 10 3; s5_buy] (Engine.new true) = Ok (tt, e) ->
     uncrossed (orderBook e)).
Proof.
  split; [repeat constructor|].
  apply (C1_uncrossed_at_quiescence true s5_stream)
    with (rest := [mkOrder 5 "buy" p100 1500 5]).
  - repeat constructor.
  - reflexivity.
Defined.

(** C2. Every trade executes at the resting order's price. In a pass of
    the buy loop that trades, the one trade emitted is between the incoming
    buy order and the sell order at the top of the sell side, at that sell
    order's price; in a pass of the sell loop, between the incoming sell
    order and the buy order at the top of the buy side, at that buy order's
    price. So a call of [processOrder] returns, and every trade it emitted
    carries the price of an order that rested on the opposite side when the
    call began. *)
Theorem C2_trade_at_resting_price `{HeapAlgorithms Order} :
  (forall b s b' s',
     Engine.processBuyOrder_body b s = Ok (Continue b', s') ->
     exists topSellOrder,
       priority_queue.top (sellOrders (orderBook s)) = Some topSellOrder /\
       trades s' = trades s ++
         [mkTrade (orderID b) (orderID topSellOrder) (price topSellOrder)
            (CInt.min (quantity b) (quantity topSellOrder))]) /\
  (forall b s b' s',
     Engine.processSellOrder_body b s = Ok (Continue b', s') ->
     exists topBuyOrder,
       priority_queue.top (buyOrders (orderBook s)) = Some topBuyOrder /\
       trades s' = trades s ++
         [mkTrade (orderID topBuyOrder) (orderID b) (price topBuyOrder)
            (CInt.min (quantity b) (quantity topBuyOrder))]) /\
  (forall fuel newOrder e,
     (passes_bound (orderBook e) <= fuel)%nat ->
     exists e' new,
       Engine.processOrder fuel newOrder e = Ok (tt, e') /\
       trades e' = trades e ++ new /\
       forall t, In t new ->
         if is_buy newOrder then
           exists resting, In resting (sellOrders (orderBook e)) /\
             buyOrderID t = orderID newOrder /\
             sellOrderID t = orderID resting /\ tradePrice t = price resting
         else
           exists resting, In resting (buyOrders (orderBook e)) /\
             sellOrderID t = orderID newOrder /\
             buyOrderID t = orderID resting /\ tradePrice t = price resting).
Proof.
  split; [|split].
  - intros b s b' s' Hstep.
    apply processBuyOrder_body_Continue in Hstep
      as (top & rest & popped & _ & Hasks & _ & _ & _ & _ & _ & _ & Hcout & _).
    exists top. split; [now rewrite Hasks|].
    unfold trades. now rewrite Hcout, trades_of_app.
  - intros b s b' s' Hstep.
    apply processSellOrder_body_Continue in Hstep
      as (top & rest & popped & _ & Hbids & _ & _ & _ & _ & _ & _ & Hcout & _).
    exists top. split; [now rewrite Hbids|].
    unfold trades. now rewrite Hcout, trades_of_app.
  - intros fuel o e Hfuel.
    destruct (processOrder_terminates fuel o e Hfuel) as (e' & Hrun).
    destruct (processOrder_trades _ _ _ _ Hrun) as (new & Hnew & Hbuy & Hsell).
    exists e', new. split; [exact Hrun|]. split; [exact Hnew|]. intros t Ht.
    destruct (is_buy o).
    + specialize (Hbuy eq_refl). rewrite Forall_forall in Hbuy.
      destruct (Hbuy t Ht) as (Hid & _ & resting & Hin & Hsid & Hprice).
      exists resting. auto.
    + specialize (Hsell eq_refl). rewrite Forall_forall in Hsell.
      destruct (Hsell t Ht) as (Hid & _ & resting & Hin & Hbid & Hprice).
      exists resting. auto.
Qed.

Lemma C2_trade_at_resting_price_witness :
  (passes_bound (orderBook s5_book) <= 8)%nat /\
  exists e' new,
    Engine.processOrder 8 s5_buy s5_book = Ok (tt, e') /\
    trades e' = trades s5_book ++ new /\
    forall t, In t new ->
      if is_buy s5_buy then
        exists resting, In resting (sellOrders (orderBook s5_book)) /\
          buyOrderID t = orderID s5_buy /\
          sellOrderID t = orderID resting /\ tradePrice t = price resting
      else
        exists resting, In resting (buyOrders (orderBook s5_book)) /\
          sellOrderID t = orderID s5_buy /\
          buyOrderID t = orderID resting /\ tradePrice t = price resting.
Proof.
  split; [vm_compute; lia|].
  apply (proj2 (proj2 C2_trade_at_resting_price) 8%nat s5_buy s5_book).
  vm_compute. lia.
Defined.

(** C3, as the code has it. An order whose quantity exceeds [MAX_QTY] (1000)
    is rejected by [processOrder]: the call returns, the order book is left
    as it was, no trade is emitted (neither on the console nor in the log
    file), and the rejection is a line on the console; the call itself
    returns nothing ([void]). *)
Theorem C3_over_limit_rejected `{HeapAlgorithms Order}
    (fuel : nat) (newOrder : Order) (e : MatchingEngine) :
  Engine.MAX_QTY < quantity newOrder ->
  exists e',
    Engine.processOrder fuel newOrder e = Ok (tt, e') /\
    orderBook e' = orderBook e /\
    trades e' = trades e /\
    tradeLogger e' = tradeLogger e /\
    cout e' = cout e ++ [OrderRejected (quantity newOrder)].
Proof.
  intros Hq. rewrite processOrder_unfold.
  destruct (Z.ltb_spec Engine.MAX_QTY (quantity newOrder)); [|lia].
  eexists. split; [reflexivity|].
  rewrite trades_printed, app_nil_r. auto.
Qed.

Lemma C3_over_limit_rejected_witness :
  Engine.MAX_QTY < 1500 /\
  exists e',
    Engine.processOrder 0 (mkOrder 1 "buy" p100 1500 1) (Engine.new true)
      = Ok (tt, e') /\
    orderBook e' = orderBook (Engine.new true) /\
    trades e' = trades (Engine.new true) /\
    tradeLogger e' = tradeLogger (Engine.new true) /\
    cout e' = cout (Engine.new true) ++ [OrderRejected 1500].
Proof.
  split; [reflexivity|].
  apply (C3_over_limit_rejected 0 (mkOrder 1 "buy" p100 1500 1) (Engine.new true)).
  reflexivity.
Defined.

(** C3 as the specification words it fails on its last part: no REJECTED
    outcome is returned to the caller. What [processOrder] returns for the
    over-limit order of scenario S6 is what it returns for an order it
    accepts, so nothing computed from the returned value tells the two
    apart. *)
Lemma C3_no_outcome_returned :
  Engine.MAX_QTY < quantity (mkOrder 1 "buy" p100 1500 1) /\
  quantity (mkOrder 1 "buy" p100 50 1) <= Engine.MAX_QTY /\
  returned (Engine.processOrder 1 (mkOrder 1 "buy" p100 1500 1) (Engine.new true))
    = returned (Engine.processOrder 1 (mkOrder 1 "buy" p100 50 1) (Engine.new true)) /\
  ~ exists is_rejected : void -> bool,
      option_map is_rejected
        (returned (Engine.processOrder 1 (mkOrder 1 "buy" p100 1500 1)
                     (Engine.new true))) = Some true /\
      option_map is_rejected
        (returned (Engine.processOrder 1 (mkOrder 1 "buy" p100 50 1)
                     (Engine.new true))) = Some false.
Proof.
  split; [reflexivity|]. split; [discriminate|]. split; [reflexivity|].
  intros (f & Hrej & Hacc). vm_compute in Hrej, Hacc. congruence.
Qed.

(** C4, as the code has it. Orders that fail validation (a side that is
    neither [buy] nor [sell], a price at most 0, or a quantity at most 0) are
    rejected at order entry by [main], before [processOrder] is called: the
    order never enters the book, the user is told by a message on the
    console which check failed, no trade is emitted, and no order identifier
    is used up. *)
Theorem C4_invalid_order_rejected_at_entry `{HeapAlgorithms Order}
    (fuel : nat) (type : string) (price : double) (quantity now : Z) (s : Main) :
  (type <> "buy"%string /\ type <> "sell"%string) \/
  le price Double.zero = true \/ quantity <= 0 ->
  exists s' line,
    MainLoop.placeOrder fuel type price quantity now s = Ok (tt, s') /\
    entry_check type price quantity = Some line /\
    orderBook (engine s') = orderBook (engine s) /\
    trades (engine s') = trades (engine s) /\
    tradeLogger (engine s') = tradeLogger (engine s) /\
    cout (engine s') = cout (engine s) ++ [line] /\
    orderCounter s' = orderCounter s.
Proof.
  intros Hinvalid.
  assert (Hcheck : exists line, entry_check type price quantity = Some line).
  { unfold entry_check.
    destruct (negb (type =? "buy")%string && negb (type =? "sell")%string) eqn:Ht;
      [eauto|].
    destruct (le price Double.zero) eqn:Hp; [eauto|].
    destruct (Z.leb_spec quantity 0) as [Hq|Hq]; [eauto|].
    exfalso. destruct Hinvalid as [[Hb Hs]|[Hp'|Hq']]; [|discriminate|lia].
    apply String.eqb_neq in Hb, Hs. rewrite Hb, Hs in Ht. discriminate. }
  destruct Hcheck as [line Hline].
  exists {| engine := printed line (engine s); orderCounter := orderCounter s |}, line.
  split; [|split; [exact Hline|]].
  - unfold MainLoop.placeOrder, entry_check in *.
    destruct (negb (type =? "buy")%string && negb (type =? "sell")%string).
    { now injection Hline as <-. }
    destruct (le price Double.zero). { now injection Hline as <-. }
    destruct (quantity <=? 0). { now injection Hline as <-. }
    discriminate.
  - simpl. rewrite trades_printed.
    destruct line; try (rewrite app_nil_r); auto.
    unfold entry_check in Hline.
    destruct (negb (type =? "buy")%string && negb (type =? "sell")%string);
      [discriminate|].
    destruct (le price Double.zero); [discriminate|].
    destruct (quantity <=? 0); discriminate.
Qed.

Lemma C4_invalid_order_rejected_at_entry_witness :
  (("hold" <> "buy" /\ "hold" <> "sell")%string \/
   le p100 Double.zero = true \/ 10 <= 0) /\
  exists s' line,
    MainLoop.placeOrder 1 "hold" p100 10 5 (MainLoop.new true) = Ok (tt, s') /\
    entry_check "hold" p100 10 = Some line /\
    orderBook (engine s') = orderBook (engine (MainLoop.new true)) /\
    trades (engine s') = trades (engine (MainLoop.new true)) /\
    tradeLogger (engine s') = tradeLogger (engine (MainLoop.new true)) /\
    cout (engine s') = cout (engine (MainLoop.new true)) ++ [line] /\
    orderCounter s' = orderCounter (MainLoop.new true).
Proof.
  split; [left; split; discriminate|].
  apply (C4_invalid_order_rejected_at_entry 1 "hold" p100 10 5 (MainLoop.new true)).
  left; split; discriminate.
Defined.

(** C4 as the specification words it, a rejection by the engine, fails:
    [processOrder] checks neither the side nor the price. An order of type
    [hold] is handled as a sell order and rests on the sell side; a buy order
    priced at -1.0 rests on the buy side; and an order of type [hold] priced
    at -1.0 trades with a resting buy order. *)
Lemma C4_engine_takes_invalid_orders :
  (exists e,
     Engine.processOrder 1 (mkOrder 1 "hold" p100 10 1) (Engine.new true)
       = Ok (tt, e) /\
     sellOrders (orderBook e) = [mkOrder 1 "hold" p100 10 1]) /\
  (exists e,
     Engine.processOrder 1 (mkOrder 2 "buy" minus_one 10 1) (Engine.new true)
       = Ok (tt, e) /\
     le (price (mkOrder 2 "buy" minus_one 10 1)) Double.zero = true /\
     buyOrders (orderBook e) = [mkOrder 2 "buy" minus_one 10 1]) /\
  (exists e,
     Engine.processOrder 2 (mkOrder 3 "hold" minus_one 10 3) s3_book
       = Ok (tt, e) /\
     trades e = trades s3_book ++ [mkTrade 1 3 p100 10]).
Proof.
  repeat split; eexists; (split; [vm_compute; reflexivity|]);
    repeat split; reflexivity.
Qed.

(** C5. The aggressor's limit is respected: a call of [processOrder]
    returns, and every trade it emitted for a buy order is priced at most at
    that order's price, and for a sell order at least at that order's
    price. *)
Theorem C5_aggressor_limit `{HeapAlgorithms Order}
    (fuel : nat) (newOrder : Order) (e : MatchingEngine) :
  (passes_bound (orderBook e) <= fuel)%nat ->
  exists e' new,
    Engine.processOrder fuel newOrder e = Ok (tt, e') /\
    trades e' = trades e ++ new /\
    forall t, In t new ->
      if is_buy newOrder
      then le (tradePrice t) (price newOrder) = true
      else ge (tradePrice t) (price newOrder) = true.
Proof.
  intros Hfuel.
  destruct (processOrder_terminates fuel newOrder e Hfuel) as (e' & Hrun).
  destruct (processOrder_trades _ _ _ _ Hrun) as (new & Hnew & Hbuy & Hsell).
  exists e', new. split; [exact Hrun|]. split; [exact Hnew|]. intros t Ht.
  destruct (is_buy newOrder).
  - specialize (Hbuy eq_refl). rewrite Forall_forall in Hbuy.
    now destruct (Hbuy t Ht) as (_ & Hle & _).
  - specialize (Hsell eq_refl). rewrite Forall_forall in Hsell.
    now destruct (Hsell t Ht) as (_ & Hge & _).
Qed.

Lemma C5_aggressor_limit_witness :
  (passes_bound (orderBook s5_book) <= 8)%nat /\
  exists e' new,
    Engine.processOrder 8 s5_buy s5_book = Ok (tt, e') /\
    trades e' = trades s5_book ++ new /\
    forall t, In t new ->
      if is_buy s5_buy
      then le (tradePrice t) (price s5_buy) = true
      else ge (tradePrice t) (price s5_buy) = true.
Proof.
  split; [vm_compute; lia|].
  apply (C5_aggressor_limit 8 s5_buy s5_book). vm_compute. lia.
Defined.




(** C7. The matching loop ends, for every order and every state of the
    engine: with fuel for [passes_bound] passes, [processOrder] returns. On
    a book whose resting quantities are positive, as they are in every book
    the engine reaches, a pass of either loop ends the loop and changes
    nothing, or strictly lowers the total quantity resting on the opposite
    side, which is never negative. *)
Theorem C7_matching_loop_terminates `{HeapAlgorithms Order} :
  (forall newOrder e fuel,
     (passes_bound (orderBook e) <= fuel)%nat ->
     exists e', Engine.processOrder fuel newOrder e = Ok (tt, e')) /\
  (forall b s r s',
     quantities_ok (orderBook s) ->
     Engine.processBuyOrder_body b s = Ok (r, s') ->
     (r = Break b /\ s' = s) \/
     (exists b', r = Continue b' /\ quantities_ok (orderBook s') /\
        0 <= resting_quantity (sellOrders (orderBook s'))
          < resting_quantity (sellOrders (orderBook s)))) /\
  (forall b s r s',
     quantities_ok (orderBook s) ->
     Engine.processSellOrder_body b s = Ok (r, s') ->
     (r = Break b /\ s' = s) \/
     (exists b', r = Continue b' /\ quantities_ok (orderBook s') /\
        0 <= resting_quantity (buyOrders (orderBook s'))
          < resting_quantity (buyOrders (orderBook s)))) /\
  (forall opened fuel orders e,
     Engine.processOrders fuel orders (Engine.new opened) = Ok (tt, e) ->
     quantities_ok (orderBook e)).
Proof.
  split; [|split; [|split]].
  - intros o e fuel Hfuel. now apply processOrder_terminates.
  - intros b s [b'|b'] s' Hok Hstep.
    + right. exists b'. split; [reflexivity|].
      destruct (processBuyOrder_body_quantities _ _ _ _ Hok Hstep)
        as (m & Hm & _ & Hok' & _ & Hasks & _).
      split; [exact Hok'|].
      pose proof (resting_ok_nonneg _ (proj2 Hok')). lia.
    + left. now destruct (processBuyOrder_body_Break _ _ _ _ Hstep) as (-> & -> & _).
  - intros b s [b'|b'] s' Hok Hstep.
    + right. exists b'. split; [reflexivity|].
      destruct (processSellOrder_body_quantities _ _ _ _ Hok Hstep)
        as (m & Hm & _ & Hok' & _ & Hbids & _).
      split; [exact Hok'|].
      pose proof (resting_ok_nonneg _ (proj1 Hok')). lia.
    + left. now destruct (processSellOrder_body_Break _ _ _ _ Hstep) as (-> & -> & _).
  - intros opened fuel orders e. apply processOrders_quantities_ok.
Qed.

Lemma C7_matching_loop_terminates_witness :
  (passes_bound (orderBook s5_book) <= 8)%nat /\
  exists e', Engine.processOrder 8 s5_buy s5_book = Ok (tt, e').
Proof.
  split; [vm_compute; lia|].
  apply (proj1 C7_matching_loop_terminates s5_buy s5_book 8%nat).
  vm_compute. lia.
Defined.

(** C8, as the code has it. Quantity is conserved over every stream of
    submissions none of which has a negative quantity: every call returns,
    and after the last one, on each side, the total quantity of the admitted
    submissions (those that pass the risk check; a submission counts for the
    buy side when its type is [buy] and for the sell side otherwise) equals
    the total quantity of the trades plus the total quantity resting on that
    side of the book. *)
Theorem C8_quantity_conserved `{HeapAlgorithms Order}
    (opened : bool) (orders : list Order) :
  Forall (fun o => 0 <= quantity o) orders ->
  (exists fuel e,
     Engine.processOrders fuel orders (Engine.new opened) = Ok (tt, e)) /\
  (forall fuel e,
     Engine.processOrders fuel orders (Engine.new opened) = Ok (tt, e) ->
     admitted_quantity true orders
       = filled_quantity (trades e) + resting_quantity (buyOrders (orderBook e)) /\
     admitted_quantity false orders
       = filled_quantity (trades e) + resting_quantity (sellOrders (orderBook e))).
Proof.
  intros Hq. split.
  { exists (passes_bound (orderBook (Engine.new opened)) + 2 * List.length orders)%nat.
    apply processOrders_terminates. lia. }
  intros fuel e Hrun.
  destruct (processOrders_quantities fuel orders _ _ (new_quantities_ok opened) Hrun)
    as [Hb Hs].
  rewrite !admitted_quantity_brought by assumption.
  change (trades (Engine.new opened)) with (@nil Trade) in *.
  simpl in Hb, Hs. lia.
Qed.

Lemma C8_quantity_conserved_witness :
  Forall (fun o => 0 <= quantity o) s5_stream /\
  Engine.processOrders 5 s5_stream (Engine.new true) = Ok (tt, s5_stream_after) /\
  admitted_quantity true s5_stream
    = filled_quantity (trades s5_stream_after)
      + resting_quantity (buyOrders (orderBook s5_stream_after)) /\
  admitted_quantity false s5_stream
    = filled_quantity (trades s5_stream_after)
      + resting_quantity (sellOrders (orderBook s5_stream_after)).
Proof.
  split; [repeat constructor; discriminate|].
  split; [vm_compute; reflexivity|].
  apply (proj2 (C8_quantity_conserved true s5_stream
                  ltac:(repeat constructor; discriminate)) 5%nat s5_stream_after).
  vm_compute; reflexivity.
Defined.

(** C8 as the specification words it, for every stream of submissions,
    fails: an order with a negative quantity passes the risk check, so it is
    admitted, and it is then neither filled nor rested. After the one
    submission of a buy order for -5 units the admitted buy quantity is -5,
    while nothing is filled and nothing rests. *)
Lemma C8_negative_quantity_not_conserved :
  exists e,
    Engine.processOrders 1 [mkOrder 1 "buy" p100 (-5) 1] (Engine.new true)
      = Ok (tt, e) /\
    admitted (mkOrder 1 "buy" p100 (-5) 1) = true /\
    admitted_quantity true [mkOrder 1 "buy" p100 (-5) 1] = -5 /\
    filled_quantity (trades e) + resting_quantity (buyOrders (orderBook e)) = 0 /\
    admitted_quantity true [mkOrder 1 "buy" p100 (-5) 1]
      <> filled_quantity (trades e) + resting_quantity (buyOrders (orderBook e)).
Proof.
  eexists. split; [vm_compute; reflexivity|]. vm_compute.
  repeat split; discriminate.
Qed.

(** C9. Processing a buy order leaves the resting buy orders as they are:
    the call returns, and afterwards the buy side holds what it held, and at
    most one order more, the incoming order with the quantity it has left;
    in the same way a sell order leaves the resting sell orders as they
    are. *)
Theorem C9_own_side_frame `{HeapAlgorithms Order}
    (fuel : nat) (newOrder : Order) (e : MatchingEngine) :
  (passes_bound (orderBook e) <= fuel)%nat ->
  exists e',
  Engine.processOrder fuel newOrder e = Ok (tt, e') /\
  (is_buy newOrder = true ->
   buyOrders (orderBook e') = buyOrders (orderBook e) \/
   exists q, 0 < q /\
     Permutation (buyOrders (orderBook e'))
       (set_quantity q newOrder :: buyOrders (orderBook e))) /\
  (is_buy newOrder = false ->
   sellOrders (orderBook e') = sellOrders (orderBook e) \/
   exists q, 0 < q /\
     Permutation (sellOrders (orderBook e'))
       (set_quantity q newOrder :: sellOrders (orderBook e))).
Proof.
  intros Hfuel.
  destruct (processOrder_terminates fuel newOrder e Hfuel) as (e' & Hrun).
  exists e'. split; [exact Hrun|].
  destruct (processOrder_Ok _ _ _ _ Hrun)
    as [[_ ->]|[(_ & Hside & Hcall)|(_ & Hside & Hcall)]].
  - split; intros _; left; reflexivity.
  - split; [intros _|congruence].
    apply processBuyOrder_summary in Hcall as (b & s & new & -> & Hb & Hbids & _).
    unfold rest_buy. destruct (Z.ltb_spec 0 (quantity b)) as [Hq|Hq]; simpl.
    + right. exists (quantity b). split; [exact Hq|]. rewrite <- Hb.
      unfold priority_queue.push.
      eapply perm_trans; [apply push_heap_Permutation|].
      rewrite Hbids. simpl. symmetry. apply Permutation_cons_append.
    + left. exact Hbids.
  - split; [congruence|intros _].
    apply processSellOrder_summary in Hcall as (b & s & new & -> & Hb & Hasks & _).
    unfold rest_sell. destruct (Z.ltb_spec 0 (quantity b)) as [Hq|Hq]; simpl.
    + right. exists (quantity b). split; [exact Hq|]. rewrite <- Hb.
      unfold priority_queue.push.
      eapply perm_trans; [apply push_heap_Permutation|].
      rewrite Hasks. simpl. symmetry. apply Permutation_cons_append.
    + left. exact Hasks.
Qed.

Lemma C9_own_side_frame_witness :
  buyOrders (orderBook frame_book) = [mkOrder 1 "buy" p99 10 1] /\
  sellOrders (orderBook frame_book) = [mkOrder 2 "sell" p101 10 2] /\
  (passes_bound (orderBook frame_book) <= 6)%nat /\
  Engine.processOrder 6 frame_buy frame_book = Ok (tt, frame_after_buy) /\
  Engine.processOrder 6 frame_sell frame_book = Ok (tt, frame_after_sell) /\
  (exists e',
   Engine.processOrder 6 frame_buy frame_book = Ok (tt, e') /\
   (is_buy frame_buy = true ->
    buyOrders (orderBook e') = buyOrders (orderBook frame_book) \/
    exists q, 0 < q /\
      Permutation (buyOrders (orderBook e'))
        (set_quantity q frame_buy :: buyOrders (orderBook frame_book))) /\
   (is_buy frame_buy = false ->
    sellOrders (orderBook e') = sellOrders (orderBook frame_book) \/
    exists q, 0 < q /\
      Permutation (sellOrders (orderBook e'))
        (set_quantity q frame_buy :: sellOrders (orderBook frame_book)))) /\
  (exists e',
   Engine.processOrder 6 frame_sell frame_book = Ok (tt, e') /\
   (is_buy frame_sell = true ->
    buyOrders (orderBook e') = buyOrders (orderBook frame_book) \/
    exists q, 0 < q /\
      Permutation (buyOrders (orderBook e'))
        (set_quantity q frame_sell :: buyOrders (orderBook frame_book))) /\
   (is_buy frame_sell = false ->
    sellOrders (orderBook e') = sellOrders (orderBook frame_book) \/
    exists q, 0 < q /\
      Permutation (sellOrders (orderBook e'))
        (set_quantity q frame_sell :: sellOrders (orderBook frame_book)))).
Proof.
  assert (Hfuel : (passes_bound (orderBook frame_book) <= 6)%nat)
    by (vm_compute; lia).
  split; [reflexivity|]. split; [reflexivity|]. split; [exact Hfuel|].
  split; [vm_compute; reflexivity|]. split; [vm_compute; reflexivity|].
  split.
  - exact (C9_own_side_frame 6 frame_buy frame_book Hfuel).
  - exact (C9_own_side_frame 6 frame_sell frame_book Hfuel).
Defined.

(** C10. An order with quantity at most 0 passes the risk check, and
    [processOrder] then leaves the order book as it was and emits no trade:
    the first test of the loop condition ends the loop (no pass is made
    through its body) and the order is not rested. Nothing is said of a
    rejection: the console shows the order as processed. *)
Theorem C10_no_quantity_dropped `{HeapAlgorithms Order}
    (fuel : nat) (newOrder : Order) (e : MatchingEngine) :
  quantity newOrder <= 0 ->
  admitted newOrder = true /\
  exists e',
    Engine.processOrder (S fuel) newOrder e = Ok (tt, e') /\
    orderBook e' = orderBook e /\
    trades e' = trades e /\
    tradeLogger e' = tradeLogger e /\
    cout e' = cout e ++ [ProcessingNewOrder newOrder] /\
    (if is_buy newOrder
     then Engine.processBuyOrder_body newOrder (printed (ProcessingNewOrder newOrder) e)
     else Engine.processSellOrder_body newOrder (printed (ProcessingNewOrder newOrder) e))
    = Ok (Break newOrder, printed (ProcessingNewOrder newOrder) e).
Proof.
  intros Hq. rewrite processOrder_unfold.
  assert (Hrisk : (Engine.MAX_QTY <? quantity newOrder) = false).
  { apply Z.ltb_ge. unfold Engine.MAX_QTY. lia. }
  assert (Hpos : (0 <? quantity newOrder) = false) by (apply Z.ltb_ge; lia).
  split; [unfold admitted; now rewrite Hrisk|].
  rewrite Hrisk. exists (printed (ProcessingNewOrder newOrder) e).
  assert (Hbuy : Engine.processBuyOrder_body newOrder (printed (ProcessingNewOrder newOrder) e)
                 = Ok (Break newOrder, printed (ProcessingNewOrder newOrder) e)).
  { destruct (processBuyOrder_body_spec newOrder (printed (ProcessingNewOrder newOrder) e))
      as [[Hb _]|(top & rest & popped & Hq' & _)]; [exact Hb|lia]. }
  assert (Hsell : Engine.processSellOrder_body newOrder (printed (ProcessingNewOrder newOrder) e)
                 = Ok (Break newOrder, printed (ProcessingNewOrder newOrder) e)).
  { destruct (processSellOrder_body_spec newOrder (printed (ProcessingNewOrder newOrder) e))
      as [[Hb _]|(top & rest & popped & Hq' & _)]; [exact Hb|lia]. }
  rewrite trades_printed, app_nil_r.
  destruct (is_buy newOrder).
  - unfold Engine.processBuyOrder; simpl. unfold bind. rewrite Hbuy. simpl.
    rewrite Hpos. unfold ret. auto 8.
  - unfold Engine.processSellOrder; simpl. unfold bind. rewrite Hsell. simpl.
    rewrite Hpos. unfold ret. auto 8.
Qed.

Lemma C10_no_quantity_dropped_witness :
  -5 <= 0 /\
  admitted (mkOrder 7 "sell" p100 (-5) 3) = true /\
  exists e',
    Engine.processOrder 1 (mkOrder 7 "sell" p100 (-5) 3) (Engine.new true)
      = Ok (tt, e') /\
    orderBook e' = orderBook (Engine.new true) /\
    trades e' = trades (Engine.new true) /\
    tradeLogger e' = tradeLogger (Engine.new true) /\
    cout e' = cout (Engine.new true) ++ [ProcessingNewOrder (mkOrder 7 "sell" p100 (-5) 3)] /\
    Engine.processSellOrder_body (mkOrder 7 "sell" p100 (-5) 3)
      (printed (ProcessingNewOrder (mkOrder 7 "sell" p100 (-5) 3)) (Engine.new true))
    = Ok (Break (mkOrder 7 "sell" p100 (-5) 3),
          printed (ProcessingNewOrder (mkOrder 7 "sell" p100 (-5) 3)) (Engine.new true)).
Proof.
  split; [lia|].
  apply (C10_no_quantity_dropped 0 (mkOrder 7 "sell" p100 (-5) 3) (Engine.new true)).
  simpl. lia.
Defined.

(** * Further properties of the program *)

(** X1. The comparators are strict weak orderings, as [std::priority_queue]
    requires of them, on orders whose price is a number: irreflexive,
    transitive, and with a transitive incomparability. Two such orders are
    incomparable, for either comparator, exactly when they have the same
    price and the same timestamp: the queue is free to serve those in any
    order, and no others. *)
Theorem X1_comparators_strict_weak :
  strict_weak_on BuyOrderComparator priced /\
  strict_weak_on SellOrderComparator priced /\
  forall a b, priced a -> priced b ->
    (BuyOrderComparator a b = false /\ BuyOrderComparator b a = false <->
     ne (price a) (price b) = false /\ timestamp a = timestamp b) /\
    (SellOrderComparator a b = false /\ SellOrderComparator b a = false <->
     ne (price a) (price b) = false /\ timestamp a = timestamp b).
Proof.
  split; [apply BuyOrderComparator_swo|]. split; [apply SellOrderComparator_swo|].
  intros a b Ha Hb. unfold BuyOrderComparator, SellOrderComparator, priced in *.
  unfold_cmp.
  cmp (price a) (price b) Ha Hb; simpl; zb; intuition (try discriminate; try lia).
Qed.

(** X2. A price that is not a number breaks the ordering. An order with such a
    price is neither below nor above any order, for both comparators; as
    orders with different prices are ordered, incomparability is then not
    transitive, and neither comparator is a strict weak ordering on all
    orders. *)
Theorem X2_nan_price_breaks_ordering :
  (forall n x, is_nan (price n) = true ->
     BuyOrderComparator n x = false /\ BuyOrderComparator x n = false /\
     SellOrderComparator n x = false /\ SellOrderComparator x n = false) /\
  ~ strict_weak_on BuyOrderComparator (fun _ => True) /\
  ~ strict_weak_on SellOrderComparator (fun _ => True).
Proof.
  split; [exact Comparator_nan|].
  pose (a := mkOrder 1 "buy" p99 10 1).
  pose (n := mkOrder 2 "buy" nan 10 2).
  pose (c := mkOrder 3 "buy" p100 10 3).
  split; intros (_ & _ & Hequiv).
  - specialize (Hequiv a n c I I I eq_refl eq_refl). discriminate.
  - specialize (Hequiv c n a I I I eq_refl eq_refl). discriminate.
Qed.

(** X3. Add, then take the top. After [addBuyOrder] on a book whose sides are
    heaps, [getTopBuyOrder] returns an order that no buy order of the book,
    the added one included, is served before: none has a higher price, nor
    the same price and an earlier timestamp. It takes that order out and
    leaves the others, in a book whose sides are heaps again, with as many
    buy orders as before the addition. The sell side is the mirror
    image. *)
Theorem X3_add_then_take_top `{HeapAlgorithms Order} (order : Order) (book : OrderBook) :
  heap_ok book -> priced order ->
  (exists top book1 book2,
     Book.addBuyOrder order book = Ok (tt, book1) /\
     Book.getTopBuyOrder book1 = Ok (top, book2) /\
     (forall x, In x (order :: buyOrders book) -> buy_priority top x) /\
     Permutation (top :: buyOrders book2) (order :: buyOrders book) /\
     sellOrders book2 = sellOrders book /\
     heap_ok book2 /\
     Book.getBuyOrderCount book2 = Ok (List.length (buyOrders book), book2)) /\
  (exists top book1 book2,
     Book.addSellOrder order book = Ok (tt, book1) /\
     Book.getTopSellOrder book1 = Ok (top, book2) /\
     (forall y, In y (order :: sellOrders book) -> sell_priority top y) /\
     Permutation (top :: sellOrders book2) (order :: sellOrders book) /\
     buyOrders book2 = buyOrders book /\
     heap_ok book2 /\
     Book.getSellOrderCount book2 = Ok (List.length (sellOrders book), book2)).
Proof.
  intros (Hbids & Hasks & HPbids & HPasks) Ho. split.
  - destruct (push_then_pop BuyOrderComparator BuyOrderComparator_swo order
                (buyOrders book) HPbids Hbids Ho)
      as (t & c' & Htop & Hpop & Hmax & Hperm & Hh & HP).
    exists t. eexists. eexists. split; [reflexivity|].
    unfold Book.getTopBuyOrder. simpl. rewrite Htop, Hpop.
    split; [reflexivity|]. simpl.
    assert (Ht : priced t).
    { apply (Forall_forall priced (order :: buyOrders book));
        [now constructor|].
      apply (Permutation_in _ Hperm). now left. }
    split; [|split; [exact Hperm|split; [reflexivity|split]]].
    + intros x Hx. apply BuyOrderComparator_false; auto.
      apply (Forall_forall priced (order :: buyOrders book)); auto.
    + unfold heap_ok. simpl. auto.
    + unfold Book.getBuyOrderCount, priority_queue.size. simpl. f_equal. f_equal.
      apply Permutation_length in Hperm. simpl in Hperm. lia.
  - destruct (push_then_pop SellOrderComparator SellOrderComparator_swo order
                (sellOrders book) HPasks Hasks Ho)
      as (t & c' & Htop & Hpop & Hmax & Hperm & Hh & HP).
    exists t. eexists. eexists. split; [reflexivity|].
    unfold Book.getTopSellOrder. simpl. rewrite Htop, Hpop.
    split; [reflexivity|]. simpl.
    assert (Ht : priced t).
    { apply (Forall_forall priced (order :: sellOrders book));
        [now constructor|].
      apply (Permutation_in _ Hperm). now left. }
    split; [|split; [exact Hperm|split; [reflexivity|split]]].
    + intros x Hx. apply SellOrderComparator_false; auto.
      apply (Forall_forall priced (order :: sellOrders book)); auto.
    + unfold heap_ok. simpl. auto.
    + unfold Book.getSellOrderCount, priority_queue.size. simpl. f_equal. f_equal.
      apply Permutation_length in Hperm. simpl in Hperm. lia.
Qed.

Lemma X3_add_then_take_top_witness :
  heap_ok (orderBook s5_book) /\
  priced (mkOrder 9 "sell" p100_50 5 9) /\
  exists top book1 book2,
    Book.addSellOrder (mkOrder 9 "sell" p100_50 5 9) (orderBook s5_book)
      = Ok (tt, book1) /\
    Book.getTopSellOrder book1 = Ok (top, book2) /\
    (forall y, In y (mkOrder 9 "sell" p100_50 5 9 :: sellOrders (orderBook s5_book)) ->
       sell_priority top y) /\
    Permutation (top :: sellOrders book2)
      (mkOrder 9 "sell" p100_50 5 9 :: sellOrders (orderBook s5_book)) /\
    buyOrders book2 = buyOrders (orderBook s5_book) /\
    heap_ok book2 /\
    Book.getSellOrderCount book2
      = Ok (List.length (sellOrders (orderBook s5_book)), book2).
Proof.
  assert (Hpriced : priced (mkOrder 9 "sell" p100_50 5 9)) by reflexivity.
  split; [exact s5_book_heap|]. split; [exact Hpriced|].
  exact (proj2 (X3_add_then_take_top (mkOrder 9 "sell" p100_50 5 9) (orderBook s5_book)
                  s5_book_heap Hpriced)).
Defined.

(** X4. The engine makes no call without a meaning. Whatever the orders and
    whatever the state of the engine, no run calls [top] or [pop] on an
    empty queue: a run ends, or is cut off by the bound on the passes of a
    loop. *)
Theorem X4_engine_never_undefined `{HeapAlgorithms Order}
    (fuel : nat) (orders : list Order) (e : MatchingEngine) :
  (exists e', Engine.processOrders fuel orders e = Ok (tt, e')) \/
  Engine.processOrders fuel orders e = OutOfFuel.
Proof.
  pose proof (processOrders_defined fuel orders e) as Hdef.
  destruct (Engine.processOrders fuel orders e) as [[[] e']| |]; eauto.
  congruence.
Qed.

(** X5. Price priority. A call on a book whose sides are heaps fills a buy
    order from the cheapest resting sell orders upwards: the prices of its
    trades never decrease, and no sell order left in the book is priced below
    any of them. A sell order is filled from the dearest resting buy orders
    downwards. *)
Theorem X5_price_priority `{HeapAlgorithms Order}
    (fuel : nat) (newOrder : Order) (e : MatchingEngine) :
  heap_ok (orderBook e) ->
  (passes_bound (orderBook e) <= fuel)%nat ->
  exists e' new,
    Engine.processOrder fuel newOrder e = Ok (tt, e') /\
    trades e' = trades e ++ new /\
    if is_buy newOrder then
      ascending_prices new /\
      forall t y, In t new -> In y (sellOrders (orderBook e')) ->
        le (tradePrice t) (price y) = true
    else
      descending_prices new /\
      forall t x, In t new -> In x (buyOrders (orderBook e')) ->
        ge (tradePrice t) (price x) = true.
Proof.
  intros Hok Hfuel.
  destruct (processOrder_terminates fuel newOrder e Hfuel) as (e' & Hrun).
  exists e'.
  destruct (processOrder_Ok _ _ _ _ Hrun)
    as [[_ ->]|[(_ & Hside & Hcall)|(_ & Hside & Hcall)]].
  - exists []. split; [exact Hrun|]. rewrite trades_printed, !app_nil_r.
    split; [reflexivity|].
    destruct (is_buy newOrder); (split; [constructor|intros t y []]).
  - apply processBuyOrder_price_priority in Hcall as (new & Hnew & Hsorted & Hbest);
      [|exact Hok].
    exists new. split; [exact Hrun|]. rewrite Hside.
    rewrite trades_printed, app_nil_r in Hnew. auto.
  - apply processSellOrder_price_priority in Hcall as (new & Hnew & Hsorted & Hbest);
      [|exact Hok].
    exists new. split; [exact Hrun|]. rewrite Hside.
    rewrite trades_printed, app_nil_r in Hnew. auto.
Qed.

Lemma X5_price_priority_witness :
  heap_ok (orderBook s5_book) /\
  (passes_bound (orderBook s5_book) <= 8)%nat /\
  exists e' new,
    Engine.processOrder 8 s5_buy s5_book = Ok (tt, e') /\
    trades e' = trades s5_book ++ new /\
    if is_buy s5_buy then
      ascending_prices new /\
      forall t y, In t new -> In y (sellOrders (orderBook e')) ->
        le (tradePrice t) (price y) = true
    else
      descending_prices new /\
      forall t x, In t new -> In x (buyOrders (orderBook e')) ->
        ge (tradePrice t) (price x) = true.
Proof.
  assert (Hheap : heap_ok (orderBook s5_book)).
  { apply (processOrders_book true 3
             [mkOrder 1 "sell" p99 10 1; mkOrder 2 "sell" p100 10 2;
              mkOrder 3 "sell" p101 10 3]
             (mkMatchingEngine (orderBook s5_book) (mkTradeLogger true [])
                [ProcessingNewOrder (mkOrder 1 "sell" p99 10 1);
                 ProcessingNewOrder (mkOrder 2 "sell" p100 10 2);
                 ProcessingNewOrder (mkOrder 3 "sell" p101 10 3)])).
    - repeat constructor.
    - vm_compute. reflexivity. }
  split; [exact Hheap|]. split; [vm_compute; lia|].
  apply (X5_price_priority 8 s5_buy s5_book Hheap). vm_compute. lia.
Defined.

(** X6. An order that does not cross rests whole. When the sell side is empty,
    or its top is priced above the limit of a buy order that passes the risk
    check, the call makes no trade, and the whole order is pushed on the buy
    side; the mirror image holds for an order of any other type, which goes
    to the sell side. *)
Theorem X6_passive_order_rests `{HeapAlgorithms Order}
    (fuel : nat) (newOrder : Order) (e : MatchingEngine) :
  0 < quantity newOrder <= Engine.MAX_QTY ->
  (forall top,
     priority_queue.top (if is_buy newOrder then sellOrders (orderBook e)
                         else buyOrders (orderBook e)) = Some top ->
     (if is_buy newOrder then ge (price newOrder) (price top)
      else le (price newOrder) (price top)) = false) ->
  Engine.processOrder (S fuel) newOrder e =
  Ok (tt,
      {| orderBook :=
           if is_buy newOrder then
             {| buyOrders := priority_queue.push BuyOrderComparator newOrder
                               (buyOrders (orderBook e));
                sellOrders := sellOrders (orderBook e) |}
           else
             {| buyOrders := buyOrders (orderBook e);
                sellOrders := priority_queue.push SellOrderComparator newOrder
                                (sellOrders (orderBook e)) |};
         tradeLogger := tradeLogger e;
         cout := cout e ++ [ProcessingNewOrder newOrder] |}).
Proof.
  intros Hq Hno. rewrite processOrder_unfold.
  destruct (Z.ltb_spec Engine.MAX_QTY (quantity newOrder)); [lia|].
  assert (Hpos : (0 <? quantity newOrder) = true) by (apply Z.ltb_lt; lia).
  destruct (is_buy newOrder).
  - unfold Engine.processBuyOrder. simpl. unfold bind.
    rewrite (processBuyOrder_body_no_match newOrder
               (printed (ProcessingNewOrder newOrder) e) Hno).
    simpl. now rewrite Hpos.
  - unfold Engine.processSellOrder. simpl. unfold bind.
    rewrite (processSellOrder_body_no_match newOrder
               (printed (ProcessingNewOrder newOrder) e) Hno).
    simpl. now rewrite Hpos.
Qed.

Lemma X6_passive_order_rests_witness :
  0 < quantity (mkOrder 4 "buy" p99 40 4) <= Engine.MAX_QTY /\
  Engine.processOrder 1 (mkOrder 4 "buy" p99 40 4) s4_book =
  Ok (tt,
      {| orderBook :=
           {| buyOrders := priority_queue.push BuyOrderComparator
                             (mkOrder 4 "buy" p99 40 4) (buyOrders (orderBook s4_book));
              sellOrders := sellOrders (orderBook s4_book) |};
         tradeLogger := tradeLogger s4_book;
         cout := cout s4_book ++ [ProcessingNewOrder (mkOrder 4 "buy" p99 40 4)] |}).
Proof.
  split; [unfold Engine.MAX_QTY; simpl; lia|].
  apply (X6_passive_order_rests 0 (mkOrder 4 "buy" p99 40 4) s4_book).
  - unfold Engine.MAX_QTY; simpl; lia.
  - intros top Htop. injection Htop as <-. vm_compute. reflexivity.
Defined.

(** X7. One trade fills a small order. A buy order that passes the risk
    check, crosses the top of the sell side and asks for no more than the top
    offers makes one trade, with the top, for its whole quantity and at the
    price of the top, and does not rest; the top returns to the sell side
    with what is left of it, if anything is, beside the other sell orders.
    The mirror image holds for an order of any other type. *)
Theorem X7_small_order_filled_by_top `{HeapAlgorithms Order}
    (fuel : nat) (newOrder top : Order) (rest : list Order) (e : MatchingEngine) :
  0 < quantity newOrder <= Engine.MAX_QTY ->
  quantity newOrder <= quantity top <= CInt.int_max ->
  (if is_buy newOrder then sellOrders (orderBook e)
   else buyOrders (orderBook e)) = top :: rest ->
  (if is_buy newOrder then ge (price newOrder) (price top)
   else le (price newOrder) (price top)) = true ->
  exists e',
    Engine.processOrder (S (S fuel)) newOrder e = Ok (tt, e') /\
    trades e' = trades e ++
      [if is_buy newOrder
       then mkTrade (orderID newOrder) (orderID top) (price top) (quantity newOrder)
       else mkTrade (orderID top) (orderID newOrder) (price top) (quantity newOrder)] /\
    (if is_buy newOrder then buyOrders (orderBook e')
     else sellOrders (orderBook e'))
    = (if is_buy newOrder then buyOrders (orderBook e)
       else sellOrders (orderBook e)) /\
    Permutation
      (if is_buy newOrder then sellOrders (orderBook e')
       else buyOrders (orderBook e'))
      (if quantity newOrder <? quantity top
       then set_quantity (quantity top - quantity newOrder) top :: rest
       else rest).
Proof.
  intros Hq Htop Hside Hcross. rewrite processOrder_unfold.
  destruct (Z.ltb_spec Engine.MAX_QTY (quantity newOrder)); [lia|].
  assert (Htraded : traded newOrder top = quantity newOrder).
  { unfold traded. destruct (min_cases (quantity newOrder) (quantity top)) as [[? ?]|[_ ->]];
      [lia|reflexivity]. }
  assert (Hleft : CInt.sub (quantity top) (quantity newOrder)
                  = quantity top - quantity newOrder).
  { unfold CInt.sub. apply wrap_in_range.
    unfold CInt.in_range, CInt.int_min, CInt.int_max in *. lia. }
  assert (Hdone : quantity (after_trade newOrder top newOrder) <= 0).
  { unfold after_trade; simpl. rewrite Htraded, sub_self. lia. }
  assert (Hz : (0 <? CInt.sub (quantity newOrder) (traded newOrder top)) = false).
  { apply Z.ltb_ge. exact Hdone. }
  destruct (is_buy newOrder).
  - destruct (processBuyOrder_body_spec newOrder (printed (ProcessingNewOrder newOrder) e))
      as [[_ [Hstop|[Hstop|(top' & Htop' & Hstop)]]]|
          (top' & rest' & popped & _ & Ha & _ & _ & Hperm & Hstep)].
    + lia.
    + simpl in Hstop. congruence.
    + simpl in Htop'. rewrite Hside in Htop'. injection Htop' as <-. congruence.
    + simpl in Ha. rewrite Hside in Ha. injection Ha as <- <-. simpl in Hstep.
      eexists. split.
      * unfold Engine.processBuyOrder. simpl. unfold bind. rewrite Hstep.
        rewrite (processBuyOrder_body_exhausted _ _ Hdone).
        simpl. rewrite Hz. reflexivity.
      * unfold trades; simpl. rewrite !trades_of_app; simpl.
        rewrite app_nil_r, Htraded. split; [reflexivity|]. split; [reflexivity|].
        eapply perm_trans; [apply (requeue_Permutation _ _ popped rest Hperm)|].
        unfold after_trade; simpl. rewrite Htraded, Hleft.
        destruct (Z.ltb_spec 0 (quantity top - quantity newOrder));
          destruct (Z.ltb_spec (quantity newOrder) (quantity top)); try lia;
          apply Permutation_refl.
  - destruct (processSellOrder_body_spec newOrder (printed (ProcessingNewOrder newOrder) e))
      as [[_ [Hstop|[Hstop|(top' & Htop' & Hstop)]]]|
          (top' & rest' & popped & _ & Hb & _ & _ & Hperm & Hstep)].
    + lia.
    + simpl in Hstop. congruence.
    + simpl in Htop'. rewrite Hside in Htop'. injection Htop' as <-. congruence.
    + simpl in Hb. rewrite Hside in Hb. injection Hb as <- <-. simpl in Hstep.
      eexists. split.
      * unfold Engine.processSellOrder. simpl. unfold bind. rewrite Hstep.
        rewrite (processSellOrder_body_exhausted _ _ Hdone).
        simpl. rewrite Hz. reflexivity.
      * unfold trades; simpl. rewrite !trades_of_app; simpl.
        rewrite app_nil_r, Htraded. split; [reflexivity|]. split; [reflexivity|].
        eapply perm_trans; [apply (requeue_Permutation _ _ popped rest Hperm)|].
        unfold after_trade; simpl. rewrite Htraded, Hleft.
        destruct (Z.ltb_spec 0 (quantity top - quantity newOrder));
          destruct (Z.ltb_spec (quantity newOrder) (quantity top)); try lia;
          apply Permutation_refl.
Qed.
Lemma X7_small_order_filled_by_top_witness :
  0 < quantity (mkOrder 3 "buy" p100 5 3) <= Engine.MAX_QTY /\
  quantity (mkOrder 3 "buy" p100 5 3) <= quantity (mkOrder 1 "sell" p100 10 1)
    <= CInt.int_max /\
  exists e',
    Engine.processOrder 2 (mkOrder 3 "buy" p100 5 3) s4_book = Ok (tt, e') /\
    trades e' = trades s4_book ++ [mkTrade 3 1 p100 5] /\
    buyOrders (orderBook e') = buyOrders (orderBook s4_book) /\
    Permutation (sellOrders (orderBook e'))
      [mkOrder 1 "sell" p100 5 1; mkOrder 2 "sell" p100 10 2].
Proof.
  assert (Hq : 0 < quantity (mkOrder 3 "buy" p100 5 3) <= Engine.MAX_QTY)
    by (unfold Engine.MAX_QTY; simpl; lia).
  assert (Htop : quantity (mkOrder 3 "buy" p100 5 3)
                 <= quantity (mkOrder 1 "sell" p100 10 1) <= CInt.int_max)
    by (unfold CInt.int_max; simpl; lia).
  split; [exact Hq|]. split; [exact Htop|].
  exact (X7_small_order_filled_by_top 0 (mkOrder 3 "buy" p100 5 3)
           (mkOrder 1 "sell" p100 10 1) [mkOrder 2 "sell" p100 10 2] s4_book
           Hq Htop eq_refl eq_refl).
Defined.

(** X8. How a call changes the size of the book. A call makes at most as many
    trades as orders rest on the opposite side. Every trade takes the resting
    order out of the book, except that the last trade of the call may leave
    it in with a smaller quantity; and when the incoming order comes to rest,
    every trade took its resting order out. The opposite side never grows,
    and the own side grows by the incoming order or not at all. *)
Theorem X8_trades_and_book_size `{HeapAlgorithms Order}
    (fuel : nat) (newOrder : Order) (e : MatchingEngine) :
  (passes_bound (orderBook e) <= fuel)%nat ->
  exists e' new,
    Engine.processOrder fuel newOrder e = Ok (tt, e') /\
    trades e' = trades e ++ new /\
    let own b := if is_buy newOrder then buyOrders b else sellOrders b in
    let opposite b := if is_buy newOrder then sellOrders b else buyOrders b in
    let removed :=
      (List.length (opposite (orderBook e))
       - List.length (opposite (orderBook e')))%nat in
    (List.length new <= List.length (opposite (orderBook e)))%nat /\
    (List.length (opposite (orderBook e'))
     <= List.length (opposite (orderBook e)))%nat /\
    (List.length new = removed \/ List.length new = removed + 1)%nat /\
    (List.length (own (orderBook e')) = List.length (own (orderBook e)) \/
     (List.length (own (orderBook e')) = List.length (own (orderBook e)) + 1 /\
      List.length new = removed))%nat.
Proof.
  intros Hfuel.
  destruct (processOrder_terminates fuel newOrder e Hfuel) as (e' & Hrun).
  exists e'.
  destruct (processOrder_Ok _ _ _ _ Hrun)
    as [[_ ->]|[(_ & Hside & Hcall)|(_ & Hside & Hcall)]].
  - exists []. split; [exact Hrun|]. rewrite trades_printed, !app_nil_r.
    split; [reflexivity|]. simpl. destruct (is_buy newOrder); lia.
  - apply processBuyOrder_count in Hcall as (b & new & Hnew & Hcount & Hown).
    exists new. split; [exact Hrun|]. rewrite trades_printed, app_nil_r in Hnew.
    split; [exact Hnew|]. rewrite Hside. simpl in *.
    destruct (Z.ltb_spec 0 (quantity b)); destruct Hcount as [?|(? & ? & ? & ?)]; lia.
  - apply processSellOrder_count in Hcall as (b & new & Hnew & Hcount & Hown).
    exists new. split; [exact Hrun|]. rewrite trades_printed, app_nil_r in Hnew.
    split; [exact Hnew|]. rewrite Hside. simpl in *.
    destruct (Z.ltb_spec 0 (quantity b)); destruct Hcount as [?|(? & ? & ? & ?)]; lia.
Qed.

Lemma X8_trades_and_book_size_witness :
  (passes_bound (orderBook s5_book) <= 8)%nat /\
  exists e' new,
    Engine.processOrder 8 s5_buy s5_book = Ok (tt, e') /\
    trades e' = trades s5_book ++ new /\
    (List.length new <= List.length (sellOrders (orderBook s5_book)))%nat /\
    (List.length (sellOrders (orderBook e'))
     <= List.length (sellOrders (orderBook s5_book)))%nat /\
    (List.length new
     = List.length (sellOrders (orderBook s5_book))
       - List.length (sellOrders (orderBook e')) \/
     List.length new
     = List.length (sellOrders (orderBook s5_book))
       - List.length (sellOrders (orderBook e')) + 1)%nat /\
    (List.length (buyOrders (orderBook e'))
     = List.length (buyOrders (orderBook s5_book)) \/
     (List.length (buyOrders (orderBook e'))
      = List.length (buyOrders (orderBook s5_book)) + 1 /\
      List.length new
      = List.length (sellOrders (orderBook s5_book))
        - List.length (sellOrders (orderBook e'))))%nat.
Proof.
  split; [vm_compute; lia|].
  apply (X8_trades_and_book_size 8 s5_buy s5_book). vm_compute. lia.
Defined.

(** X9. Quantities stay within the risk limit. Whatever is submitted to a
    fresh engine, every order resting in the book has a quantity from 1 to
    1000, and every trade is for a quantity from 1 to 1000: no trade is ever
    empty, and none exceeds the limit of the risk check. *)
Theorem X9_quantities_within_limit `{HeapAlgorithms Order}
    (opened : bool) (orders : list Order) :
  (exists fuel e,
     Engine.processOrders fuel orders (Engine.new opened) = Ok (tt, e)) /\
  (forall fuel e,
     Engine.processOrders fuel orders (Engine.new opened) = Ok (tt, e) ->
     (forall o, In o (buyOrders (orderBook e)) \/ In o (sellOrders (orderBook e)) ->
        0 < quantity o <= Engine.MAX_QTY) /\
     (forall t, In t (trades e) -> 0 < tradeQuantity t <= Engine.MAX_QTY)).
Proof.
  split.
  - destruct (processOrders_terminates orders (Engine.new opened)
                (passes_bound (orderBook (Engine.new opened))
                 + 2 * List.length orders)%nat (le_n _)) as (e & He).
    eauto.
  - intros fuel e Hrun.
    destruct (processOrders_limit fuel orders _ e (new_limit opened) Hrun)
      as [[Hbids Hasks] Hts].
    unfold limit_ok in *. rewrite Forall_forall in *. split.
    + intros o [Ho|Ho]; auto.
    + exact Hts.
Qed.

(** X10. Resting bids are below resting asks. Whatever orders with a number
    for a price are submitted to a fresh engine, of any type, quantity and
    sign of the price, every buy order resting in the book is priced strictly
    below every sell order resting in it, after each submission. *)
Theorem X10_bids_below_asks `{HeapAlgorithms Order}
    (opened : bool) (orders : list Order) :
  Forall priced orders ->
  (exists fuel e,
     Engine.processOrders fuel orders (Engine.new opened) = Ok (tt, e)) /\
  (forall fuel e,
     Engine.processOrders fuel orders (Engine.new opened) = Ok (tt, e) ->
     forall x y,
       In x (buyOrders (orderBook e)) -> In y (sellOrders (orderBook e)) ->
       lt (price x) (price y) = true).
Proof.
  intros Hpriced. split.
  - destruct (processOrders_terminates orders (Engine.new opened)
                (passes_bound (orderBook (Engine.new opened))
                 + 2 * List.length orders)%nat (le_n _)) as (e & He).
    eauto.
  - intros fuel e Hrun.
    now destruct (processOrders_book opened fuel orders e Hpriced Hrun) as [_ Hfree].
Qed.

Lemma X10_bids_below_asks_witness :
  Forall priced [mkOrder 1 "hold" p100 10 1; mkOrder 2 "buy" minus_one 10 2] /\
  (exists fuel e,
     Engine.processOrders fuel
       [mkOrder 1 "hold" p100 10 1; mkOrder 2 "buy" minus_one 10 2]
       (Engine.new true) = Ok (tt, e)) /\
  (forall fuel e,
     Engine.processOrders fuel
       [mkOrder 1 "hold" p100 10 1; mkOrder 2 "buy" minus_one 10 2]
       (Engine.new true) = Ok (tt, e) ->
     forall x y,
       In x (buyOrders (orderBook e)) -> In y (sellOrders (orderBook e)) ->
       lt (price x) (price y) = true).
Proof.
  assert (Hpriced : Forall priced
            [mkOrder 1 "hold" p100 10 1; mkOrder 2 "buy" minus_one 10 2])
    by (repeat constructor).
  split; [exact Hpriced|].
  exact (X10_bids_below_asks true
           [mkOrder 1 "hold" p100 10 1; mkOrder 2 "buy" minus_one 10 2] Hpriced).
Defined.

(** X11. The parties of a trade. Whatever is submitted to a fresh engine,
    every trade on the console pairs a submission that was dispatched to the
    buy side with one that was dispatched to the sell side, both within the
    risk limit: the trade carries their two identifiers, and its price is the
    price of one of them. Every resting order is what is left of such a
    submission, on the side it was dispatched to, with its identifier, type,
    price and timestamp. *)
Theorem X11_trades_pair_submissions `{HeapAlgorithms Order}
    (opened : bool) (orders : list Order) :
  (exists fuel e,
     Engine.processOrders fuel orders (Engine.new opened) = Ok (tt, e)) /\
  (forall fuel e,
     Engine.processOrders fuel orders (Engine.new opened) = Ok (tt, e) ->
     (forall t, In t (trades e) -> trade_between orders t) /\
     book_from orders (orderBook e)).
Proof.
  split.
  - destruct (processOrders_terminates orders (Engine.new opened)
                (passes_bound (orderBook (Engine.new opened))
                 + 2 * List.length orders)%nat (le_n _)) as (e & He).
    eauto.
  - intros fuel e Hrun.
    assert (Hbook0 : book_from [] (orderBook (Engine.new opened)))
      by (split; intros x []).
    assert (Hts0 : Forall (trade_between []) (trades (Engine.new opened)))
      by constructor.
    destruct (processOrders_parties fuel orders [] _ e Hbook0 Hts0 Hrun)
      as [Hbook Hts].
    simpl in *. rewrite Forall_forall in Hts. auto.
Qed.

(** X12. The log file mirrors the console. Whatever is submitted to a fresh
    engine, the trades written to [trades.log] are the trades written to the
    console, in the same order, when the file could be opened; when it could
    not, nothing is written to it, and the trades are on the console only. *)
Theorem X12_log_file_mirrors_console `{HeapAlgorithms Order}
    (opened : bool) (orders : list Order) :
  (exists fuel e,
     Engine.processOrders fuel orders (Engine.new opened) = Ok (tt, e)) /\
  (forall fuel e,
     Engine.processOrders fuel orders (Engine.new opened) = Ok (tt, e) ->
     is_open (tradeLogger e) = opened /\
     logFile (tradeLogger e) = if opened then trades e else []).
Proof.
  split.
  - destruct (processOrders_terminates orders (Engine.new opened)
                (passes_bound (orderBook (Engine.new opened))
                 + 2 * List.length orders)%nat (le_n _)) as (e & He).
    eauto.
  - intros fuel e Hrun.
    assert (Hlog0 : logFile (tradeLogger (Engine.new opened))
                    = if is_open (tradeLogger (Engine.new opened))
                      then trades (Engine.new opened) else [])
      by (simpl; now destruct opened).
    destruct (processOrders_logFile fuel orders _ e Hlog0 Hrun) as [Hopen Hlog].
    simpl in Hopen. rewrite Hopen in Hlog. auto.
Qed.

(** X13. Identifiers stay distinct. When the orders submitted to a fresh
    engine carry pairwise distinct identifiers, no two orders resting in the
    book, on either side, carry the same identifier, and every identifier in
    the book is the identifier of a submission. *)
Theorem X13_distinct_ids_stay_distinct `{HeapAlgorithms Order}
    (opened : bool) (orders : list Order) :
  NoDup (map orderID orders) ->
  (exists fuel e,
     Engine.processOrders fuel orders (Engine.new opened) = Ok (tt, e)) /\
  (forall fuel e,
     Engine.processOrders fuel orders (Engine.new opened) = Ok (tt, e) ->
     NoDup (resting_ids (orderBook e)) /\
     incl (resting_ids (orderBook e)) (map orderID orders)).
Proof.
  intros Hnd. split.
  - destruct (processOrders_terminates orders (Engine.new opened)
                (passes_bound (orderBook (Engine.new opened))
                 + 2 * List.length orders)%nat (le_n _)) as (e & He).
    eauto.
  - intros fuel e Hrun.
    destruct (processOrders_ids fuel orders (Engine.new opened) e) as [Hnd' Hincl];
      [simpl; now rewrite app_nil_r|exact Hrun|].
    split; [exact Hnd'|]. simpl in Hincl. now rewrite app_nil_r in Hincl.
Qed.

Lemma X13_distinct_ids_stay_distinct_witness :
  NoDup (map orderID s5_stream) /\
  (exists fuel e,
     Engine.processOrders fuel s5_stream (Engine.new true) = Ok (tt, e)) /\
  (forall fuel e,
     Engine.processOrders fuel s5_stream (Engine.new true) = Ok (tt, e) ->
     NoDup (resting_ids (orderBook e)) /\
     incl (resting_ids (orderBook e)) (map orderID s5_stream)).
Proof.
  assert (Hids : NoDup (map orderID s5_stream)).
  { vm_compute. repeat constructor; simpl; intuition discriminate. }
  split; [exact Hids|].
  exact (X13_distinct_ids_stay_distinct true s5_stream Hids).
Defined.

(** X15. What the display shows. With fuel for six passes of a loop,
    [displayOrderBook] ends and writes, between the headers and the footer,
    for each side of the book: the message for an empty side or, for a side
    of [n] orders, the first [min 5 n] orders that [top] and [pop] give,
    starting with the top of the side, and then, when [n] is above five, the
    number [n - 5] of the orders that are not shown. The orders shown are
    orders of the side, each shown once. *)
Theorem X15_display_shows_five `{HeapAlgorithms Order}
    (fuel : nat) (book : OrderBook) (out : list ScreenLine) :
  (6 <= fuel)%nat ->
  exists buys sells,
    Display.displayOrderBook fuel book out =
    Ok (tt,
        out ++ [OrderBookHeader; BuyOrdersHeader]
            ++ side_lines NoBuyOrders MoreBuyOrders (buyOrders book) buys
            ++ [SellOrdersHeader]
            ++ side_lines NoSellOrders MoreSellOrders (sellOrders book) sells
            ++ [OrderBookFooter]) /\
    List.length buys = Nat.min 5 (List.length (buyOrders book)) /\
    List.length sells = Nat.min 5 (List.length (sellOrders book)) /\
    hd_error buys = priority_queue.top (buyOrders book) /\
    hd_error sells = priority_queue.top (sellOrders book) /\
    (exists others, Permutation (buys ++ others) (buyOrders book)) /\
    (exists others, Permutation (sells ++ others) (sellOrders book)).
Proof.
  intros Hfuel.
  exists (fst (drain BuyOrderComparator 5 (buyOrders book))),
         (fst (drain SellOrderComparator 5 (sellOrders book))).
  split; [now apply displayOrderBook_lines|].
  destruct (drain_length BuyOrderComparator 5 (buyOrders book)) as [Hlb Hpb].
  destruct (drain_length SellOrderComparator 5 (sellOrders book)) as [Hls Hps].
  split; [exact Hlb|]. split; [exact Hls|].
  split; [apply drain_hd|]. split; [apply drain_hd|]. eauto.
Qed.

Lemma X15_display_shows_five_witness :
  (6 <= 6)%nat /\
  exists buys sells,
    Display.displayOrderBook 6 (orderBook s5_book) [] =
    Ok (tt,
        [] ++ [OrderBookHeader; BuyOrdersHeader]
           ++ side_lines NoBuyOrders MoreBuyOrders (buyOrders (orderBook s5_book)) buys
           ++ [SellOrdersHeader]
           ++ side_lines NoSellOrders MoreSellOrders
                (sellOrders (orderBook s5_book)) sells
           ++ [OrderBookFooter]) /\
    List.length buys = Nat.min 5 (List.length (buyOrders (orderBook s5_book))) /\
    List.length sells = Nat.min 5 (List.length (sellOrders (orderBook s5_book))) /\
    hd_error buys = priority_queue.top (buyOrders (orderBook s5_book)) /\
    hd_error sells = priority_queue.top (sellOrders (orderBook s5_book)) /\
    (exists others, Permutation (buys ++ others) (buyOrders (orderBook s5_book))) /\
    (exists others, Permutation (sells ++ others) (sellOrders (orderBook s5_book))).
Proof.
  split; [lia|].
  apply (X15_display_shows_five 6 (orderBook s5_book) []). lia.
Defined.

(** X16. The display shows the best orders, best first. On a book whose sides
    are heaps, the buy orders shown are in the order of service, highest
    price first and, at one price, earliest timestamp first, and every buy
    order that is not shown comes after all those shown; the sell orders
    shown are in the order of service, lowest price first, and every sell
    order that is not shown comes after them. *)
Theorem X16_display_best_first `{HeapAlgorithms Order}
    (fuel : nat) (book : OrderBook) (out : list ScreenLine) :
  (6 <= fuel)%nat -> heap_ok book ->
  exists buys sells other_buys other_sells,
    Display.displayOrderBook fuel book out =
    Ok (tt,
        out ++ [OrderBookHeader; BuyOrdersHeader]
            ++ side_lines NoBuyOrders MoreBuyOrders (buyOrders book) buys
            ++ [SellOrdersHeader]
            ++ side_lines NoSellOrders MoreSellOrders (sellOrders book) sells
            ++ [OrderBookFooter]) /\
    Permutation (buys ++ other_buys) (buyOrders book) /\
    Permutation (sells ++ other_sells) (sellOrders book) /\
    StronglySorted buy_priority buys /\
    StronglySorted sell_priority sells /\
    (forall x y, In x buys -> In y other_buys -> buy_priority x y) /\
    (forall x y, In x sells -> In y other_sells -> sell_priority x y).
Proof.
  intros Hfuel (Hbids & Hasks & HPbids & HPasks).
  exists (fst (drain BuyOrderComparator 5 (buyOrders book))),
         (fst (drain SellOrderComparator 5 (sellOrders book))),
         (snd (drain BuyOrderComparator 5 (buyOrders book))),
         (snd (drain SellOrderComparator 5 (sellOrders book))).
  split; [now apply displayOrderBook_lines|].
  destruct (drain_length BuyOrderComparator 5 (buyOrders book)) as [_ Hpb].
  destruct (drain_length SellOrderComparator 5 (sellOrders book)) as [_ Hps].
  destruct (drain_priority BuyOrderComparator buy_priority 5 (buyOrders book)
              BuyOrderComparator_swo) as [Hsb Hbb]; auto.
  { intros x y Hx Hy Hc. now apply BuyOrderComparator_false. }
  destruct (drain_priority SellOrderComparator sell_priority 5 (sellOrders book)
              SellOrderComparator_swo) as [Hss Hbs]; auto.
  { intros x y Hx Hy Hc. now apply SellOrderComparator_false. }
  split; [exact Hpb|]. split; [exact Hps|]. split; [exact Hsb|].
  split; [exact Hss|]. split; [exact Hbb|exact Hbs].
Qed.

Lemma X16_display_best_first_witness :
  (6 <= 6)%nat /\ heap_ok (orderBook s5_book) /\
  exists buys sells other_buys other_sells,
    Display.displayOrderBook 6 (orderBook s5_book) [] =
    Ok (tt,
        [] ++ [OrderBookHeader; BuyOrdersHeader]
           ++ side_lines NoBuyOrders MoreBuyOrders (buyOrders (orderBook s5_book)) buys
           ++ [SellOrdersHeader]
           ++ side_lines NoSellOrders MoreSellOrders
                (sellOrders (orderBook s5_book)) sells
           ++ [OrderBookFooter]) /\
    Permutation (buys ++ other_buys) (buyOrders (orderBook s5_book)) /\
    Permutation (sells ++ other_sells) (sellOrders (orderBook s5_book)) /\
    StronglySorted buy_priority buys /\
    StronglySorted sell_priority sells /\
    (forall x y, In x buys -> In y other_buys -> buy_priority x y) /\
    (forall x y, In x sells -> In y other_sells -> sell_priority x y).
Proof.
  split; [lia|]. split; [exact s5_book_heap|].
  apply (X16_display_best_first 6 (orderBook s5_book) []); [lia|exact s5_book_heap].
Defined.

(** X17. A generated order is a valid submission. From draws in the ranges of
    its distributions, [generateRandomOrder] builds an order with the
    identifier given and the time of the clock, a type that is [buy] or
    [sell], a price above zero (the price drawn, times 100, rounded, divided
    by 100, in the arithmetic of doubles), and a quantity from 10 to 500,
    which passes the risk check. *)
Theorem X17_generated_order_valid (id : Z) (d : Draw) :
  in_distribution d = true ->
  valid_submission (Utils.generateRandomOrder id d) = true /\
  admitted (Utils.generateRandomOrder id d) = true /\
  10 <= quantity (Utils.generateRandomOrder id d) <= 500 /\
  orderID (Utils.generateRandomOrder id d) = id /\
  timestamp (Utils.generateRandomOrder id d) = clock d.
Proof.
  intros Hd. destruct (generateRandomOrder_valid id d Hd) as (Hv & Ha & Hq).
  repeat split; try assumption; lia.
Qed.

Lemma X17_generated_order_valid_witness :
  in_distribution draw_buy = true /\
  valid_submission (Utils.generateRandomOrder 10001 draw_buy) = true /\
  admitted (Utils.generateRandomOrder 10001 draw_buy) = true /\
  10 <= quantity (Utils.generateRandomOrder 10001 draw_buy) <= 500 /\
  orderID (Utils.generateRandomOrder 10001 draw_buy) = 10001 /\
  timestamp (Utils.generateRandomOrder 10001 draw_buy) = clock draw_buy.
Proof.
  split; [vm_compute; reflexivity|].
  apply (X17_generated_order_valid 10001 draw_buy). vm_compute. reflexivity.
Defined.

(** X18. The generator submits its orders one after the other. For a count
    within [int] and with fuel for the passes, [generateRandomOrders] leaves
    the engine as a stream of [count] submissions does, the orders being
    those that [generateRandomOrder] builds from the successive draws, with
    consecutive identifiers from the counter of random orders on; the counter
    advances by [count], and the counter of [main] is not touched. A count of
    zero or less submits nothing. *)
Theorem X18_generateRandomOrders_submits `{HeapAlgorithms Order}
    (fuel : nat) (count : Z) (draws : Z -> Draw) (p : Program) :
  count <= CInt.int_max ->
  CInt.int_min <= randomOrderCounter p ->
  randomOrderCounter p + Z.max 0 count <= CInt.int_max ->
  (passes_bound (orderBook (engine (locals p))) + 2 * Z.to_nat count < fuel)%nat ->
  exists e',
    Engine.processOrders fuel
      (random_orders draws (randomOrderCounter p) 0 (Z.to_nat count))
      (engine (locals p)) = Ok (tt, e') /\
    Menu.generateRandomOrders fuel count draws p =
    Ok (tt,
        {| locals := {| engine := e'; orderCounter := orderCounter (locals p) |};
           randomOrderCounter := randomOrderCounter p + Z.max 0 count;
           screen := screen p ++ [GeneratingRandomOrders count] |}).
Proof.
  intros Hcount Hlo Hhi Hfuel.
  destruct (processOrders_terminates
              (random_orders draws (randomOrderCounter p) 0 (Z.to_nat count))
              (engine (locals p)) fuel) as (e' & Hrun).
  { rewrite random_orders_length. lia. }
  exists e'. split; [exact Hrun|].
  apply generateRandomOrders_spec; auto. lia.
Qed.

Lemma X18_generateRandomOrders_submits_witness :
  3 <= CInt.int_max /\
  CInt.int_min <= randomOrderCounter (Menu.new true) /\
  randomOrderCounter (Menu.new true) + Z.max 0 3 <= CInt.int_max /\
  (passes_bound (orderBook (engine (locals (Menu.new true)))) + 2 * Z.to_nat 3 < 9)%nat /\
  exists e',
    Engine.processOrders 9
      (random_orders (fun _ => draw_sell) (randomOrderCounter (Menu.new true)) 0
         (Z.to_nat 3))
      (engine (locals (Menu.new true))) = Ok (tt, e') /\
    Menu.generateRandomOrders 9 3 (fun _ => draw_sell) (Menu.new true) =
    Ok (tt,
        {| locals := {| engine := e';
                        orderCounter := orderCounter (locals (Menu.new true)) |};
           randomOrderCounter := randomOrderCounter (Menu.new true) + Z.max 0 3;
           screen := screen (Menu.new true) ++ [GeneratingRandomOrders 3] |}).
Proof.
  assert (H1 : 3 <= CInt.int_max) by (unfold CInt.int_max; lia).
  assert (H2 : CInt.int_min <= randomOrderCounter (Menu.new true))
    by (unfold CInt.int_min; simpl; lia).
  assert (H3 : randomOrderCounter (Menu.new true) + Z.max 0 3 <= CInt.int_max)
    by (unfold CInt.int_max; simpl; lia).
  assert (H4 : (passes_bound (orderBook (engine (locals (Menu.new true))))
                + 2 * Z.to_nat 3 < 9)%nat)
    by (vm_compute; lia).
  split; [exact H1|]. split; [exact H2|]. split; [exact H3|]. split; [exact H4|].
  exact (X18_generateRandomOrders_submits 9 3 (fun _ => draw_sell) (Menu.new true)
           H1 H2 H3 H4).
Defined.

(** X19. A session at the menu leaves the book in order. Whatever is chosen
    and typed at the menu, pass after pass, with prices that are numbers and
    random draws in the ranges of the distributions, every pass ends, no call
    is made that has no meaning, and after the last pass the sides of the
    book are heaps, every resting buy order is priced strictly below every
    resting sell order, and every resting order has a quantity from 1 to
    1000. *)
Theorem X19_session_leaves_book_in_order `{HeapAlgorithms Order}
    (opened : bool) (inputs : list Input) (fuel : nat) :
  Forall input_ok inputs ->
  (session_bound inputs <= fuel)%nat ->
  exists exited p,
    Menu.main fuel inputs (Menu.new opened) = Ok (exited, p) /\
    heap_ok (orderBook (engine (locals p))) /\
    uncrossed (orderBook (engine (locals p))) /\
    (forall x y,
       In x (buyOrders (orderBook (engine (locals p)))) ->
       In y (sellOrders (orderBook (engine (locals p)))) ->
       lt (price x) (price y) = true) /\
    (forall o,
       In o (buyOrders (orderBook (engine (locals p)))) \/
       In o (sellOrders (orderBook (engine (locals p)))) ->
       0 < quantity o <= Engine.MAX_QTY).
Proof.
  intros Hinputs Hfuel. unfold session_bound in Hfuel.
  assert (Hnew : engine_ok 2 (engine (locals (Menu.new opened)))).
  { destruct (new_book opened) as [Hheap Hfree].
    destruct (new_limit opened) as [Hlimit Hts].
    split; [exact Hheap|]. split; [exact Hfree|]. split; [exact Hlimit|].
    split; [exact Hts|]. unfold passes_bound. simpl. lia. }
  destruct (main_engine_ok fuel inputs 2 (Menu.new opened) Hinputs Hnew)
    as (exited & p & Hrun & Hheap & Hfree & [Hbids Hasks] & _ & _); [lia|lia|].
  exists exited, p. split; [exact Hrun|]. split; [exact Hheap|].
  split; [now apply cross_free_uncrossed|]. split; [exact Hfree|].
  unfold limit_ok in *. rewrite Forall_forall in *. intros o [Ho|Ho]; auto.
Qed.

Lemma X19_session_leaves_book_in_order_witness :
  Forall input_ok session /\
  (session_bound session <= 1102)%nat /\
  exists exited p,
    Menu.main 1102 session (Menu.new true) = Ok (exited, p) /\
    heap_ok (orderBook (engine (locals p))) /\
    uncrossed (orderBook (engine (locals p))) /\
    (forall x y,
       In x (buyOrders (orderBook (engine (locals p)))) ->
       In y (sellOrders (orderBook (engine (locals p)))) ->
       lt (price x) (price y) = true) /\
    (forall o,
       In o (buyOrders (orderBook (engine (locals p)))) \/
       In o (sellOrders (orderBook (engine (locals p)))) ->
       0 < quantity o <= Engine.MAX_QTY).
Proof.
  assert (Hfuel : (session_bound session <= 1102)%nat) by (vm_compute; lia).
  split; [exact session_inputs_ok|]. split; [exact Hfuel|].
  exact (X19_session_leaves_book_in_order true session 1102 session_inputs_ok Hfuel).
Defined.

(** X20. The two counters never give the same identifier. In a session of
    fewer than 9999 passes of the menu, with typed prices that are numbers
    and draws within the ranges of the distributions, every pass ends and no
    two orders resting in the book carry the same identifier: an order typed
    at the menu carries an identifier from 1 to below the counter of [main],
    an order generated one from 10000 to below the counter of
    [generateRandomOrders], and the first range ends below the second. *)
Theorem X20_session_ids_distinct `{HeapAlgorithms Order}
    (opened : bool) (inputs : list Input) (fuel : nat) :
  Forall input_ok inputs ->
  (session_bound inputs <= fuel)%nat ->
  Z.of_nat (List.length inputs) < 9999 ->
  exists exited p,
    Menu.main fuel inputs (Menu.new opened) = Ok (exited, p) /\
    NoDup (resting_ids (orderBook (engine (locals p)))) /\
    orderCounter (locals p) <= 10000 <= randomOrderCounter p /\
    forall id, In id (resting_ids (orderBook (engine (locals p)))) ->
      1 <= id < orderCounter (locals p) \/
      10000 <= id < randomOrderCounter p.
Proof.
  intros Hinputs Hfuel Hlen. unfold session_bound in Hfuel.
  assert (Hnew : engine_ok 2 (engine (locals (Menu.new opened)))).
  { destruct (new_book opened) as [Hheap Hfree].
    destruct (new_limit opened) as [Hlimit Hts].
    split; [exact Hheap|]. split; [exact Hfree|]. split; [exact Hlimit|].
    split; [exact Hts|]. unfold passes_bound. simpl. lia. }
  destruct (main_engine_ok fuel inputs 2 (Menu.new opened) Hinputs Hnew)
    as (exited & p & Hrun & _); [lia|lia|].
  exists exited, p. split; [exact Hrun|].
  assert (Hids : ids_ok 0 (Menu.new opened)).
  { unfold ids_ok. simpl. split; [constructor|]. split; [intros id []|lia]. }
  destruct (main_ids_ok fuel inputs 0 _ p exited (Z.le_refl 0) ltac:(lia) Hids Hrun)
    as (Hnd & Hgiven & Hoc & Hrc).
  split; [exact Hnd|]. split; [lia|exact Hgiven].
Qed.

Lemma X20_session_ids_distinct_witness :
  Forall input_ok session /\
  (session_bound session <= 1102)%nat /\
  Z.of_nat (List.length session) < 9999 /\
  exists exited p,
    Menu.main 1102 session (Menu.new true) = Ok (exited, p) /\
    NoDup (resting_ids (orderBook (engine (locals p)))) /\
    orderCounter (locals p) <= 10000 <= randomOrderCounter p /\
    forall id, In id (resting_ids (orderBook (engine (locals p)))) ->
      1 <= id < orderCounter (locals p) \/
      10000 <= id < randomOrderCounter p.
Proof.
  assert (Hfuel : (session_bound session <= 1102)%nat) by (vm_compute; lia).
  assert (Hlen : Z.of_nat (List.length session) < 9999) by (vm_compute; reflexivity).
  split; [exact session_inputs_ok|]. split; [exact Hfuel|]. split; [exact Hlen|].
  exact (X20_session_ids_distinct true session 1102 session_inputs_ok Hfuel Hlen).
Defined.
